(** * utils/loss.py: loss composition and label assignment for rotated-box YOLO

    A shallow embedding of [src/utils/loss.py].

    Conventions of the embedding.
    - A float scalar is an exact rational ([Q]); equality of scalars is [Qeq]
      ([==]).  Rounding, overflow, infinities and NaN are outside the model;
      where the source divides and the divisor may vanish, the definition
      says explicitly what happens.
    - [x.long()] / [x.int()] truncate towards zero ([Qtrunc]); [x % 1] is
      [torch.remainder], i.e. [x - floor x] ([Qrem1]).
    - A 2-D tensor is a shape together with an element function ([matrix]);
      a list of rows of a tensor is a [list] of records.
    - Python exceptions are values of [exn]; code that may raise returns
      [res].
    - Transcendental and geometric primitives of torch and of the sibling
      modules [utils.metrics] / [utils.general] (sigmoid, the element-wise
      binary cross-entropy with logits, powers, [-log], CIoU) are the
      operations of the interface [Kernels]. *)

From Stdlib Require Import String DecimalString.
From Stdlib Require Import QArith ZArith List Lia Lqa Bool Arith
  Permutation Sorted Qround Qminmax Qabs.
Import ListNotations.
Open Scope Q_scope.

(** ** Scalars *)

Definition Qltb (x y : Q) : bool := negb (Qle_bool y x).

Definition Qsum (l : list Q) : Q := fold_right Qplus 0 l.

(** [mean()] of a non-empty tensor (torch yields NaN on an empty one). *)
Definition Qmean (l : list Q) : Q := Qsum l / inject_Z (Z.of_nat (length l)).

(** [.int()], [.long()]: truncation towards zero. *)
Definition Qtrunc (x : Q) : Z := Z.quot (Qnum x) (Zpos (Qden x)).

(** [x % 1] ([torch.remainder]). *)
Definition Qrem1 (x : Q) : Q := x - inject_Z (Qfloor x).

(** [x.clamp(lo, hi)] on integers. *)
Definition clampZ (lo hi x : Z) : Z := Z.min (Z.max x lo) hi.

(** [x.clamp(min=lo, max=hi)] on scalars. *)
Definition clampQ (lo hi x : Q) : Q := Qmin (Qmax x lo) hi.

(** ** Exceptions *)

Inductive exn : Type :=
| AssertionError (msg : string)
| IndexError
| ZeroDivisionError
| UnboundLocalError
| ValueError
| RuntimeError.

Inductive res (A : Type) : Type :=
| Ok (a : A)
| Raise (e : exn).
Arguments Ok {A} a.
Arguments Raise {A} e.

Definition bind {A B : Type} (m : res A) (f : A -> res B) : res B :=
  match m with
  | Ok a => f a
  | Raise e => Raise e
  end.

Notation "x <- m ;; k" := (bind m (fun x => k))
  (at level 61, m at next level, right associativity).
Notation "' p <- m ;; k" := (bind m (fun p => k))
  (at level 61, p pattern, m at next level, right associativity).

Fixpoint mapM {A B : Type} (f : A -> res B) (l : list A) : res (list B) :=
  match l with
  | [] => Ok []
  | x :: l' => y <- f x ;; ys <- mapM f l' ;; Ok (y :: ys)
  end.

(** [l[i]] on a Python list, for a non-negative [i]. *)
Definition lookup {A : Type} (l : list A) (i : nat) : res A :=
  match nth_error l i with
  | Some x => Ok x
  | None => Raise IndexError
  end.

(** ** Tensors *)

Record matrix : Type := {
  dim0 : nat;
  dim1 : nat;
  at2 : nat -> nat -> Q
}.

Definition row (m : matrix) (r : nat) : list Q := map (at2 m r) (seq 0 (dim1 m)).
Definition col (m : matrix) (c : nat) : list Q :=
  map (fun r => at2 m r c) (seq 0 (dim0 m)).

Definition zeros_like (m : matrix) : matrix :=
  {| dim0 := dim0 m; dim1 := dim1 m; at2 := fun _ _ => 0 |}.

Definition of_rows (rows : list (list Q)) : matrix :=
  {| dim0 := length rows;
     dim1 := length (hd [] rows);
     at2 := fun r c => nth c (nth r rows []) 0 |}.

(** ** torch reductions used by the assignment *)

Section Sorting.
Context {A : Type} (le : A -> A -> bool).

Fixpoint insert_by (x : A) (l : list A) : list A :=
  match l with
  | [] => [x]
  | y :: l' => if le x y then x :: y :: l' else y :: insert_by x l'
  end.

Definition sort_by (l : list A) : list A := fold_right insert_by [] l.
End Sorting.

(** The relation a boolean comparison decides. *)
Definition holds {A : Type} (le : A -> A -> bool) (a b : A) : Prop := le a b = true.

Definition enumerate {A : Type} (l : list A) : list (nat * A) :=
  combine (seq 0 (length l)) l.

Definition topk_le (largest : bool) (a b : nat * Q) : bool :=
  if largest then Qle_bool (snd b) (snd a) else Qle_bool (snd a) (snd b).

(** [torch.topk(l, k, largest=...)]: values and indices of the [k] largest
    (smallest) entries; raises when [k] is not in [0, len(l)].  Among equal
    entries the one of lower index is taken first (torch leaves the choice
    open). *)
Definition topk (l : list Q) (k : Z) (largest : bool) : res (list Q * list nat) :=
  if ((k <? 0)%Z || (Z.of_nat (length l) <? k)%Z)%bool then Raise RuntimeError
  else
    let s := firstn (Z.to_nat k) (sort_by (topk_le largest) (enumerate l)) in
    Ok (map snd s, map fst s).

(** What [topk] is to return: [k] values which, together with the remaining
    entries, are the input, every remaining entry being no better than any
    returned one. *)
Definition is_topk (largest : bool) (l : list Q) (k : nat) (vals : list Q) : Prop :=
  length vals = k /\
  exists rest, Permutation l (vals ++ rest) /\
    forall v w, In v vals -> In w rest -> if largest then w <= v else v <= w.

(** [torch.min(l, dim)[1]] / [argmin]: index of the first minimal entry. *)
Fixpoint argmin (l : list Q) : nat :=
  match l with
  | [] => O
  | x :: l' =>
      match l' with
      | [] => O
      | _ :: _ => let j := argmin l' in
                  if Qle_bool x (nth j l' 0) then O else S j
      end
  end.

(** [argmax]: index of the first maximal entry. *)
Fixpoint argmax (l : list Q) : nat :=
  match l with
  | [] => O
  | x :: l' =>
      match l' with
      | [] => O
      | _ :: _ => let j := argmax l' in
                  if Qle_bool (nth j l' 0) x then O else S j
      end
  end.

(** ** Interface to torch and to the geometry helpers *)

Class Kernels : Type := {
  (** [torch.sigmoid] *)
  sigmoid : Q -> Q;
  (** one element of [nn.BCEWithLogitsLoss(pos_weight)(pred, true)] before
      reduction: arguments are [pos_weight], logit, target *)
  bce_with_logits : Q -> Q -> Q -> Q;
  (** [x ** y] *)
  fpow : Q -> Q -> Q;
  (** [-torch.log(x)] *)
  neg_log : Q -> Q;
  (** [bbox_iou(box1, box2, x1y1x2y2=False, CIoU=True)] on xywh boxes *)
  bbox_iou : Q * Q * Q * Q -> Q * Q * Q * Q -> Q
}.

(** ** [smooth_BCE] *)

(** [return 1.0 - 0.5 * eps, 0.5 * eps] *)
Definition smooth_BCE (eps : Q) : Q * Q := (1 - 0.5 * eps, 0.5 * eps).

(** ** Criteria: [nn.BCEWithLogitsLoss] and [FocalLoss] *)

Inductive reduction : Type := Mean | Sum | NoReduction.

(** The value of a criterion: a 0-dim tensor, or one loss per element. *)
Inductive out : Type :=
| Scalar (q : Q)
| Elementwise (l : list Q).

Definition reduce (r : reduction) (loss : list Q) : out :=
  match r with
  | Mean => Scalar (Qmean loss)
  | Sum => Scalar (Qsum loss)
  | NoReduction => Elementwise loss
  end.

Fixpoint map2 {A B C : Type} (f : A -> B -> C) (l1 : list A) (l2 : list B) : list C :=
  match l1, l2 with
  | x :: l1', y :: l2' => f x y :: map2 f l1' l2'
  | _, _ => []
  end.

(** [x.item()], and what [lcls += x] needs of [x]: a single element. *)
Definition item (o : out) : res Q :=
  match o with
  | Scalar q => Ok q
  | Elementwise _ => Raise RuntimeError
  end.

Module BCEWithLogitsLoss.
Record t : Type := { pos_weight : Q; reduction_ : reduction }.

(** [nn.BCEWithLogitsLoss(pos_weight=...)]: the reduction defaults to
    ['mean']. *)
Definition init (pos_weight : Q) : t :=
  {| pos_weight := pos_weight; reduction_ := Mean |}.

(** Inputs are the flattened tensors; torch raises [ValueError] when the
    target size differs from the input size. *)
Definition forward `{Kernels} (self : t) (pred true_ : list Q) : res out :=
  if (length pred =? length true_)%nat
  then Ok (reduce (reduction_ self)
             (map2 (bce_with_logits (pos_weight self)) pred true_))
  else Raise ValueError.
End BCEWithLogitsLoss.

Module FocalLoss.
Record t : Type := {
  loss_fcn : BCEWithLogitsLoss.t;
  gamma : Q;
  alpha : Q;
  reduction_ : reduction
}.

(** [self.reduction = loss_fcn.reduction; self.loss_fcn.reduction = 'none'] *)
Definition init (loss_fcn : BCEWithLogitsLoss.t) (gamma alpha : Q) : t :=
  {| loss_fcn := {| BCEWithLogitsLoss.pos_weight := BCEWithLogitsLoss.pos_weight loss_fcn;
                    BCEWithLogitsLoss.reduction_ := NoReduction |};
     gamma := gamma;
     alpha := alpha;
     reduction_ := BCEWithLogitsLoss.reduction_ loss_fcn |}.

Definition forward `{Kernels} (self : t) (pred true_ : list Q) : res out :=
  l <- BCEWithLogitsLoss.forward (loss_fcn self) pred true_ ;;
  match l with
  | Elementwise loss =>
      let factor :=
        map2 (fun x y =>
                let pred_prob := sigmoid x in
                let p_t := y * pred_prob + (1 - y) * (1 - pred_prob) in
                let alpha_factor := y * alpha self + (1 - y) * (1 - alpha self) in
                let modulating_factor := fpow (1 - p_t) (gamma self) in
                alpha_factor * modulating_factor)
             pred true_ in
      Ok (reduce (reduction_ self) (map2 Qmult loss factor))
  | Scalar _ => Raise RuntimeError
  end.
End FocalLoss.

(** ** [QFocalLoss] *)

Module QFocalLoss.
Record t : Type := {
  loss_fcn : BCEWithLogitsLoss.t;
  gamma : Q;
  alpha : Q;
  reduction_ : reduction
}.

(** [self.reduction = loss_fcn.reduction; self.loss_fcn.reduction = 'none'] *)
Definition init (loss_fcn : BCEWithLogitsLoss.t) (gamma alpha : Q) : t :=
  {| loss_fcn := {| BCEWithLogitsLoss.pos_weight := BCEWithLogitsLoss.pos_weight loss_fcn;
                    BCEWithLogitsLoss.reduction_ := NoReduction |};
     gamma := gamma;
     alpha := alpha;
     reduction_ := BCEWithLogitsLoss.reduction_ loss_fcn |}.

Definition forward `{Kernels} (self : t) (pred true_ : list Q) : res out :=
  l <- BCEWithLogitsLoss.forward (loss_fcn self) pred true_ ;;
  match l with
  | Elementwise loss =>
      let factor :=
        map2 (fun x y =>
                let pred_prob := sigmoid x in
                let alpha_factor := y * alpha self + (1 - y) * (1 - alpha self) in
                let modulating_factor := fpow (Qabs (y - pred_prob)) (gamma self) in
                alpha_factor * modulating_factor)
             pred true_ in
      Ok (reduce (reduction_ self) (map2 Qmult loss factor))
  | Scalar _ => Raise RuntimeError
  end.
End QFocalLoss.

Inductive criterion : Type :=
| BCE (l : BCEWithLogitsLoss.t)
| Focal (f : FocalLoss.t).

Definition criterion_forward `{Kernels} (c : criterion) (pred true_ : list Q) : res out :=
  match c with
  | BCE l => BCEWithLogitsLoss.forward l pred true_
  | Focal f => FocalLoss.forward f pred true_
  end.

(** ** [SigmoidBin] *)

Module SigmoidBin.
Record t : Type := {
  bin_count : nat;
  length_ : nat;
  min : Q;
  max : Q;
  scale : Q;
  shift : Q;
  use_loss_regression : bool;
  use_fw_regression : bool;
  reg_scale : Q;
  BCE_weight : Q;
  step : Q;
  bins : list Q;
  cp : Q;
  cn : Q;
  BCEbins : BCEWithLogitsLoss.t
}.

(** [torch.range(start, end_, step)]: [start], [start + step], ... up to
    [end_] included; torch refuses a zero step and bounds inconsistent
    with the sign of the step. *)
Definition range (start end_ step : Q) : res (list Q) :=
  if Qeq_bool step 0 then Raise RuntimeError
  else if (Qltb 0 step && Qltb end_ start) || (Qltb step 0 && Qltb start end_)
  then Raise RuntimeError
  else
    let n := Z.to_nat (Qfloor ((end_ - start) / step) + 1) in
    Ok (map (fun i => start + inject_Z (Z.of_nat i) * step) (seq 0 n)).

Definition init (bin_count : nat) (min max reg_scale : Q)
           (use_loss_regression use_fw_regression : bool)
           (BCE_weight smooth_eps : Q) : res t :=
  let scale := max - min in
  (* [(self.scale/2.0) / self.bin_count]: a Python float by an int *)
  if (bin_count =? 0)%nat then Raise ZeroDivisionError
  else
    let bc := inject_Z (Z.of_nat bin_count) in
    let start := min + (scale / 2) / bc in
    let end_ := max - (scale / 2) / bc in
    let step := scale / bc in
    bins <- range start (end_ + 0.0001) step ;;
    Ok {| bin_count := bin_count;
          length_ := bin_count + 1;
          min := min;
          max := max;
          scale := scale;
          shift := scale / 2;
          use_loss_regression := use_loss_regression;
          use_fw_regression := use_fw_regression;
          reg_scale := reg_scale;
          BCE_weight := BCE_weight;
          step := step;
          bins := bins;
          cp := 1 - 0.5 * smooth_eps;
          cn := 0.5 * smooth_eps;
          BCEbins := BCEWithLogitsLoss.init BCE_weight |}.

Definition get_length (self : t) : nat := length_ self.

Definition d (n : nat) : string := NilZero.string_of_uint (Nat.to_uint n).

(** ['pred.shape[-1]=%d is not equal to self.length=%d' % (...)] *)
Definition length_message (got expected : nat) : string :=
  ("pred.shape[-1]=" ++ d got ++ " is not equal to self.length=" ++ d expected)%string.

(** ['pred.shape=%d is not equal to the target.shape=%d' % (...)] *)
Definition batch_message (got expected : nat) : string :=
  ("pred.shape=" ++ d got ++ " is not equal to the target.shape=" ++ d expected)%string.

(** [pred[..., 1:(1+self.bin_count)]] of sample [i] *)
Definition pred_bin (self : t) (pred : matrix) (i : nat) : list Q :=
  firstn (bin_count self) (skipn 1 (row pred i)).

(** [pred] has shape [(n, width)]: the leading dimensions are flattened. *)
Definition forward (self : t) (pred : matrix) : res (list Q) :=
  if negb (dim1 pred =? length_ self)%nat
  then Raise (AssertionError (length_message (dim1 pred) (length_ self)))
  else
    mapM (fun i =>
            let pred_reg :=
              (at2 pred i 0 * reg_scale self - reg_scale self / 2) * step self in
            (* [torch.max] over an empty dimension raises *)
            bin_idx <- (match pred_bin self pred i with
                        | [] => Raise RuntimeError
                        | l => Ok (argmax l)
                        end) ;;
            bin_bias <- lookup (bins self) bin_idx ;;
            let result := if use_fw_regression self then pred_reg + bin_bias
                          else bin_bias in
            Ok (clampQ (min self) (max self) result))
         (seq 0 (dim0 pred)).

(** [target] has shape [(n,)]. *)
Definition training_loss `{Kernels} (self : t) (pred : matrix) (target : list Q)
  : res (Q * list Q) :=
  if negb (dim1 pred =? length_ self)%nat
  then Raise (AssertionError (length_message (dim1 pred) (length_ self)))
  else if negb (dim0 pred =? length target)%nat
  then Raise (AssertionError (batch_message (dim0 pred) (length target)))
  else
    rows <- mapM (fun i =>
              let y := nth i target 0 in
              let pred_reg :=
                (sigmoid (at2 pred i 0) * reg_scale self - reg_scale self / 2)
                * step self in
              let diff_bin_target := map (fun b => Qabs (y - b)) (bins self) in
              bin_idx <- (match diff_bin_target with
                          | [] => Raise RuntimeError
                          | l => Ok (argmin l)
                          end) ;;
              bin_bias <- lookup (bins self) bin_idx ;;
              let result := pred_reg + bin_bias in
              let logits := pred_bin self pred i in
              (* [target_bins[range(n), bin_idx] = self.cp] *)
              if (List.length logits <=? bin_idx)%nat then Raise IndexError
              else
                let target_bins :=
                  map (fun k => if (k =? bin_idx)%nat then cp self else cn self)
                      (seq 0 (List.length logits)) in
                Ok (result, logits, target_bins))
            (seq 0 (dim0 pred)) ;;
    let result := map (fun r => fst (fst r)) rows in
    o <- BCEWithLogitsLoss.forward (BCEbins self)
           (flat_map (fun r => snd (fst r)) rows) (flat_map snd rows) ;;
    loss_bin <- item o ;;
    let loss :=
      if use_loss_regression self
      then loss_bin + Qmean (map2 (fun r y => (r - y) * (r - y)) result target)
      else loss_bin in
    Ok (loss, map (clampQ (min self) (max self)) result).
End SigmoidBin.

(** ** Data of the loss: hyperparameters, detection head, inputs *)

Module Hyp.
(** [model.hyp]; [label_smoothing] is read with [h.get(..., 0.0)]. *)
Record t : Type := {
  cls_pw : Q;
  theta_pw : Q;
  obj_pw : Q;
  label_smoothing : option Q;
  fl_gamma : Q;
  anchor_t : Q;
  box : Q;
  obj : Q;
  cls : Q;
  theta : Q
}.
End Hyp.

Module Detect.
(** The attributes read from the [Detect()] module: [anchors] is a tensor
    of shape [(nl, na, 2)], [stride] one of shape [(nl,)]. *)
Record t : Type := {
  na : nat;
  nc : nat;
  nl : nat;
  anchors : nat -> nat -> Q * Q;
  stride : nat -> Q
}.
End Detect.

(** One row of [targets]:
    [img_index clsid cx cy l s theta gaussian_theta_labels]. *)
Record target : Type := {
  t_img : Q;
  t_cls : Q;
  t_x : Q;
  t_y : Q;
  t_w : Q;
  t_h : Q;
  t_theta : Q;
  t_labels : list Q
}.

(** One prediction tensor [p[i]], of shape [(b, na, h, w, no)]. *)
Record pred_layer : Type := {
  p_bs : nat;
  p_na : nat;
  p_h : nat;
  p_w : nat;
  p_no : nat;
  p_at : nat -> nat -> nat -> nat -> nat -> Q
}.

(** One row of the per-layer outputs of the static builder
    ([tcls], [tbox], [indices], [anch], [tgaussian_theta]). *)
Record candidate : Type := {
  (** position in [targets] of the expanded row, and row of [off] used;
      the source keeps neither, they serve to state per-ground-truth
      properties *)
  c_gt : nat;
  c_off : nat;
  c_b : Z;
  c_cls : Z;
  c_a : nat;
  c_gj : Z;
  c_gi : Z;
  c_tbox : Q * Q * Q * Q;
  c_anch : Q * Q;
  c_labels : list Q
}.

(** One row of the per-layer outputs of [find_5_positive]. *)
Record candidate5 : Type := {
  (** position in [targets] of the expanded row, anchor whose gate the row
      passed, and row of [off] used; the source keeps none of them *)
  c5_gt : nat;
  c5_anchor : nat;
  c5_off : nat;
  c5_b : Z;
  (** [t[:, 6].long()] *)
  c5_a : Z;
  c5_gj : Z;
  c5_gi : Z;
  c5_tbox : Q * Q * Q * Q;
  c5_anch : Q * Q
}.

(** ** Static target builder: the code shared by [ComputeLoss.build_targets]
    and [find_3_positive] *)

Module Static.

(** A row of [targets] after [torch.cat((targets.repeat(na, 1, 1), ai), 2)]. *)
Record arow : Type := { a_gt : nat; a_anchor : nat; a_t : target }.

(** [t[:, :, 2:6] /= self.stride[i]] (strides are non-zero) *)
Definition scale (s : Q) (t : target) : target :=
  {| t_img := t_img t; t_cls := t_cls t;
     t_x := t_x t / s; t_y := t_y t / s; t_w := t_w t / s; t_h := t_h t / s;
     t_theta := t_theta t; t_labels := t_labels t |}.

(** [torch.max(r, 1. / r).max(2)[0]] for [r = t[:, :, 4:6] / anchors[:, None]] *)
Definition ratio (anchor : Q * Q) (t : target) : Q :=
  let rw := t_w t / fst anchor in
  let rh := t_h t / snd anchor in
  Qmax (Qmax rw (/ rw)) (Qmax rh (/ rh)).

(** The gate [... < self.hyp['anchor_t']].  With a vanishing extent of
    the box or of the anchor a ratio or its reciprocal is infinite or NaN
    in the source, and the comparison is false. *)
Definition shape_ok (anchor_t : Q) (anchor : Q * Q) (t : target) : bool :=
  if Qeq_bool (t_w t) 0 || Qeq_bool (t_h t) 0
     || Qeq_bool (fst anchor) 0 || Qeq_bool (snd anchor) 0
  then false
  else Qltb (ratio anchor t) anchor_t.

(** [off = torch.tensor([[0, 0], [1, 0], [0, 1], [-1, 0], [0, -1]]) * g] *)
Definition off (g : Q) : list (Q * Q) :=
  [(0 * g, 0 * g); (1 * g, 0 * g); (0 * g, 1 * g); (-1 * g, 0 * g); (0 * g, -1 * g)].

(** The rows of [torch.stack((torch.ones_like(j), j, k, l, m))] for one
    row of [t]; [w], [h] are [feature_wh]. *)
Definition selects (g : Q) (w h : nat) (t : target) : list bool :=
  let gx := t_x t in
  let gy := t_y t in
  let ix := inject_Z (Z.of_nat w) - gx in
  let iy := inject_Z (Z.of_nat h) - gy in
  let j := Qltb (Qrem1 gx) g && Qltb 1 gx in
  let k := Qltb (Qrem1 gy) g && Qltb 1 gy in
  let l := Qltb (Qrem1 ix) g && Qltb 1 ix in
  let m := Qltb (Qrem1 iy) g && Qltb 1 iy in
  [true; j; k; l; m].

(** [t[j]]: the rows that pass the gate, anchor by anchor. *)
Definition gate (anchor_t : Q) (anchors : nat -> Q * Q) (t3 : list (list arow))
  : list arow :=
  flat_map (filter (fun r => shape_ok anchor_t (anchors (a_anchor r)) (a_t r))) t3.

(** [t.repeat((5, 1, 1))[j]] with the matching rows of [offsets]. *)
Definition expand (g : Q) (w h : nat) (t : list arow) : list (arow * nat * (Q * Q)) :=
  flat_map (fun k =>
              map (fun r => (r, k, nth k (off g) (0, 0)))
                  (filter (fun r => nth k (selects g w h (a_t r)) false) t))
           (seq 0 5).

(** The part after [# Define]: grid cell, clamped indices, box.
    [gj.clamp_] and [gi.clamp_] write through to [gij]; [clamped_tbox]
    says whether [gxy - gij] is read after ([build_targets]) or before
    ([find_3_positive]) that. *)
Definition define (clamped_tbox : bool) (anchors : nat -> Q * Q) (w h : nat)
           (e : arow * nat * (Q * Q)) : candidate :=
  let '(r, k, (ox, oy)) := e in
  let t := a_t r in
  let gi0 := Qtrunc (t_x t - ox) in
  let gj0 := Qtrunc (t_y t - oy) in
  let gj := clampZ 0 (Z.of_nat h - 1) gj0 in
  let gi := clampZ 0 (Z.of_nat w - 1) gi0 in
  let bi := if clamped_tbox then gi else gi0 in
  let bj := if clamped_tbox then gj else gj0 in
  {| c_gt := a_gt r;
     c_off := k;
     c_b := Qtrunc (t_img t);
     c_cls := Qtrunc (t_cls t);
     c_a := a_anchor r;
     c_gj := gj;
     c_gi := gi;
     c_tbox := (t_x t - inject_Z bi, t_y t - inject_Z bj, t_w t, t_h t);
     c_anch := anchors (a_anchor r);
     c_labels := t_labels t |}.

(** [torch.cat((targets.repeat(na, 1, 1), ai[:, :, None]), 2)], of shape
    [(na, nt, c+1)] *)
Definition repeat_targets (na : nat) (targets : list target) : list (list arow) :=
  map (fun a => map (fun gt => {| a_gt := fst gt; a_anchor := a; a_t := snd gt |})
                    (enumerate targets))
      (seq 0 na).

(** [t = targets.clone(); t[:, :, 2:6] /= self.stride[i]] *)
Definition scale_rows (stride : Q) (targets3 : list (list arow)) : list (list arow) :=
  map (map (fun r => {| a_gt := a_gt r; a_anchor := a_anchor r;
                        a_t := scale stride (a_t r) |})) targets3.

(** One iteration of [for i in range(self.nl)]. *)
Definition layer (g : Q) (clamped_tbox : bool) (anchor_t : Q) (na : nat)
           (anchors : nat -> Q * Q) (stride : Q) (w h : nat)
           (targets : list target) : res (list candidate) :=
  let targets3 := repeat_targets na targets in
  let t := scale_rows stride targets3 in
  rows <- (if negb (length targets =? 0)%nat
           then Ok (expand g w h (gate anchor_t anchors t))
           else (* [t = targets[0]; offsets = 0] *)
             t0 <- lookup targets3 0 ;;
             Ok (map (fun r => (r, 0%nat, (0, 0))) t0)) ;;
  Ok (map (define clamped_tbox anchors w h) rows).

(** The candidates expanded from ground truth [gt] with anchor [a]. *)
Definition from_pair (gt a : nat) (c : candidate) : bool :=
  ((c_gt c =? gt) && (c_a c =? a))%nat.

(** The whole builder: one list of candidates per layer. *)
Definition build (g : Q) (clamped_tbox : bool) (hyp : Hyp.t) (det : Detect.t)
           (p : list pred_layer) (targets : list target)
  : res (list (list candidate)) :=
  mapM (fun i =>
          pi <- lookup p i ;;
          layer g clamped_tbox (Hyp.anchor_t hyp) (Detect.na det)
                (Detect.anchors det i) (Detect.stride det i) (p_w pi) (p_h pi)
                targets)
       (seq 0 (Detect.nl det)).

End Static.

(** ** [ComputeLoss] *)

(** [idx] as an index into a dimension of [size] elements: negative indices
    count from the end. *)
Definition norm_index (size : nat) (idx : Z) : res nat :=
  if ((0 <=? idx) && (idx <? Z.of_nat size))%Z then Ok (Z.to_nat idx)
  else if ((- Z.of_nat size <=? idx) && (idx <? 0))%Z
       then Ok (Z.to_nat (idx + Z.of_nat size))
       else Raise IndexError.

(** [l[start:stop]] for non-negative [start], [stop]. *)
Definition slice {A : Type} (start stop : nat) (l : list A) : list A :=
  firstn (stop - start) (skipn start l).

Fixpoint set_nth {A : Type} (i : nat) (x : A) (l : list A) : list A :=
  match l, i with
  | [], _ => []
  | _ :: l', O => x :: l'
  | y :: l', S i' => y :: set_nth i' x l'
  end.

Definition position : Type := (nat * nat * nat * nat)%type.

Definition position_eqb (a b : position) : bool :=
  let '(a1, a2, a3, a4) := a in
  let '(b1, b2, b3, b4) := b in
  ((a1 =? b1) && (a2 =? b2) && (a3 =? b3) && (a4 =? b4))%nat.

(** All index tuples of [pi[..., 0]], in storage order. *)
Definition positions (pi : pred_layer) : list position :=
  flat_map (fun b =>
    flat_map (fun a =>
      flat_map (fun gj => map (fun gi => (b, a, gj, gi)) (seq 0 (p_w pi)))
               (seq 0 (p_h pi)))
             (seq 0 (p_na pi)))
           (seq 0 (p_bs pi)).

Module ComputeLoss.

Record t : Type := {
  sort_obj_iou : bool;
  cp : Q;
  cn : Q;
  BCEcls : criterion;
  BCEobj : criterion;
  BCEtheta : criterion;
  balance : list Q;
  ssi : nat;
  gr : Q;
  hyp : Hyp.t;
  autobalance : bool;
  (** [stride], [na], [nc], [nl], [anchors] *)
  det : Detect.t
}.

(** [# Define criteria] and [# Focal loss]: [(BCEcls, BCEobj, BCEtheta)] *)
Definition criteria (h : Hyp.t) : criterion * criterion * criterion :=
  let BCEcls := BCEWithLogitsLoss.init (Hyp.cls_pw h) in
  let BCEtheta := BCEWithLogitsLoss.init (Hyp.theta_pw h) in
  let BCEobj := BCEWithLogitsLoss.init (Hyp.obj_pw h) in
  let g := Hyp.fl_gamma h in
  if Qltb 0 g
  then (Focal (FocalLoss.init BCEcls g 0.25), Focal (FocalLoss.init BCEobj g 0.25),
        Focal (FocalLoss.init BCEtheta g 0.25))
  else (BCE BCEcls, BCE BCEobj, BCE BCEtheta).

(** [list(self.stride).index(16)] *)
Definition stride_index (det : Detect.t) : res nat :=
  match find (fun i => Qeq_bool (Detect.stride det i) 16) (seq 0 (Detect.nl det)) with
  | Some i => Ok i
  | None => Raise ValueError
  end.

Definition init (h : Hyp.t) (det : Detect.t) (autobalance : bool) : res t :=
  let '(cp, cn) := smooth_BCE (match Hyp.label_smoothing h with
                               | Some eps => eps
                               | None => 0
                               end) in
  let '(BCEcls, BCEobj, BCEtheta) := criteria h in
  let balance := if (Detect.nl det =? 3)%nat then [4; 1; 0.4]
                 else [4; 1; 0.25; 0.06; 0.02] in
  ssi <- (if autobalance then stride_index det else Ok 0%nat) ;;
  Ok {| sort_obj_iou := false;
        cp := cp; cn := cn;
        BCEcls := BCEcls; BCEobj := BCEobj; BCEtheta := BCEtheta;
        balance := balance;
        ssi := ssi;
        gr := 1;
        hyp := h;
        autobalance := autobalance;
        det := det |}.

(** [g = 0.5]; [tbox] is read after the in-place clamp. *)
Definition build_targets (self : t) (p : list pred_layer) (targets : list target)
  : res (list (list candidate)) :=
  Static.build 0.5 true (hyp self) (det self) p targets.

(** What one layer contributes: the terms added to [lbox], [lcls],
    [ltheta], the objectness loss [obji], and [tobj.shape[0]]. *)
Record layer_terms : Type := {
  box_i : Q;
  cls_i : Q;
  theta_i : Q;
  obji : Q;
  tobj_shape0 : nat
}.

(** [ps = pi[b, a, gj, gi]]: index tuple and channels of every match *)
Definition gather (pi : pred_layer) (cands : list candidate)
  : res (list (position * list Q)) :=
  mapM (fun c =>
          b <- norm_index (p_bs pi) (c_b c) ;;
          a <- norm_index (p_na pi) (Z.of_nat (c_a c)) ;;
          gj <- norm_index (p_h pi) (c_gj c) ;;
          gi <- norm_index (p_w pi) (c_gi c) ;;
          Ok ((b, a, gj, gi), map (p_at pi b a gj gi) (seq 0 (p_no pi))))
       cands.

(** [tobj[b, a, gj, gi] = v], one write after the other *)
Definition index_put (tobj : position -> Q) (writes : list (position * Q))
  : position -> Q :=
  fold_left (fun f w => fun x => if position_eqb x (fst w) then snd w else f x)
            writes tobj.

(** The body of [if n:].  [self.sort_obj_iou] is [False] and its branch
    is left out. *)
Definition matched_terms `{Kernels} (self : t) (pi : pred_layer)
           (cands : list candidate) : res (Q * Q * Q * (position -> Q)) :=
  ps <- gather pi cands ;;
  let no := p_no pi in
  (* Regression *)
  let iou :=
    map2 (fun x c =>
            let ch := snd x in
            let px := sigmoid (nth 0 ch 0) * 2 - 0.5 in
            let py := sigmoid (nth 1 ch 0) * 2 - 0.5 in
            let pw := (sigmoid (nth 2 ch 0) * 2) * (sigmoid (nth 2 ch 0) * 2)
                      * fst (c_anch c) in
            let ph := (sigmoid (nth 3 ch 0) * 2) * (sigmoid (nth 3 ch 0) * 2)
                      * snd (c_anch c) in
            bbox_iou (px, py, pw, ph) (c_tbox c))
         ps cands in
  let lbox := Qmean (map (fun v => 1 - v) iou) in
  (* Objectness *)
  let score_iou := map (fun v => Qmax v 0) iou in
  let tobj :=
    index_put (fun _ => 0)
              (map2 (fun x s => (fst x, (1 - gr self) + gr self * s)) ps score_iou) in
  (* Classification *)
  lcls <- (if (1 <? Detect.nc (det self))%nat
           then
             rows <- mapM (fun xc =>
                             let logits := slice 5 (no - 180) (snd (fst xc)) in
                             k <- norm_index (length logits) (c_cls (snd xc)) ;;
                             Ok (logits,
                                 map (fun i => if (i =? k)%nat then cp self else cn self)
                                     (seq 0 (length logits))))
                          (combine ps cands) ;;
             o <- criterion_forward (BCEcls self)
                    (flat_map fst rows) (flat_map snd rows) ;;
             item o
           else Ok 0) ;;
  (* theta, by circular smooth label *)
  o <- criterion_forward (BCEtheta self)
         (flat_map (fun x => skipn (no - 180) (snd x)) ps)
         (flat_map c_labels cands) ;;
  ltheta <- item o ;;
  Ok (lbox, lcls, ltheta, tobj).

(** [pi[..., 4]], flattened *)
Definition obj_logits (pi : pred_layer) : list Q :=
  map (fun x : position => let '(b, a, gj, gi) := x in p_at pi b a gj gi 4)
      (positions pi).

(** [obji = self.BCEobj(pi[..., 4], tobj)] *)
Definition objectness `{Kernels} (self : t) (pi : pred_layer) (tobj : position -> Q)
  : res Q :=
  o <- criterion_forward (BCEobj self) (obj_logits pi) (map tobj (positions pi)) ;;
  item o.

(** The body of [for i, pi in enumerate(p)] up to [obji = ...]. *)
Definition terms `{Kernels} (self : t) (pi : pred_layer) (cands : list candidate)
  : res layer_terms :=
  '(lbox, lcls, ltheta, tobj) <-
    (if negb (length cands =? 0)%nat then matched_terms self pi cands
     else Ok (0, 0, 0, fun _ => 0)) ;;
  obji <- objectness self pi tobj ;;
  Ok {| box_i := lbox; cls_i := lcls; theta_i := ltheta; obji := obji;
        tobj_shape0 := p_bs pi |}.

(** The running values of the loop. *)
Record acc : Type := {
  lcls : Q;
  lbox : Q;
  lobj : Q;
  ltheta : Q;
  bal : list Q;
  (** [tobj.shape[0]] of the last layer, if any *)
  tobj0 : option nat
}.

Definition step `{Kernels} (self : t) (built : list (list candidate))
           (a : acc) (i : nat) (pi : pred_layer) : res acc :=
  cands <- lookup built i ;;
  lt <- terms self pi cands ;;
  bal_i <- lookup (bal a) i ;;
  bal' <- (if autobalance self
           then if Qeq_bool (obji lt) 0 then Raise ZeroDivisionError
                else Ok (set_nth i (bal_i * 0.9999 + 0.0001 / obji lt) (bal a))
           else Ok (bal a)) ;;
  Ok {| lcls := lcls a + cls_i lt;
        lbox := lbox a + box_i lt;
        lobj := lobj a + obji lt * bal_i;
        ltheta := ltheta a + theta_i lt;
        bal := bal';
        tobj0 := Some (tobj_shape0 lt) |}.

Fixpoint loop `{Kernels} (self : t) (built : list (list candidate))
         (ps : list (nat * pred_layer)) (a : acc) : res acc :=
  match ps with
  | [] => Ok a
  | (i, pi) :: ps' => a' <- step self built a i pi ;; loop self built ps' a'
  end.

(** [self.balance = [x / self.balance[self.ssi] for x in self.balance]] *)
Definition renormalize (ssi : nat) (balance : list Q) : res (list Q) :=
  mapM (fun x =>
          d <- lookup balance ssi ;;
          if Qeq_bool d 0 then Raise ZeroDivisionError else Ok (x / d))
       balance.

Definition set_balance (self : t) (balance : list Q) : t :=
  {| sort_obj_iou := sort_obj_iou self;
     cp := cp self; cn := cn self;
     BCEcls := BCEcls self; BCEobj := BCEobj self; BCEtheta := BCEtheta self;
     balance := balance;
     ssi := ssi self;
     gr := gr self;
     hyp := hyp self;
     autobalance := autobalance self;
     det := det self |}.

(** [lt] is what layer [i], with predictions [pi], contributes. *)
Definition layer_of `{Kernels} (self : t) (built : list (list candidate))
           (i : nat) (pi : pred_layer) (lt : layer_terms) : Prop :=
  exists cands, nth_error built i = Some cands /\ terms self pi cands = Ok lt.

(** The objects [__init__] makes, with the balance a call may have left. *)
Definition built_by_init (self : t) : Prop :=
  exists h d ab self0,
    init h d ab = Ok self0 /\ self = set_balance self0 (balance self).

(** The layers of [__call__], from [self.build_targets] to the end of the
    loop. *)
Definition run `{Kernels} (self : t) (p : list pred_layer) (targets : list target)
  : res acc :=
  built <- build_targets self p targets ;;
  loop self built (enumerate p)
       {| lcls := 0; lbox := 0; lobj := 0; ltheta := 0;
          bal := balance self; tobj0 := None |}.

(** [__call__]: the loss, the four components, and the object with its
    balance as the call leaves it. *)
Definition call `{Kernels} (self : t) (p : list pred_layer) (targets : list target)
  : res (Q * list Q * t) :=
  a <- run self p targets ;;
  balance' <- (if autobalance self then renormalize (ssi self) (bal a)
               else Ok (bal a)) ;;
  let lbox := lbox a * Hyp.box (hyp self) in
  let lobj := lobj a * Hyp.obj (hyp self) in
  let lcls := lcls a * Hyp.cls (hyp self) in
  let ltheta := ltheta a * Hyp.theta (hyp self) in
  bs <- (match tobj0 a with
         | Some n => Ok n
         | None => Raise UnboundLocalError
         end) ;;
  Ok ((lbox + lobj + lcls + ltheta) * inject_Z (Z.of_nat bs),
      [lbox; lobj; lcls; ltheta],
      set_balance self balance').

End ComputeLoss.

(** ** Dynamic (OTA) assignment: the matching core of [build_targets] *)

Module OTA.

(** [pair_wise_iou_loss = -torch.log(pair_wise_iou + 1e-8)] *)
Definition pair_wise_iou_loss `{Kernels} (pair_wise_iou : matrix) : matrix :=
  {| dim0 := dim0 pair_wise_iou; dim1 := dim1 pair_wise_iou;
     at2 := fun r c => neg_log (at2 pair_wise_iou r c + 0.00000001) |}.

(** [top_k, _ = torch.topk(pair_wise_iou, min(top, n), dim=1)]
    [dynamic_ks = torch.clamp(top_k.sum(1).int(), min=1)] *)
Definition dynamic_ks (top : nat) (pair_wise_iou : matrix) : res (list Z) :=
  mapM (fun gt_idx =>
          '(top_k, _) <- topk (row pair_wise_iou gt_idx)
                           (Z.of_nat (Nat.min top (dim1 pair_wise_iou))) true ;;
          Ok (Z.max (Qtrunc (Qsum top_k)) 1))
       (seq 0 (dim0 pair_wise_iou)).

(** [cost = pair_wise_cls_loss + 3.0 * pair_wise_iou_loss] *)
Definition cost_matrix (pair_wise_cls_loss : nat -> nat -> Q) (iou_loss : matrix)
  : matrix :=
  {| dim0 := dim0 iou_loss; dim1 := dim1 iou_loss;
     at2 := fun r c => pair_wise_cls_loss r c + 3 * at2 iou_loss r c |}.

(** [matching_matrix[gt_idx][pos_idx] = 1.0] *)
Definition set_claims (m : matrix) (gt_idx : nat) (pos_idx : list nat) : matrix :=
  {| dim0 := dim0 m; dim1 := dim1 m;
     at2 := fun r c =>
              if ((r =? gt_idx)%nat && existsb (Nat.eqb c) pos_idx)%bool then 1
              else at2 m r c |}.

(** The loop [for gt_idx in range(num_gt)]: every ground truth claims its
    [dynamic_ks[gt_idx]] candidates of lowest cost. *)
Fixpoint claim_loop (cost : matrix) (ks : list Z) (gt_idx : nat)
         (matching_matrix : matrix) : res matrix :=
  match ks with
  | [] => Ok matching_matrix
  | k :: ks' =>
      '(_, pos_idx) <- topk (row cost gt_idx) k false ;;
      claim_loop cost ks' (S gt_idx) (set_claims matching_matrix gt_idx pos_idx)
  end.

(** [anchor_matching_gt = matching_matrix.sum(0)] *)
Definition anchor_matching_gt (m : matrix) (c : nat) : Q := Qsum (col m c).

(** the mask [anchor_matching_gt > 1] *)
Definition conflicted (m : matrix) (c : nat) : bool :=
  Qltb 1 (anchor_matching_gt m c).

(** [matching_matrix[:, anchor_matching_gt > 1] *= 0.0] *)
Definition clear_columns (mask : nat -> bool) (m : matrix) : matrix :=
  {| dim0 := dim0 m; dim1 := dim1 m;
     at2 := fun r c => if mask c then at2 m r c * 0 else at2 m r c |}.

(** [matching_matrix[cost_argmin, anchor_matching_gt > 1] = 1.0] *)
Definition set_argmin (mask : nat -> bool) (cost_argmin : nat -> nat)
           (m : matrix) : matrix :=
  {| dim0 := dim0 m; dim1 := dim1 m;
     at2 := fun r c =>
              if (mask c && (r =? cost_argmin c)%nat)%bool then 1 else at2 m r c |}.

(** Conflict resolution, lines [anchor_matching_gt = ...] to
    [matching_matrix[cost_argmin, ...] = 1.0]. *)
Definition resolve_conflicts (cost matching_matrix : matrix) : matrix :=
  let mask := conflicted matching_matrix in
  if existsb mask (seq 0 (dim1 matching_matrix)) then
    let cost_argmin := fun c => argmin (col cost c) in
    set_argmin mask cost_argmin (clear_columns mask matching_matrix)
  else matching_matrix.

Record assignment : Type := {
  matching_matrix : matrix;
  (** indices of the columns with [fg_mask_inboxes] set *)
  fg_candidates : list nat;
  (** [matched_gt_inds], one entry per element of [fg_candidates] *)
  matched_gt_inds : list nat
}.

(** [fg_mask_inboxes = matching_matrix.sum(0) > 0.0] *)
Definition fg_mask_inboxes (m : matrix) (c : nat) : bool :=
  Qltb 0 (anchor_matching_gt m c).

(** [fg_mask_inboxes] and [matched_gt_inds] of the resolved matrix. *)
Definition finish (cost m : matrix) : assignment :=
  let m' := resolve_conflicts cost m in
  let fg := filter (fg_mask_inboxes m') (seq 0 (dim1 m')) in
  {| matching_matrix := m';
     fg_candidates := fg;
     matched_gt_inds := map (fun c => argmax (col m' c)) fg |}.

(** The assignment of one image, from [pair_wise_iou] and the elements of
    [pair_wise_cls_loss] (a tensor of the shape of [pair_wise_iou]).
    [None] is the [continue] taken when the image has no ground truth or
    no decoded candidate. *)
Definition assign `{Kernels} (top : nat) (pair_wise_iou : matrix)
           (pair_wise_cls_loss : nat -> nat -> Q) : res (option assignment) :=
  if (dim0 pair_wise_iou =? 0)%nat then Ok None
  else if (dim1 pair_wise_iou =? 0)%nat then Ok None
  else
    ks <- dynamic_ks top pair_wise_iou ;;
    let cost := cost_matrix pair_wise_cls_loss (pair_wise_iou_loss pair_wise_iou) in
    m <- claim_loop cost ks 0 (zeros_like cost) ;;
    Ok (Some (finish cost m)).

End OTA.

(** The primitives of [utils.general], [utils.metrics] and torch that the
    dynamic builder applies to the decoded candidates, and the device its
    last loop names. *)
Class AssignKernels : Type := {
  (** [xywh2xyxy] on one box *)
  xywh2xyxy : Q * Q * Q * Q -> Q * Q * Q * Q;
  (** one element of [box_iou(box1, box2)], on xyxy boxes *)
  box_iou : Q * Q * Q * Q -> Q * Q * Q * Q -> Q;
  (** [x.sqrt_()] *)
  fsqrt : Q -> Q;
  (** [torch.log(y / (1 - y))] *)
  logit : Q -> Q;
  (** one element of
      [F.binary_cross_entropy_with_logits(input, target, reduction="none")] *)
  binary_cross_entropy_with_logits : Q -> Q -> Q;
  (** [torch.tensor([], device='cuda:0', dtype=torch.int64)]: it returns
      on a host that has this device, and raises the error of torch on a
      host that has not *)
  cuda_empty : res unit
}.

Module Dynamic.

(** One decoded candidate of an image: [from_which_layer], the row of
    [indices] and [anch] it comes from, and [fg_pred]. *)
Record row : Type := {
  r_layer : nat;
  r_cand : candidate;
  r_pred : list Q
}.

(** [this_target = targets[targets[:, 0] == batch_idx]] *)
Definition this_target (targets : list target) (batch_idx : nat) : list target :=
  filter (fun t => Qeq_bool (t_img t) (inject_Z (Z.of_nat batch_idx))) targets.

(** The body of [for i, pi in enumerate(p)]: the rows of [indices[i]] with
    [b == batch_idx] and [fg_pred = pi[b, a, gj, gi]].  [fg_pred[:, :2]] is
    added to [grid] and [fg_pred[:, 2:4]] multiplied by [anch[i][idx]], both
    two columns wide: the slices broadcast when they have one or two
    columns, and the second is empty below three channels. *)
Definition layer_rows (indices : list (list candidate)) (batch_idx i : nat)
           (pi : pred_layer) : res (list row) :=
  cands <- lookup indices i ;;
  let idx := filter (fun c => (c_b c =? Z.of_nat batch_idx)%Z) cands in
  fg_pred <- ComputeLoss.gather pi idx ;;
  _ <- (if (p_no pi <? 3)%nat then Raise RuntimeError else Ok tt) ;;
  Ok (map2 (fun c x => {| r_layer := i; r_cand := c; r_pred := snd x |}) idx fg_pred).

(** The concatenated lists [all_b], ..., [from_which_layer], [p_obj],
    [p_cls] of an image. *)
Definition image_rows (indices : list (list candidate)) (p : list pred_layer)
           (batch_idx : nat) : res (list row) :=
  rows <- mapM (fun ip => layer_rows indices batch_idx (fst ip) (snd ip))
               (enumerate p) ;;
  Ok (concat rows).

(** [pxyxy]: the box a candidate predicts, in pixels.  With three channels
    [fg_pred[:, 2:4]] is one column, used for the width and the height. *)
Definition pxyxy `{Kernels} `{AssignKernels} (det : Detect.t) (r : row)
  : Q * Q * Q * Q :=
  let fg_pred := r_pred r in
  let c := r_cand r in
  let stride := Detect.stride det (r_layer r) in
  let wh := slice 2 4 fg_pred in
  let px := (sigmoid (nth 0 fg_pred 0) * 2 - 0.5 + inject_Z (c_gi c)) * stride in
  let py := (sigmoid (nth 1 fg_pred 0) * 2 - 0.5 + inject_Z (c_gj c)) * stride in
  let pw := (sigmoid (nth 0 wh 0) * 2) * (sigmoid (nth 0 wh 0) * 2)
            * fst (c_anch c) * stride in
  let ph := (sigmoid (nth (length wh - 1) wh 0) * 2)
            * (sigmoid (nth (length wh - 1) wh 0) * 2)
            * snd (c_anch c) * stride in
  xywh2xyxy (px, py, pw, ph).

(** [pair_wise_iou = box_iou(txyxy, pxyxys)] *)
Definition pair_wise_iou `{Kernels} `{AssignKernels} (det : Detect.t)
           (this_target : list target) (rows : list row) : matrix :=
  {| dim0 := length this_target;
     dim1 := length rows;
     at2 := fun g c =>
              match nth_error this_target g, nth_error rows c with
              | Some t, Some r =>
                  box_iou (xywh2xyxy (t_x t, t_y t, t_w t, t_h t)) (pxyxy det r)
              | _, _ => 0
              end |}.

(** [p_cls]: [fg_pred[:, 5:class_index]] *)
Definition p_cls (nc : nat) (r : row) : list Q := slice 5 (5 + nc) (r_pred r).

(** [pair_wise_cls_loss]: the cross-entropy of
    [sqrt(sigmoid(p_cls) * sigmoid(p_obj))] against the one-hot class of
    the ground truth, summed over the classes. *)
Definition pair_wise_cls_loss `{Kernels} `{AssignKernels} (nc : nat)
           (this_target : list target) (rows : list row) (g c : nat) : Q :=
  match nth_error this_target g, nth_error rows c with
  | Some t, Some r =>
      let p_obj := nth 4 (r_pred r) 0 in
      let cls := Qtrunc (t_cls t) in
      Qsum (map2 (fun x k =>
                    let y := fsqrt (sigmoid x * sigmoid p_obj) in
                    binary_cross_entropy_with_logits
                      (logit y) (if (Z.of_nat k =? cls)%Z then 1 else 0))
                 (p_cls nc r) (seq 0 nc))
  | _, _ => 0
  end.

(** The body of [for batch_idx in range(p[0].shape[0])]: [None] when the
    image is left by [continue], and otherwise the rows it appends to the
    outputs, each with its layer. *)
Definition image_matches `{Kernels} `{AssignKernels} (top : nat) (det : Detect.t)
           (indices : list (list candidate)) (p : list pred_layer)
           (targets : list target) (batch_idx : nat)
  : res (option (list (nat * (candidate * target)))) :=
  let this_t := this_target targets batch_idx in
  if (length this_t =? 0)%nat then Ok None
  else
    rows <- image_rows indices p batch_idx ;;
    if (length rows =? 0)%nat then Ok None
    else
      let nc := Detect.nc det in
      (* [torch.cat(p_cls, dim=0)] needs one width; that of
         [fg_pred[:, 5:class_index]] is [min(nc, no - 5)] *)
      let widths := map (fun pi => Nat.min nc (p_no pi - 5)) p in
      _ <- (if forallb (Nat.eqb (hd 0%nat widths)) widths then Ok tt
            else Raise RuntimeError) ;;
      (* [F.one_hot(this_target[:, 1].to(torch.int64), self.nc)] *)
      _ <- (if forallb (fun t => (0 <=? Qtrunc (t_cls t))
                                 && (Qtrunc (t_cls t) <? Z.of_nat nc))%Z this_t
            then Ok tt else Raise RuntimeError) ;;
      (* the cross-entropy needs input and target of one size *)
      _ <- (if (hd 0%nat widths =? nc)%nat then Ok tt else Raise ValueError) ;;
      a <- OTA.assign top (pair_wise_iou det this_t rows)
                      (pair_wise_cls_loss nc this_t rows) ;;
      match a with
      | None => Ok None
      | Some a =>
          (* [all_b[fg_mask_inboxes]], ..., [this_target[matched_gt_inds]] *)
          Ok (Some
                (flat_map (fun cg =>
                             match nth_error rows (fst cg), nth_error this_t (snd cg) with
                             | Some r, Some t => [(r_layer r, (r_cand r, t))]
                             | _, _ => []
                             end)
                          (combine (OTA.fg_candidates a) (OTA.matched_gt_inds a))))
      end.

(** What the images that were not left by [continue] appended, in order:
    an image appends to the lists of every layer at once. *)
Definition appended {A : Type} (images : list (option A)) : list A :=
  flat_map (fun o => match o with Some ms => [ms] | None => [] end) images.

(** The body of the last [for i in range(nl)]: the rows of layer [i],
    concatenated, when some image appended ([matching_targets[i] != []]),
    and else empty outputs created on the device ['cuda:0']. *)
Definition layer_output `{AssignKernels}
           (images : list (list (nat * (candidate * target)))) (i : nat)
  : res (list (candidate * target)) :=
  if negb (length images =? 0)%nat
  then Ok (flat_map (fun ms => map snd (filter (fun m => (fst m =? i)%nat) ms)) images)
  else _ <- cuda_empty ;; Ok [].

(** [build_targets], with [top] the bound of the first [topk]: for every
    layer the matched rows; the candidate gives [matching_bs],
    [matching_as], [matching_gjs], [matching_gis], [matching_tboxes] and
    [matching_anchs], the ground truth [matching_targets]. *)
Definition build_targets `{Kernels} `{AssignKernels} (top : nat) (hyp : Hyp.t)
           (det : Detect.t) (p : list pred_layer) (targets : list target)
  : res (list (list (candidate * target))) :=
  (* [indices, anch = self.find_3_positive(p, targets)] *)
  indices <- Static.build 0.5 false hyp det p targets ;;
  p0 <- lookup p 0 ;;
  images <- mapM (image_matches top det indices p targets) (seq 0 (p_bs p0)) ;;
  mapM (layer_output (appended images)) (seq 0 (length p)).

End Dynamic.

Module ComputeLossOTA.
(** [g = 0.5]; [tbox] is computed before the in-place clamp. *)
Definition find_3_positive (hyp : Hyp.t) (det : Detect.t) (p : list pred_layer)
           (targets : list target) : res (list (list candidate)) :=
  Static.build 0.5 false hyp det p targets.

(** [torch.topk(pair_wise_iou, min(10, pair_wise_iou.shape[1]), dim=1)] *)
Definition top : nat := 10.
Definition build_targets_assign `{Kernels} := OTA.assign top.

(** [build_targets] *)
Definition build_targets `{Kernels} `{AssignKernels} :=
  Dynamic.build_targets top.
End ComputeLossOTA.

Module ComputeLossAuxOTA.
Definition find_3_positive (hyp : Hyp.t) (det : Detect.t) (p : list pred_layer)
           (targets : list target) : res (list (list candidate)) :=
  Static.build 0.5 false hyp det p targets.

(** [torch.topk(pair_wise_iou, min(20, pair_wise_iou.shape[1]), dim=1)],
    in [build_targets] and in [build_targets2] alike *)
Definition top : nat := 20.
Definition build_targets_assign `{Kernels} := OTA.assign top.
Definition build_targets2_assign `{Kernels} := OTA.assign top.

(** [build_targets] *)
Definition build_targets `{Kernels} `{AssignKernels} :=
  Dynamic.build_targets top.

(** The part of [find_5_positive] after [# Define].  The anchor index is
    [t[:, 6].long()], and column 6 of a row of [targets] is its angle;
    [anchors[a]] raises when an index is out of range.  [tbox] is computed
    before the in-place clamp. *)
Definition define5 (anchors : nat -> Q * Q) (na w h : nat)
           (e : Static.arow * nat * (Q * Q)) : res candidate5 :=
  let '(r, k, (ox, oy)) := e in
  let t := Static.a_t r in
  let gi0 := Qtrunc (t_x t - ox) in
  let gj0 := Qtrunc (t_y t - oy) in
  let a := Qtrunc (t_theta t) in
  ia <- norm_index na a ;;
  Ok {| c5_gt := Static.a_gt r;
        c5_anchor := Static.a_anchor r;
        c5_off := k;
        c5_b := Qtrunc (t_img t);
        c5_a := a;
        c5_gj := clampZ 0 (Z.of_nat h - 1) gj0;
        c5_gi := clampZ 0 (Z.of_nat w - 1) gi0;
        c5_tbox := (t_x t - inject_Z gi0, t_y t - inject_Z gj0, t_w t, t_h t);
        c5_anch := anchors ia |}.

(** One iteration of [for i in range(self.nl)], with [g = 1.0]. *)
Definition layer5 (anchor_t : Q) (na : nat) (anchors : nat -> Q * Q) (stride : Q)
           (w h : nat) (targets : list target) : res (list candidate5) :=
  let targets3 := Static.repeat_targets na targets in
  let t := Static.scale_rows stride targets3 in
  rows <- (if negb (length targets =? 0)%nat
           then Ok (Static.expand 1 w h (Static.gate anchor_t anchors t))
           else (* [t = targets[0]; offsets = 0] *)
             t0 <- lookup targets3 0 ;;
             Ok (map (fun r => (r, 0%nat, (0, 0))) t0)) ;;
  mapM (define5 anchors na w h) rows.

Definition find_5_positive (hyp : Hyp.t) (det : Detect.t) (p : list pred_layer)
           (targets : list target) : res (list (list candidate5)) :=
  mapM (fun i =>
          pi <- lookup p i ;;
          layer5 (Hyp.anchor_t hyp) (Detect.na det) (Detect.anchors det i)
                 (Detect.stride det i) (p_w pi) (p_h pi) targets)
       (seq 0 (Detect.nl det)).

(** The candidates expanded from ground truth [gt] with anchor [a]. *)
Definition from_pair (gt a : nat) (c : candidate5) : bool :=
  ((c5_gt c =? gt) && (c5_anchor c =? a))%nat.
End ComputeLossAuxOTA.

(** A concrete instance of the interface, for evaluating the definitions. *)
Definition toy_kernels : Kernels :=
  {| sigmoid := fun x => 1 / 2;
     bce_with_logits := fun pw x y => 1 + x * x + y * y;
     fpow := fun x y => 1;
     neg_log := fun x => 1 - x;
     bbox_iou := fun _ _ => 1 / 2 |}.

Definition toy_assign_kernels : AssignKernels :=
  {| xywh2xyxy := fun b => b;
     box_iou := fun _ _ => 1 / 2;
     fsqrt := fun x => x;
     logit := fun x => x;
     binary_cross_entropy_with_logits := fun x y => 1 + x * x + y * y;
     cuda_empty := Ok tt |}.

(** The same on a host whose torch has no CUDA. *)
Definition toy_assign_kernels_cpu : AssignKernels :=
  {| xywh2xyxy := fun b => b;
     box_iou := fun _ _ => 1 / 2;
     fsqrt := fun x => x;
     logit := fun x => x;
     binary_cross_entropy_with_logits := fun x y => 1 + x * x + y * y;
     cuda_empty := Raise (AssertionError "Torch not compiled with CUDA enabled") |}.

(** ** Notions used to state the properties *)

(** A matching matrix holds zeros and ones only. *)
Definition binary (m : matrix) : Prop := forall r c, at2 m r c = 0 \/ at2 m r c = 1.

(** The new balance of a layer when auto-balancing:
    [self.balance[i] * 0.9999 + 0.0001 / obji.detach().item()]. *)
Definition ema (b : Q) (lt : ComputeLoss.layer_terms) : Q :=
  b * 0.9999 + 0.0001 / ComputeLoss.obji lt.

(** The row of the scaled tensor [t] for ground truth [gt] and anchor [a]. *)
Definition pair_row (stride : Q) (gt a : nat) (t : target) : Static.arow :=
  {| Static.a_gt := gt; Static.a_anchor := a; Static.a_t := Static.scale stride t |}.

(** Two criterion values that agree as rationals. *)
Definition out_eq (a b : out) : Prop :=
  match a, b with
  | Scalar x, Scalar y => x == y
  | Elementwise l1, Elementwise l2 => Forall2 Qeq l1 l2
  | _, _ => False
  end.

(** ** Concrete inputs, for evaluating the definitions *)

Definition example_iou : matrix := of_rows [[0.9; 0.8; 0.1]; [0.85; 0.2; 0.1]].

Definition example_cls_loss : nat -> nat -> Q := fun _ _ => 0.

Definition example_assignment : OTA.assignment :=
  match @ComputeLossOTA.build_targets_assign toy_kernels example_iou example_cls_loss with
  | Ok (Some a) => a
  | _ => OTA.finish (zeros_like example_iou) (zeros_like example_iou)
  end.

Definition example_hyp : Hyp.t :=
  {| Hyp.cls_pw := 1; Hyp.theta_pw := 1; Hyp.obj_pw := 1;
     Hyp.label_smoothing := None; Hyp.fl_gamma := 0; Hyp.anchor_t := 4;
     Hyp.box := 0.05; Hyp.obj := 0.7; Hyp.cls := 0.3; Hyp.theta := 0.2 |}.

(** One layer of stride 16 with one anchor of 2 x 2 cells, two classes. *)
Definition example_det : Detect.t :=
  {| Detect.na := 1; Detect.nc := 2; Detect.nl := 1;
     Detect.anchors := fun _ _ => (2, 2);
     Detect.stride := fun _ => 16 |}.

Definition example_self : ComputeLoss.t :=
  match ComputeLoss.init example_hyp example_det true with
  | Ok self => self
  | Raise _ =>
      {| ComputeLoss.sort_obj_iou := false; ComputeLoss.cp := 1; ComputeLoss.cn := 0;
         ComputeLoss.BCEcls := BCE (BCEWithLogitsLoss.init 1);
         ComputeLoss.BCEobj := BCE (BCEWithLogitsLoss.init 1);
         ComputeLoss.BCEtheta := BCE (BCEWithLogitsLoss.init 1);
         ComputeLoss.balance := []; ComputeLoss.ssi := 0; ComputeLoss.gr := 1;
         ComputeLoss.hyp := example_hyp; ComputeLoss.autobalance := true;
         ComputeLoss.det := example_det |}
  end.

(** A batch of one image on a grid of [h] x [w] cells, 5 + 2 + 180 channels,
    every logit zero. *)
Definition example_pred (h w : nat) : pred_layer :=
  {| p_bs := 1; p_na := 1; p_h := h; p_w := w; p_no := 187;
     p_at := fun _ _ _ _ _ => 0 |}.

(** The same batch with every logit at -200: all cells are confidently
    background. *)
Definition example_background (h w : nat) : pred_layer :=
  {| p_bs := 1; p_na := 1; p_h := h; p_w := w; p_no := 187;
     p_at := fun _ _ _ _ _ => -200 |}.

(** The toy kernels with a criterion that is rounded the way float32 rounds
    it on a confident background logit: for a logit of -104 or less and
    the target 0, [log(1 + exp(x))] is 0. *)
Definition saturating_kernels : Kernels :=
  {| sigmoid := fun x => 1 / 2;
     bce_with_logits := fun pw x y =>
       if Qle_bool x (-104) && Qeq_bool y 0 then 0 else 1 + x * x + y * y;
     fpow := fun x y => 1;
     neg_log := fun x => 1 - x;
     bbox_iou := fun _ _ => 1 / 2 |}.

(** A box of class 1 in image 0, centre [(x, y)] and extent [w] x [h] in
    pixels. *)
Definition example_target (x y w h : Q) : target :=
  {| t_img := 0; t_cls := 1; t_x := x; t_y := y; t_w := w; t_h := h;
     t_theta := 0; t_labels := repeat 0 180 |}.

Definition example_bin : SigmoidBin.t :=
  match SigmoidBin.init 4 0 1 2 true true 1 0 with
  | Ok self => self
  | Raise _ =>
      {| SigmoidBin.bin_count := 4; SigmoidBin.length_ := 5; SigmoidBin.min := 0;
         SigmoidBin.max := 1; SigmoidBin.scale := 1; SigmoidBin.shift := 0.5;
         SigmoidBin.use_loss_regression := true; SigmoidBin.use_fw_regression := true;
         SigmoidBin.reg_scale := 2; SigmoidBin.BCE_weight := 1; SigmoidBin.step := 0.25;
         SigmoidBin.bins := []; SigmoidBin.cp := 1; SigmoidBin.cn := 0;
         SigmoidBin.BCEbins := BCEWithLogitsLoss.init 1 |}
  end.

(** The outcome of one call, with auto-balancing, on a 4 x 4 grid and one
    box centred at (40, 40). *)
Definition example_result : Q * list Q * ComputeLoss.t :=
  match @ComputeLoss.call toy_kernels example_self [example_pred 4 4]
                          [example_target 40 40 32 32] with
  | Ok x => x
  | Raise _ => (0, [], example_self)
  end.

(** ** Further concrete inputs *)

(** The object of [example_self] without auto-balancing. *)
Definition example_plain : ComputeLoss.t :=
  match ComputeLoss.init example_hyp example_det false with
  | Ok self => self
  | Raise _ => example_self
  end.

(** A head with a single class. *)
Definition example_det1 : Detect.t :=
  {| Detect.na := 1; Detect.nc := 1; Detect.nl := 1;
     Detect.anchors := fun _ _ => (2, 2);
     Detect.stride := fun _ => 16 |}.

(** The object made for that head, without auto-balancing. *)
Definition example_plain1 : ComputeLoss.t :=
  match ComputeLoss.init example_hyp example_det1 false with
  | Ok self => self
  | Raise _ => example_self
  end.

(** The outcome of one call of [example_plain], and of one of
    [example_plain1], on a 4 x 4 grid and one box centred at (40, 40). *)
Definition example_result_plain : Q * list Q * ComputeLoss.t :=
  match @ComputeLoss.call toy_kernels example_plain [example_pred 4 4]
                          [example_target 40 40 32 32] with
  | Ok x => x
  | Raise _ => (0, [], example_plain)
  end.

Definition example_result1 : Q * list Q * ComputeLoss.t :=
  match @ComputeLoss.call toy_kernels example_plain1 [example_pred 4 4]
                          [example_target 40 40 32 32] with
  | Ok x => x
  | Raise _ => (0, [], example_plain1)
  end.

(** The candidates of a 10 x 10 grid for one box centred at (36, 44), i.e.
    at (2.25, 2.75) in grid units. *)
Definition example_built : list (list candidate) :=
  match ComputeLoss.build_targets example_self [example_pred 10 10]
                                  [example_target 36 44 32 32] with
  | Ok built => built
  | Raise _ => []
  end.

(** The default of [nth] on a list of candidates. *)
Definition example_candidate : candidate :=
  {| c_gt := 0; c_off := 0; c_b := 0; c_cls := 0; c_a := 0; c_gj := 0; c_gi := 0;
     c_tbox := (0, 0, 0, 0); c_anch := (0, 0); c_labels := [] |}.

(** What [find_5_positive] returns on that grid for one box centred at
    (40, 40), i.e. at (2.5, 2.5) in grid units. *)
Definition example_built5 : list (list candidate5) :=
  match ComputeLossAuxOTA.find_5_positive example_hyp example_det [example_pred 10 10]
                                          [example_target 40 40 32 32] with
  | Ok built => built
  | Raise _ => []
  end.

(** The default of [nth] on a list of such candidates. *)
Definition example_candidate5 : candidate5 :=
  {| c5_gt := 0; c5_anchor := 0; c5_off := 0; c5_b := 0; c5_a := 0; c5_gj := 0;
     c5_gi := 0; c5_tbox := (0, 0, 0, 0); c5_anch := (0, 0) |}.

(** The rows the dynamic builder returns for the box centred at (36, 44). *)
Definition example_matched : list (list (candidate * target)) :=
  match @ComputeLossOTA.build_targets toy_kernels toy_assign_kernels example_hyp
          example_det [example_pred 10 10] [example_target 36 44 32 32] with
  | Ok out => out
  | Raise _ => []
  end.

(** A box whose angle truncates to 1. *)
Definition example_turned : target :=
  {| t_img := 0; t_cls := 1; t_x := 40; t_y := 40; t_w := 32; t_h := 32;
     t_theta := 1.5; t_labels := repeat 0 180 |}.

(** * Theory *)

(** ** Scalars and sums *)

Lemma Qltb_lt (x y : Q) : Qltb x y = true <-> x < y.
Proof.
  unfold Qltb. rewrite negb_true_iff. split; intro H.
  - apply Qnot_le_lt. intro Hle. apply Qle_bool_iff in Hle. congruence.
  - destruct (Qle_bool y x) eqn:E; [|reflexivity].
    apply Qle_bool_iff in E. exfalso. apply (Qlt_not_le _ _ H E).
Qed.

Lemma Qltb_ge (x y : Q) : Qltb x y = false <-> y <= x.
Proof.
  unfold Qltb. rewrite negb_false_iff. apply Qle_bool_iff.
Qed.

Lemma Qsum_app (l1 l2 : list Q) : Qsum (l1 ++ l2) == Qsum l1 + Qsum l2.
Proof.
  induction l1 as [|x l1 IH]; simpl.
  - ring.
  - rewrite IH. ring.
Qed.

Lemma Qsum_map_ext {A : Type} (f g : A -> Q) (l : list A) :
  (forall x, In x l -> f x == g x) -> Qsum (map f l) == Qsum (map g l).
Proof.
  induction l as [|x l IH]; intros Hfg; simpl.
  - reflexivity.
  - rewrite (Hfg x (or_introl eq_refl)), IH; [reflexivity|].
    intros y Hy. apply Hfg. now right.
Qed.

Lemma Qsum_nonneg (l : list Q) : (forall x, In x l -> 0 <= x) -> 0 <= Qsum l.
Proof.
  induction l as [|x l IH]; intros Hl; simpl.
  - apply Qle_refl.
  - assert (0 <= x) by (apply Hl; now left).
    assert (0 <= Qsum l) by (apply IH; intros y Hy; apply Hl; now right).
    lra.
Qed.

Lemma Qsum_le_length (l : list Q) :
  (forall x, In x l -> x <= 1) -> Qsum l <= inject_Z (Z.of_nat (length l)).
Proof.
  induction l as [|x l IH]; intros Hl.
  - simpl. apply Qle_refl.
  - assert (x <= 1) by (apply Hl; now left).
    assert (Qsum l <= inject_Z (Z.of_nat (length l)))
      by (apply IH; intros y Hy; apply Hl; now right).
    change (length (x :: l)) with (S (length l)).
    rewrite Nat2Z.inj_succ. unfold Z.succ. rewrite inject_Z_plus.
    simpl Qsum. change (inject_Z 1) with 1. lra.
Qed.

Lemma Qsum_ge_member {A : Type} (f : A -> Q) (l : list A) (a : A) :
  (forall x, 0 <= f x) -> In a l -> f a <= Qsum (map f l).
Proof.
  intros Hf. induction l as [|x l IH]; intros Ha; simpl.
  - destruct Ha.
  - destruct Ha as [->|Ha].
    + assert (0 <= Qsum (map f l)).
      { apply Qsum_nonneg. intros y Hy. apply in_map_iff in Hy.
        destruct Hy as [z [<- _]]. apply Hf. }
      lra.
    + specialize (IH Ha). specialize (Hf x). lra.
Qed.

Lemma Qsum_ge_two_members {A : Type} (f : A -> Q) (l : list A) (a b : A) :
  (forall x, 0 <= f x) -> NoDup l -> In a l -> In b l -> a <> b ->
  f a + f b <= Qsum (map f l).
Proof.
  intros Hf. induction l as [|x l IH]; intros Hnd Ha Hb Hab; simpl.
  - destruct Ha.
  - inversion Hnd as [|? ? Hx Hnd']; subst.
    destruct Ha as [->|Ha]; destruct Hb as [->|Hb].
    + congruence.
    + pose proof (Qsum_ge_member f l b Hf Hb). lra.
    + pose proof (Qsum_ge_member f l a Hf Ha). lra.
    + specialize (IH Hnd' Ha Hb Hab). specialize (Hf x). lra.
Qed.

Lemma Qsum_indicator (l : list nat) (j : nat) :
  NoDup l ->
  Qsum (map (fun r => if (r =? j)%nat then 1 else 0) l)
  == if existsb (Nat.eqb j) l then 1 else 0.
Proof.
  induction l as [|x l IH]; intros Hnd; simpl.
  - reflexivity.
  - inversion Hnd as [|? ? Hx Hnd']; subst. rewrite (IH Hnd').
    rewrite (Nat.eqb_sym j x).
    destruct (Nat.eqb_spec x j) as [->|Hne]; simpl.
    + destruct (existsb (Nat.eqb j) l) eqn:E; [|ring].
      apply existsb_exists in E. destruct E as [y [Hy Hjy]].
      apply Nat.eqb_eq in Hjy. subst. contradiction.
    + ring.
Qed.

Lemma existsb_eqb_In (j : nat) (l : list nat) :
  existsb (Nat.eqb j) l = true <-> In j l.
Proof.
  rewrite existsb_exists. split.
  - intros [y [Hy E]]. apply Nat.eqb_eq in E. now subst.
  - intros Hj. exists j. split; [assumption|apply Nat.eqb_refl].
Qed.

Lemma Qtrunc_nonneg_floor (x : Q) : 0 <= x -> Qtrunc x = Qfloor x.
Proof.
  destruct x as [n d]. unfold Qle, Qtrunc, Qfloor. simpl. intros Hn.
  apply Z.quot_div_nonneg; lia.
Qed.

Lemma Qtrunc_le_Z (x : Q) (n : Z) : 0 <= x -> x <= inject_Z n -> (Qtrunc x <= n)%Z.
Proof.
  intros H0 Hn. rewrite (Qtrunc_nonneg_floor x H0).
  rewrite <- (Qfloor_Z n). now apply Qfloor_resp_le.
Qed.

(** ** Sorting and [topk] *)

Lemma firstn_incl {A : Type} (k : nat) (l : list A) (a : A) :
  In a (firstn k l) -> In a l.
Proof.
  intros Ha. rewrite <- (firstn_skipn k l). apply in_or_app. now left.
Qed.

Lemma skipn_incl {A : Type} (k : nat) (l : list A) (a : A) :
  In a (skipn k l) -> In a l.
Proof.
  intros Ha. rewrite <- (firstn_skipn k l). apply in_or_app. now right.
Qed.

Section SortingFacts.
Context {A : Type} (le : A -> A -> bool).
Hypothesis le_total : forall a b, le a b = true \/ le b a = true.
Hypothesis le_trans : forall a b c, le a b = true -> le b c = true -> le a c = true.

Lemma insert_by_perm (x : A) (l : list A) : Permutation (insert_by le x l) (x :: l).
Proof.
  induction l as [|y l IH]; simpl.
  - apply Permutation_refl.
  - destruct (le x y).
    + apply Permutation_refl.
    + apply perm_trans with (y :: x :: l).
      * now apply perm_skip.
      * apply perm_swap.
Qed.

Lemma sort_by_perm (l : list A) : Permutation (sort_by le l) l.
Proof.
  induction l as [|x l IH]; simpl.
  - apply perm_nil.
  - apply perm_trans with (x :: sort_by le l).
    + apply insert_by_perm.
    + now apply perm_skip.
Qed.

Lemma sort_by_length (l : list A) : length (sort_by le l) = length l.
Proof. apply Permutation_length, sort_by_perm. Qed.

Lemma insert_by_sorted (x : A) (l : list A) :
  StronglySorted (holds le) l -> StronglySorted (holds le) (insert_by le x l).
Proof.
  induction 1 as [|y l Hs IH Hy]; simpl.
  - constructor; constructor.
  - destruct (le x y) eqn:E.
    + constructor.
      * now constructor.
      * constructor; [exact E|].
        apply Forall_impl with (P := holds le y); [|exact Hy].
        intros z Hz. exact (le_trans _ _ _ E Hz).
    + constructor; [exact IH|].
      apply (Permutation_Forall (Permutation_sym (insert_by_perm x l))).
      constructor; [|exact Hy].
      destruct (le_total x y) as [Hxy|Hyx]; [congruence|exact Hyx].
Qed.

Lemma sort_by_sorted (l : list A) : StronglySorted (holds le) (sort_by le l).
Proof.
  induction l as [|x l IH]; simpl.
  - constructor.
  - now apply insert_by_sorted.
Qed.

Lemma sorted_firstn_skipn (l : list A) (k : nat) :
  StronglySorted (holds le) l ->
  forall a b, In a (firstn k l) -> In b (skipn k l) -> le a b = true.
Proof.
  intros Hs. revert k. induction Hs as [|y l Hs IH Hy]; intros k a b Ha Hb.
  - rewrite firstn_nil in Ha. destruct Ha.
  - destruct k as [|k]; simpl in Ha, Hb.
    + destruct Ha.
    + destruct Ha as [<-|Ha].
      * rewrite Forall_forall in Hy. apply Hy.
        apply (skipn_incl k l). exact Hb.
      * exact (IH k a b Ha Hb).
Qed.
End SortingFacts.

Lemma topk_le_total (largest : bool) (a b : nat * Q) :
  topk_le largest a b = true \/ topk_le largest b a = true.
Proof.
  unfold topk_le. destruct largest; rewrite !Qle_bool_iff;
    destruct (Qlt_le_dec (snd a) (snd b)) as [H|H];
    auto using Qlt_le_weak.
Qed.

Lemma topk_le_trans (largest : bool) (a b c : nat * Q) :
  topk_le largest a b = true -> topk_le largest b c = true ->
  topk_le largest a c = true.
Proof.
  unfold topk_le. destruct largest; rewrite !Qle_bool_iff; intros; lra.
Qed.

Lemma enumerate_snd {A : Type} (l : list A) : map snd (enumerate l) = l.
Proof.
  unfold enumerate. generalize 0%nat. induction l as [|x l IH]; intros n; simpl.
  - reflexivity.
  - now rewrite IH.
Qed.

Lemma enumerate_fst {A : Type} (l : list A) : map fst (enumerate l) = seq 0 (length l).
Proof.
  unfold enumerate. generalize 0%nat. induction l as [|x l IH]; intros n; simpl.
  - reflexivity.
  - now rewrite IH.
Qed.

Lemma topk_ok (l : list Q) (k : Z) (largest : bool) :
  (0 <= k <= Z.of_nat (length l))%Z ->
  exists vals idx, topk l k largest = Ok (vals, idx) /\
    is_topk largest l (Z.to_nat k) vals /\
    length idx = Z.to_nat k /\ NoDup idx /\
    (forall i, In i idx -> (i < length l)%nat).
Proof.
  intros Hk. unfold topk.
  destruct (k <? 0)%Z eqn:E1; [apply Z.ltb_lt in E1; lia|].
  destruct (Z.of_nat (length l) <? k)%Z eqn:E2; [apply Z.ltb_lt in E2; lia|].
  simpl. set (s := sort_by (topk_le largest) (enumerate l)).
  assert (Hperm : Permutation s (enumerate l)) by apply sort_by_perm.
  assert (Hlen : length s = length l).
  { rewrite (Permutation_length Hperm). unfold enumerate.
    rewrite length_combine, length_seq. apply Nat.min_id. }
  exists (map snd (firstn (Z.to_nat k) s)), (map fst (firstn (Z.to_nat k) s)).
  split; [reflexivity|]. split; [|split; [|split]].
  - split.
    + rewrite length_map, length_firstn. lia.
    + exists (map snd (skipn (Z.to_nat k) s)). split.
      * rewrite <- map_app, firstn_skipn, <- (enumerate_snd l) at 1.
        apply Permutation_map, Permutation_sym, Hperm.
      * intros v w Hv Hw. apply in_map_iff in Hv, Hw.
        destruct Hv as [a [<- Ha]], Hw as [b [<- Hb]].
        pose proof (sorted_firstn_skipn (topk_le largest) s (Z.to_nat k)
                      (sort_by_sorted _ (topk_le_total largest)
                         (topk_le_trans largest) _) a b Ha Hb) as Hab.
        unfold topk_le in Hab. destruct largest; now apply Qle_bool_iff in Hab.
  - rewrite length_map, length_firstn. lia.
  - assert (Hnd : NoDup (map fst s)).
    { apply (Permutation_NoDup (l := map fst (enumerate l))).
      - apply Permutation_map, Permutation_sym, Hperm.
      - rewrite enumerate_fst. apply seq_NoDup. }
    rewrite <- (firstn_skipn (Z.to_nat k) s), map_app in Hnd.
    exact (NoDup_app_remove_r _ _ Hnd).
  - intros i Hi. apply in_map_iff in Hi. destruct Hi as [a [<- Ha]].
    apply (firstn_incl (Z.to_nat k) s) in Ha.
    assert (Hin : In (fst a) (map fst (enumerate l))).
    { apply (Permutation_in _ (Permutation_map fst Hperm)). now apply in_map. }
    rewrite enumerate_fst in Hin. apply in_seq in Hin. lia.
Qed.

Lemma topk_raises (l : list Q) (k : Z) (largest : bool) :
  (k < 0 \/ Z.of_nat (length l) < k)%Z -> topk l k largest = Raise RuntimeError.
Proof.
  intros Hk. unfold topk.
  destruct (k <? 0)%Z eqn:E1; [reflexivity|].
  destruct (Z.of_nat (length l) <? k)%Z eqn:E2; [reflexivity|].
  apply Z.ltb_ge in E1, E2. lia.
Qed.

(** ** [argmin] and [argmax] *)

Lemma argmin_spec (l : list Q) :
  l <> [] ->
  (argmin l < length l)%nat /\
  (forall i, (i < length l)%nat -> nth (argmin l) l 0 <= nth i l 0) /\
  (forall i, (i < argmin l)%nat -> nth (argmin l) l 0 < nth i l 0).
Proof.
  induction l as [|x l IH]; intros Hne; [congruence|].
  destruct l as [|y l'].
  - simpl. split; [lia|]. split.
    + intros i Hi. assert (i = 0)%nat by lia. subst. apply Qle_refl.
    + intros i Hi. lia.
  - destruct (IH ltac:(discriminate)) as [Hlt [Hmin Hfirst]].
    set (j := argmin (y :: l')) in *.
    change (argmin (x :: y :: l'))
      with (if Qle_bool x (nth j (y :: l') 0) then O else S j).
    destruct (Qle_bool x (nth j (y :: l') 0)) eqn:E.
    + apply Qle_bool_iff in E. split; [simpl; lia|]. split.
      * intros [|i] Hi; [apply Qle_refl|].
        change (x <= nth i (y :: l') 0). simpl in Hi.
        eapply Qle_trans; [exact E|]. apply Hmin. simpl. lia.
      * intros i Hi. lia.
    + assert (Hx : nth j (y :: l') 0 < x).
      { apply Qnot_le_lt. intro Hle. apply Qle_bool_iff in Hle. congruence. }
      split; [simpl in *; lia|]. split.
      * intros [|i] Hi.
        -- change (nth j (y :: l') 0 <= x). now apply Qlt_le_weak.
        -- change (nth j (y :: l') 0 <= nth i (y :: l') 0).
           apply Hmin. simpl in *. lia.
      * intros [|i] Hi.
        -- exact Hx.
        -- change (nth j (y :: l') 0 < nth i (y :: l') 0).
           apply Hfirst. lia.
Qed.

Lemma argmax_spec (l : list Q) :
  l <> [] ->
  (argmax l < length l)%nat /\
  (forall i, (i < length l)%nat -> nth i l 0 <= nth (argmax l) l 0) /\
  (forall i, (i < argmax l)%nat -> nth i l 0 < nth (argmax l) l 0).
Proof.
  induction l as [|x l IH]; intros Hne; [congruence|].
  destruct l as [|y l'].
  - simpl. split; [lia|]. split.
    + intros i Hi. assert (i = 0)%nat by lia. subst. apply Qle_refl.
    + intros i Hi. lia.
  - destruct (IH ltac:(discriminate)) as [Hlt [Hmax Hfirst]].
    set (j := argmax (y :: l')) in *.
    change (argmax (x :: y :: l'))
      with (if Qle_bool (nth j (y :: l') 0) x then O else S j).
    destruct (Qle_bool (nth j (y :: l') 0) x) eqn:E.
    + apply Qle_bool_iff in E. split; [simpl; lia|]. split.
      * intros [|i] Hi; [apply Qle_refl|].
        change (nth i (y :: l') 0 <= x). simpl in Hi.
        eapply Qle_trans; [|exact E]. apply Hmax. simpl. lia.
      * intros i Hi. lia.
    + assert (Hx : x < nth j (y :: l') 0).
      { apply Qnot_le_lt. intro Hle. apply Qle_bool_iff in Hle. congruence. }
      split; [simpl in *; lia|]. split.
      * intros [|i] Hi.
        -- change (x <= nth j (y :: l') 0). now apply Qlt_le_weak.
        -- change (nth i (y :: l') 0 <= nth j (y :: l') 0).
           apply Hmax. simpl in *. lia.
      * intros [|i] Hi.
        -- exact Hx.
        -- change (nth i (y :: l') 0 < nth j (y :: l') 0).
           apply Hfirst. lia.
Qed.

Lemma nth_map_seq {A : Type} (f : nat -> A) (n i : nat) (d : A) :
  (i < n)%nat -> nth i (map f (seq 0 n)) d = f i.
Proof.
  intros Hi.
  rewrite (nth_indep _ d (f 0%nat)) by (now rewrite length_map, length_seq).
  rewrite (map_nth f), seq_nth by assumption. reflexivity.
Qed.

Lemma col_length (m : matrix) (c : nat) : length (col m c) = dim0 m.
Proof. unfold col. now rewrite length_map, length_seq. Qed.

Lemma row_length (m : matrix) (r : nat) : length (row m r) = dim1 m.
Proof. unfold row. now rewrite length_map, length_seq. Qed.

Lemma col_nth (m : matrix) (c r : nat) :
  (r < dim0 m)%nat -> nth r (col m c) 0 = at2 m r c.
Proof. intros Hr. unfold col. now rewrite nth_map_seq. Qed.

Lemma row_nth (m : matrix) (r c : nat) :
  (c < dim1 m)%nat -> nth c (row m r) 0 = at2 m r c.
Proof. intros Hc. unfold row. now rewrite nth_map_seq. Qed.

(** ** The error monad *)

Lemma mapM_ok {A B : Type} (f : A -> res B) (P : A -> B -> Prop) (l : list A) :
  (forall x, In x l -> exists y, f x = Ok y /\ P x y) ->
  exists ys, mapM f l = Ok ys /\ Forall2 P l ys.
Proof.
  induction l as [|x l IH]; intros Hf; simpl.
  - exists []. split; [reflexivity|constructor].
  - destruct (Hf x (or_introl eq_refl)) as [y [Hy HP]].
    destruct IH as [ys [Hys HF]]; [intros z Hz; apply Hf; now right|].
    exists (y :: ys). rewrite Hy, Hys. split; [reflexivity|now constructor].
Qed.

Lemma Forall2_seq_nth {B : Type} (P : nat -> B -> Prop) (s n : nat)
      (ys : list B) (d : B) :
  Forall2 P (seq s n) ys ->
  length ys = n /\ forall i, (i < n)%nat -> P (s + i)%nat (nth i ys d).
Proof.
  intros HF. split.
  - apply Forall2_length in HF. now rewrite length_seq in HF.
  - revert s ys HF.
    induction n as [|n IH]; intros s ys HF i Hi; [lia|].
    simpl in HF. inversion HF as [|? y ? ys' Hy HF']; subst.
    destruct i as [|i]; simpl.
    + now rewrite Nat.add_0_r.
    + rewrite Nat.add_succ_r. apply (IH (S s) ys' HF' i). lia.
Qed.

(** ** Dynamic k *)

Lemma dynamic_ks_spec (top : nat) (iou : matrix) :
  exists ks, OTA.dynamic_ks top iou = Ok ks /\
    length ks = dim0 iou /\
    forall gt_idx, (gt_idx < dim0 iou)%nat ->
      exists top_k,
        is_topk true (row iou gt_idx) (Nat.min top (dim1 iou)) top_k /\
        nth gt_idx ks 0%Z = Z.max (Qtrunc (Qsum top_k)) 1.
Proof.
  unfold OTA.dynamic_ks.
  set (f := fun gt_idx : nat => _).
  destruct (mapM_ok f
              (fun gt_idx k => exists top_k,
                   is_topk true (row iou gt_idx) (Nat.min top (dim1 iou)) top_k /\
                   k = Z.max (Qtrunc (Qsum top_k)) 1)
              (seq 0 (dim0 iou))) as [ks [Hks HF]].
  - intros gt_idx _. subst f. cbv beta.
    destruct (topk_ok (row iou gt_idx) (Z.of_nat (Nat.min top (dim1 iou))) true)
      as [vals [idx [Htk [Hspec _]]]].
    { rewrite row_length. lia. }
    rewrite Htk. simpl. eexists. split; [reflexivity|].
    exists vals. rewrite Nat2Z.id in Hspec. now split.
  - exists ks. split; [exact Hks|].
    destruct (Forall2_seq_nth _ 0 (dim0 iou) ks 0%Z HF) as [Hlen Hnth].
    split; [exact Hlen|]. intros gt_idx Hgt. exact (Hnth gt_idx Hgt).
Qed.

Lemma is_topk_In (largest : bool) (l : list Q) (k : nat) (vals : list Q) (v : Q) :
  is_topk largest l k vals -> In v vals -> In v l.
Proof.
  intros [_ [rest [Hperm _]]] Hv.
  apply (Permutation_in _ (Permutation_sym Hperm)). apply in_or_app. now left.
Qed.

Lemma row_In (m : matrix) (r : nat) (v : Q) :
  In v (row m r) -> exists c, (c < dim1 m)%nat /\ v = at2 m r c.
Proof.
  unfold row. intros Hv. apply in_map_iff in Hv. destruct Hv as [c [<- Hc]].
  apply in_seq in Hc. exists c. split; [lia|reflexivity].
Qed.

(** With every IoU in [[0, 1]], a dynamic k lies between 1 and the number of
    candidates. *)
Lemma dynamic_ks_bounded (top : nat) (iou : matrix) (ks : list Z) :
  (0 < dim1 iou)%nat ->
  (forall r c, (r < dim0 iou)%nat -> (c < dim1 iou)%nat ->
               0 <= at2 iou r c /\ at2 iou r c <= 1) ->
  OTA.dynamic_ks top iou = Ok ks ->
  Forall (fun k => (1 <= k <= Z.of_nat (dim1 iou))%Z) ks.
Proof.
  intros Hn Hiou Hks.
  destruct (dynamic_ks_spec top iou) as [ks' [Hks' [Hlen Hnth]]].
  rewrite Hks in Hks'. injection Hks' as <-.
  apply Forall_forall. intros k Hk.
  destruct (In_nth ks k 0%Z Hk) as [gt_idx [Hgt <-]].
  rewrite Hlen in Hgt. destruct (Hnth gt_idx Hgt) as [top_k [Htk ->]].
  assert (Hbound : forall v, In v top_k -> 0 <= v /\ v <= 1).
  { intros v Hv. apply (is_topk_In _ _ _ _ _ Htk) in Hv.
    apply row_In in Hv. destruct Hv as [c [Hc ->]]. now apply Hiou. }
  assert (Hsum0 : 0 <= Qsum top_k) by (apply Qsum_nonneg; intros; now apply Hbound).
  assert (Hsum1 : Qsum top_k <= inject_Z (Z.of_nat (length top_k)))
    by (apply Qsum_le_length; intros; now apply Hbound).
  destruct Htk as [Hlen' _]. rewrite Hlen' in Hsum1.
  pose proof (Qtrunc_le_Z _ _ Hsum0 Hsum1). lia.
Qed.

(** ** The claim loop *)

Lemma claim_loop_ok (cost : matrix) (ks : list Z) (gt_idx : nat) (m : matrix) :
  Forall (fun k => (0 <= k <= Z.of_nat (dim1 cost))%Z) ks ->
  exists m', OTA.claim_loop cost ks gt_idx m = Ok m'.
Proof.
  intros HF. revert gt_idx m.
  induction HF as [|k ks Hk HF IH]; intros gt_idx m; simpl.
  - now exists m.
  - destruct (topk_ok (row cost gt_idx) k false) as [vals [idx [Htk _]]].
    { now rewrite row_length. }
    rewrite Htk. simpl. apply IH.
Qed.

Lemma claim_loop_inv (cost : matrix) (ks : list Z) (gt_idx : nat) (m m' : matrix) :
  OTA.claim_loop cost ks gt_idx m = Ok m' ->
  dim0 m' = dim0 m /\ dim1 m' = dim1 m /\ (binary m -> binary m').
Proof.
  revert gt_idx m. induction ks as [|k ks IH]; intros gt_idx m Hloop; simpl in Hloop.
  - injection Hloop as <-. auto.
  - destruct (topk (row cost gt_idx) k false) as [[vals idx]|e]; [|discriminate].
    simpl in Hloop. destruct (IH _ _ Hloop) as [H0 [H1 Hb]].
    simpl in H0, H1. split; [exact H0|]. split; [exact H1|].
    intros Hm. apply Hb. intros r c. simpl.
    destruct ((r =? gt_idx)%nat && existsb (Nat.eqb c) idx)%bool; [now right|apply Hm].
Qed.

(** The loop leaves the rows it does not visit as they were. *)
Lemma claim_loop_rows (cost : matrix) (ks : list Z) (gt_idx : nat) (m m' : matrix) :
  OTA.claim_loop cost ks gt_idx m = Ok m' ->
  forall r c,
    ((r < gt_idx)%nat \/ (gt_idx + length ks <= r)%nat -> at2 m' r c = at2 m r c).
Proof.
  revert gt_idx m. induction ks as [|k ks IH]; intros gt_idx m Hloop r c Hr;
    simpl in Hloop.
  - now injection Hloop as <-.
  - destruct (topk (row cost gt_idx) k false) as [[vals idx]|e]; [|discriminate].
    simpl in Hloop. rewrite (IH _ _ Hloop r c) by (simpl in Hr; lia).
    simpl. destruct (Nat.eqb_spec r gt_idx) as [->|Hne]; [simpl in Hr; lia|].
    reflexivity.
Qed.

(** ** Conflict resolution *)

Lemma resolve_dims (cost m : matrix) :
  dim0 (OTA.resolve_conflicts cost m) = dim0 m /\
  dim1 (OTA.resolve_conflicts cost m) = dim1 m.
Proof.
  unfold OTA.resolve_conflicts.
  destruct (existsb _ _); simpl; auto.
Qed.

Lemma resolve_at (cost m : matrix) (r c : nat) :
  (c < dim1 m)%nat ->
  at2 (OTA.resolve_conflicts cost m) r c ==
  if OTA.conflicted m c
  then (if (r =? argmin (col cost c))%nat then 1 else 0)
  else at2 m r c.
Proof.
  intros Hc. unfold OTA.resolve_conflicts.
  destruct (existsb (OTA.conflicted m) (seq 0 (dim1 m))) eqn:E.
  - simpl. destruct (OTA.conflicted m c); simpl.
    + destruct (r =? argmin (col cost c))%nat; [reflexivity|ring].
    + reflexivity.
  - destruct (OTA.conflicted m c) eqn:Ec; [|reflexivity].
    assert (existsb (OTA.conflicted m) (seq 0 (dim1 m)) = true).
    { apply existsb_exists. exists c. split; [apply in_seq; lia|exact Ec]. }
    congruence.
Qed.

Lemma resolve_column_sum (cost m : matrix) (c : nat) :
  (c < dim1 m)%nat ->
  OTA.anchor_matching_gt (OTA.resolve_conflicts cost m) c <= 1.
Proof.
  intros Hc. unfold OTA.anchor_matching_gt, col.
  rewrite (proj1 (resolve_dims cost m)).
  rewrite (Qsum_map_ext _ _ _ (fun r _ => resolve_at cost m r c Hc)).
  destruct (OTA.conflicted m c) eqn:Ec.
  - rewrite Qsum_indicator by apply seq_NoDup.
    destruct (existsb _ _); lra.
  - unfold OTA.conflicted in Ec. apply Qltb_ge in Ec. exact Ec.
Qed.

Lemma binary_nonneg (m : matrix) (r c : nat) : binary m -> 0 <= at2 m r c.
Proof. intros Hb. destruct (Hb r c) as [-> | ->]; lra. Qed.

Lemma two_claims_conflict (m : matrix) (c r1 r2 : nat) :
  binary m -> (r1 < dim0 m)%nat -> (r2 < dim0 m)%nat -> r1 <> r2 ->
  at2 m r1 c == 1 -> at2 m r2 c == 1 -> OTA.conflicted m c = true.
Proof.
  intros Hb H1 H2 Hne E1 E2. unfold OTA.conflicted. apply Qltb_lt.
  unfold OTA.anchor_matching_gt, col.
  pose proof (Qsum_ge_two_members (fun r => at2 m r c) (seq 0 (dim0 m)) r1 r2
                (fun r => binary_nonneg m r c Hb) (seq_NoDup _ _)
                ltac:(apply in_seq; lia) ltac:(apply in_seq; lia) Hne) as Hsum.
  cbv beta in Hsum. lra.
Qed.

Lemma resolve_binary (cost m : matrix) (r c : nat) :
  binary m -> (c < dim1 m)%nat ->
  at2 (OTA.resolve_conflicts cost m) r c == 0 \/
  at2 (OTA.resolve_conflicts cost m) r c == 1.
Proof.
  intros Hb Hc. rewrite (resolve_at cost m r c Hc).
  destruct (OTA.conflicted m c).
  - destruct (r =? argmin (col cost c))%nat; [right|left]; reflexivity.
  - destruct (Hb r c) as [-> | ->]; [left|right]; reflexivity.
Qed.

Lemma Qsum_pos_exists {A : Type} (f : A -> Q) (l : list A) :
  0 < Qsum (map f l) -> exists x, In x l /\ 0 < f x.
Proof.
  induction l as [|x l IH]; simpl; intros Hs.
  - lra.
  - destruct (Qlt_le_dec 0 (f x)) as [Hx|Hx].
    + exists x. auto.
    + destruct IH as [y [Hy Hfy]]; [lra|]. exists y. auto.
Qed.

(** A surviving candidate is matched to the one ground truth holding it. *)
Lemma matched_gt_unique (cost m : matrix) (c : nat) :
  binary m -> (c < dim1 m)%nat ->
  OTA.fg_mask_inboxes (OTA.resolve_conflicts cost m) c = true ->
  let m' := OTA.resolve_conflicts cost m in
  let r := argmax (col m' c) in
  (r < dim0 m)%nat /\ at2 m' r c == 1 /\
  forall r', (r' < dim0 m)%nat -> r' <> r -> at2 m' r' c == 0.
Proof.
  intros Hb Hc Hfg m' r.
  destruct (resolve_dims cost m) as [Hd0 Hd1]. fold m' in Hd0, Hd1.
  assert (Hbin : forall x, at2 m' x c == 0 \/ at2 m' x c == 1)
    by (intros x; now apply resolve_binary).
  assert (Hnn : forall x, 0 <= at2 m' x c)
    by (intros x; destruct (Hbin x) as [E|E]; rewrite E; lra).
  unfold OTA.fg_mask_inboxes in Hfg. apply Qltb_lt in Hfg.
  unfold OTA.anchor_matching_gt, col in Hfg. fold m' in Hfg.
  destruct (Qsum_pos_exists _ _ Hfg) as [r0 [Hr0 Hpos]].
  apply in_seq in Hr0.
  assert (Hne : col m' c <> []).
  { intro E. pose proof (col_length m' c) as Hl. rewrite E in Hl. simpl in Hl. lia. }
  destruct (argmax_spec (col m' c) Hne) as [Hlt [Hmax _]].
  rewrite col_length in Hlt, Hmax. fold r in Hlt, Hmax.
  assert (Hr1 : at2 m' r c == 1).
  { specialize (Hmax r0 ltac:(lia)). rewrite !col_nth in Hmax by lia.
    destruct (Hbin r) as [E|E]; [|exact E].
    destruct (Hbin r0) as [E0|E0]; rewrite E0 in Hpos; rewrite E in Hmax; lra. }
  split; [lia|]. split; [exact Hr1|].
  intros r' Hr' Hneq. destruct (Hbin r') as [E|E]; [exact E|].
  exfalso.
  pose proof (Qsum_ge_two_members (fun x => at2 m' x c) (seq 0 (dim0 m')) r r'
                Hnn (seq_NoDup _ _)
                ltac:(apply in_seq; lia) ltac:(apply in_seq; lia)
                ltac:(congruence)) as Hsum.
  cbv beta in Hsum.
  pose proof (resolve_column_sum cost m c Hc) as Hle.
  unfold OTA.anchor_matching_gt, col in Hle. fold m' in Hle. lra.
Qed.

(** A candidate claimed twice goes to the first ground truth of least cost. *)
Lemma resolve_reassigns (cost m : matrix) (c r1 r2 : nat) :
  binary m -> dim0 cost = dim0 m -> (c < dim1 m)%nat ->
  (r1 < dim0 m)%nat -> (r2 < dim0 m)%nat -> r1 <> r2 ->
  at2 m r1 c == 1 -> at2 m r2 c == 1 ->
  let best := argmin (col cost c) in
  (best < dim0 m)%nat /\
  (forall r, (r < dim0 m)%nat -> at2 cost best c <= at2 cost r c) /\
  (forall r, (r < best)%nat -> at2 cost best c < at2 cost r c) /\
  (forall r, at2 (OTA.resolve_conflicts cost m) r c ==
             if (r =? best)%nat then 1 else 0).
Proof.
  intros Hb Hdim Hc H1 H2 Hne E1 E2 best.
  assert (Hcol : col cost c <> []).
  { intro E. pose proof (col_length cost c) as Hl. rewrite E in Hl. simpl in Hl. lia. }
  destruct (argmin_spec (col cost c) Hcol) as [Hlt [Hmin Hfirst]].
  rewrite col_length in Hlt, Hmin. fold best in Hlt, Hmin, Hfirst.
  split; [lia|]. split; [|split].
  - intros r Hr. specialize (Hmin r ltac:(lia)).
    now rewrite !col_nth in Hmin by lia.
  - intros r Hr. specialize (Hfirst r Hr).
    now rewrite !col_nth in Hfirst by lia.
  - intros r. rewrite (resolve_at cost m r c Hc).
    now rewrite (two_claims_conflict m c r1 r2 Hb H1 H2 Hne E1 E2).
Qed.

Section Assignment.
Context `{Kernels}.

Lemma assign_inv (top : nat) (iou : matrix) (cls : nat -> nat -> Q)
      (a : OTA.assignment) :
  OTA.assign top iou cls = Ok (Some a) ->
  let cost := OTA.cost_matrix cls (OTA.pair_wise_iou_loss iou) in
  (0 < dim0 iou)%nat /\ (0 < dim1 iou)%nat /\
  exists ks m,
    OTA.dynamic_ks top iou = Ok ks /\
    OTA.claim_loop cost ks 0 (zeros_like cost) = Ok m /\
    a = OTA.finish cost m /\
    dim0 m = dim0 iou /\ dim1 m = dim1 iou /\ binary m.
Proof.
  intros Ha cost. unfold OTA.assign in Ha.
  destruct (Nat.eqb_spec (dim0 iou) 0); [discriminate|].
  destruct (Nat.eqb_spec (dim1 iou) 0); [discriminate|].
  destruct (OTA.dynamic_ks top iou) as [ks|e]; [|discriminate].
  simpl in Ha. fold cost in Ha.
  destruct (OTA.claim_loop cost ks 0 (zeros_like cost)) as [m|e] eqn:Hm;
    [|discriminate].
  simpl in Ha. injection Ha as <-.
  split; [lia|]. split; [lia|]. exists ks, m.
  destruct (claim_loop_inv _ _ _ _ _ Hm) as [H0 [H1 Hb]].
  repeat split; auto. apply Hb. intros r c. now left.
Qed.

Lemma assign_resolution (top : nat) (iou : matrix) (cls : nat -> nat -> Q)
      (a : OTA.assignment) :
  OTA.assign top iou cls = Ok (Some a) ->
  let cost := OTA.cost_matrix cls (OTA.pair_wise_iou_loss iou) in
  let m' := OTA.matching_matrix a in
  exists ks m,
    OTA.dynamic_ks top iou = Ok ks /\
    OTA.claim_loop cost ks 0 (zeros_like cost) = Ok m /\
    a = OTA.finish cost m /\
    (forall c, (c < dim1 iou)%nat -> OTA.anchor_matching_gt m' c <= 1) /\
    (forall c r1 r2,
        (c < dim1 iou)%nat -> (r1 < dim0 iou)%nat -> (r2 < dim0 iou)%nat ->
        r1 <> r2 -> at2 m r1 c == 1 -> at2 m r2 c == 1 ->
        let best := argmin (col cost c) in
        (best < dim0 iou)%nat /\
        (forall r, (r < dim0 iou)%nat -> at2 cost best c <= at2 cost r c) /\
        (forall r, (r < best)%nat -> at2 cost best c < at2 cost r c) /\
        (forall r, at2 m' r c == if (r =? best)%nat then 1 else 0)) /\
    (length (OTA.matched_gt_inds a) = length (OTA.fg_candidates a) /\
     forall i, (i < length (OTA.fg_candidates a))%nat ->
        let c := nth i (OTA.fg_candidates a) 0%nat in
        let r := nth i (OTA.matched_gt_inds a) 0%nat in
        (c < dim1 iou)%nat /\ (r < dim0 iou)%nat /\ at2 m' r c == 1 /\
        forall r', (r' < dim0 iou)%nat -> r' <> r -> at2 m' r' c == 0).
Proof.
  intros Ha cost m'.
  destruct (assign_inv top iou cls a Ha) as [Hd0 [Hd1 [ks [m [Hks [Hm [Hfin [H0 [H1 Hb]]]]]]]]].
  fold cost in Hm, Hfin.
  exists ks, m. split; [exact Hks|]. split; [exact Hm|]. split; [exact Hfin|].
  assert (Hm' : m' = OTA.resolve_conflicts cost m) by (unfold m'; now rewrite Hfin).
  split; [|split].
  - intros c Hc. rewrite Hm'. apply resolve_column_sum. lia.
  - intros c r1 r2 Hc Hr1 Hr2 Hne E1 E2 best. rewrite Hm'.
    rewrite <- H0 in *. rewrite <- H1 in Hc.
    apply (resolve_reassigns cost m c r1 r2); auto.
  - rewrite Hfin. simpl OTA.fg_candidates. simpl OTA.matched_gt_inds.
    split; [apply length_map|]. intros i Hi c r.
    set (fg := filter _ _) in *.
    assert (Hin : In c fg) by (apply nth_In; exact Hi).
    apply filter_In in Hin. destruct Hin as [Hseq Hfg]. apply in_seq in Hseq.
    rewrite (proj2 (resolve_dims cost m)) in Hseq.
    assert (Hr : r = argmax (col (OTA.resolve_conflicts cost m) c)).
    { unfold r.
      rewrite (nth_indep _ 0%nat
                 ((fun c => argmax (col (OTA.resolve_conflicts cost m) c)) 0%nat))
        by (rewrite length_map; exact Hi).
      now rewrite (map_nth (fun c => argmax (col (OTA.resolve_conflicts cost m) c))). }
    destruct (matched_gt_unique cost m c Hb ltac:(lia) Hfg) as [Hlt [Hone Hzero]].
    rewrite Hm', Hr, <- H0, <- H1. repeat split; auto; lia.
Qed.
End Assignment.

(** ** The static builder *)

Lemma enumerate_In {A : Type} (l : list A) (i : nat) (x : A) :
  In (i, x) (enumerate l) <-> nth_error l i = Some x.
Proof.
  unfold enumerate.
  assert (Hgen : forall s, In (i, x) (combine (seq s (length l)) l) <->
                           (s <= i)%nat /\ nth_error l (i - s) = Some x).
  { induction l as [|y l IH]; intros s; simpl.
    - split; [tauto|]. intros [_ Hn]. destruct (i - s)%nat; discriminate.
    - rewrite IH. split.
      + intros [Heq | [Hle Hn]].
        * injection Heq as <- <-. split; [lia|]. now rewrite Nat.sub_diag.
        * split; [lia|]. replace (i - s)%nat with (S (i - S s)) by lia. exact Hn.
      + intros [Hle Hn]. destruct (Nat.eq_dec s i) as [->|Hne].
        * left. rewrite Nat.sub_diag in Hn. simpl in Hn. now injection Hn as ->.
        * right. split; [lia|].
          replace (i - s)%nat with (S (i - S s)) in Hn by lia. exact Hn. }
  rewrite Hgen, Nat.sub_0_r. split; [tauto|]. intros Hn. split; [lia|exact Hn].
Qed.

(** Where a row of the gated tensor comes from. *)
Lemma gate_In (anchor_t : Q) (anchors : nat -> Q * Q) (stride : Q) (na : nat)
      (targets : list target) (r : Static.arow) :
  In r (Static.gate anchor_t anchors
          (Static.scale_rows stride (Static.repeat_targets na targets))) ->
  exists t,
    nth_error targets (Static.a_gt r) = Some t /\
    (Static.a_anchor r < na)%nat /\
    Static.a_t r = Static.scale stride t /\
    Static.shape_ok anchor_t (anchors (Static.a_anchor r)) (Static.scale stride t) = true.
Proof.
  unfold Static.gate, Static.scale_rows, Static.repeat_targets. intros Hr.
  apply in_flat_map in Hr. destruct Hr as [rows [Hrows Hr]].
  apply filter_In in Hr. destruct Hr as [Hr Hok].
  apply in_map_iff in Hrows. destruct Hrows as [rows0 [<- Hrows0]].
  apply in_map_iff in Hrows0. destruct Hrows0 as [a [<- Ha]].
  apply in_seq in Ha.
  apply in_map_iff in Hr. destruct Hr as [r0 [<- Hr0]].
  apply in_map_iff in Hr0. destruct Hr0 as [[g t] [<- Hgt]].
  apply enumerate_In in Hgt. simpl in *.
  exists t. repeat split; auto. lia.
Qed.

Lemma expand_In (g : Q) (w h : nat) (t : list Static.arow)
      (e : Static.arow * nat * (Q * Q)) :
  In e (Static.expand g w h t) ->
  In (fst (fst e)) t /\ (snd (fst e) < 5)%nat /\
  nth (snd (fst e)) (Static.selects g w h (Static.a_t (fst (fst e)))) false = true /\
  snd e = nth (snd (fst e)) (Static.off g) (0, 0).
Proof.
  unfold Static.expand. intros He.
  apply in_flat_map in He. destruct He as [k [Hk He]].
  apply in_seq in Hk.
  apply in_map_iff in He. destruct He as [r [<- Hr]].
  apply filter_In in Hr. destruct Hr as [Hr Hsel]. simpl.
  repeat split; auto. lia.
Qed.

Lemma define_fields (clamped : bool) (anchors : nat -> Q * Q) (w h : nat)
      (r : Static.arow) (k : nat) (o : Q * Q) :
  c_gt (Static.define clamped anchors w h (r, k, o)) = Static.a_gt r /\
  c_a (Static.define clamped anchors w h (r, k, o)) = Static.a_anchor r /\
  c_off (Static.define clamped anchors w h (r, k, o)) = k.
Proof. destruct o as [ox oy]. simpl. auto. Qed.

(** Every candidate of a layer stems from a ground truth and an anchor that
    pass the gate. *)
Lemma layer_In (g : Q) (clamped : bool) (anchor_t : Q) (na : nat)
      (anchors : nat -> Q * Q) (stride : Q) (w h : nat) (targets : list target)
      (out : list candidate) (c : candidate) :
  Static.layer g clamped anchor_t na anchors stride w h targets = Ok out ->
  In c out ->
  exists t,
    nth_error targets (c_gt c) = Some t /\ (c_a c < na)%nat /\
    Static.shape_ok anchor_t (anchors (c_a c)) (Static.scale stride t) = true.
Proof.
  unfold Static.layer. intros Hout Hc.
  destruct (length targets =? 0)%nat eqn:E; simpl in Hout.
  - apply Nat.eqb_eq in E. apply length_zero_iff_nil in E. subst targets.
    unfold Static.repeat_targets in Hout.
    destruct na as [|na']; simpl in Hout; [discriminate|].
    injection Hout as <-. destruct Hc.
  - injection Hout as <-.
    apply in_map_iff in Hc. destruct Hc as [[[r k] o] [<- He]].
    apply expand_In in He. simpl in He. destruct He as [Hr _].
    apply gate_In in Hr. destruct Hr as [t [Ht [Ha [_ Hok]]]].
    destruct (define_fields clamped anchors w h r k o) as [-> [-> _]].
    exists t. auto.
Qed.

Lemma mapM_ext {A B : Type} (f g : A -> res B) (l : list A) :
  (forall x, f x = g x) -> mapM f l = mapM g l.
Proof.
  intros Hfg. induction l as [|x l IH]; simpl; [reflexivity|].
  now rewrite Hfg, IH.
Qed.

Lemma mapM_pure {A B : Type} (g : A -> B) (l : list A) :
  mapM (fun x => Ok (g x)) l = Ok (map g l).
Proof.
  induction l as [|x l IH]; simpl; [reflexivity|]. now rewrite IH.
Qed.

Lemma mapM_nth {A B : Type} (f : A -> res B) (l : list A) (ys : list B)
      (i : nat) (x : A) :
  mapM f l = Ok ys -> nth_error l i = Some x ->
  exists y, nth_error ys i = Some y /\ f x = Ok y.
Proof.
  revert ys i. induction l as [|x0 l IH]; intros ys i Hm Hi.
  - destruct i; discriminate.
  - simpl in Hm. destruct (f x0) as [y0|e] eqn:E0; [|discriminate].
    simpl in Hm. destruct (mapM f l) as [ys'|e]; [|discriminate].
    simpl in Hm. injection Hm as <-.
    destruct i as [|i]; simpl in *.
    + injection Hi as <-. exists y0. auto.
    + exact (IH ys' i eq_refl Hi).
Qed.

Lemma mapM_length {A B : Type} (f : A -> res B) (l : list A) (ys : list B) :
  mapM f l = Ok ys -> length ys = length l.
Proof.
  revert ys. induction l as [|x l IH]; intros ys Hm; simpl in Hm.
  - now injection Hm as <-.
  - destruct (f x); [|discriminate]. simpl in Hm.
    destruct (mapM f l) as [ys'|e]; [|discriminate]. simpl in Hm.
    injection Hm as <-. simpl. now rewrite (IH ys' eq_refl).
Qed.

Lemma build_layer (g : Q) (clamped : bool) (hyp : Hyp.t) (det : Detect.t)
      (p : list pred_layer) (targets : list target)
      (built : list (list candidate)) (i : nat) :
  Static.build g clamped hyp det p targets = Ok built ->
  (i < Detect.nl det)%nat ->
  exists pi cands,
    nth_error p i = Some pi /\ nth_error built i = Some cands /\
    Static.layer g clamped (Hyp.anchor_t hyp) (Detect.na det) (Detect.anchors det i)
                 (Detect.stride det i) (p_w pi) (p_h pi) targets = Ok cands.
Proof.
  unfold Static.build. intros Hb Hi.
  assert (Hnth : nth_error (seq 0 (Detect.nl det)) i = Some i).
  { rewrite nth_error_nth' with (d := 0%nat) by (now rewrite length_seq).
    now rewrite seq_nth. }
  destruct (mapM_nth _ _ _ _ _ Hb Hnth) as [cands [Hc Hf]].
  unfold lookup in Hf. destruct (nth_error p i) as [pi|]; [|discriminate].
  simpl in Hf. exists pi, cands. auto.
Qed.

(** *** Counting the candidates of one (ground truth, anchor) pair *)

Lemma filter_flat_map {A B : Type} (P : B -> bool) (f : A -> list B) (l : list A) :
  filter P (flat_map f l) = flat_map (fun x => filter P (f x)) l.
Proof.
  induction l as [|x l IH]; simpl.
  - reflexivity.
  - now rewrite filter_app, IH.
Qed.

Lemma filter_map_comm {A B : Type} (P : B -> bool) (f : A -> B) (l : list A) :
  filter P (map f l) = map f (filter (fun x => P (f x)) l).
Proof.
  induction l as [|x l IH]; simpl.
  - reflexivity.
  - destruct (P (f x)); simpl; now rewrite IH.
Qed.

Lemma filter_filter_comm {A : Type} (P R : A -> bool) (l : list A) :
  filter P (filter R l) = filter R (filter P l).
Proof.
  induction l as [|x l IH]; simpl.
  - reflexivity.
  - destruct (R x) eqn:ER, (P x) eqn:EP; simpl; rewrite ?ER, ?EP, IH; reflexivity.
Qed.

Lemma flat_map_of_map {A B C : Type} (f : B -> list C) (h : A -> B) (l : list A) :
  flat_map f (map h l) = flat_map (fun x => f (h x)) l.
Proof.
  induction l as [|x l IH]; simpl.
  - reflexivity.
  - now rewrite IH.
Qed.

Lemma filter_none {A : Type} (P : A -> bool) (l : list A) :
  (forall x, In x l -> P x = false) -> filter P l = [].
Proof.
  induction l as [|x l IH]; intros Hl; simpl.
  - reflexivity.
  - rewrite (Hl x (or_introl eq_refl)). apply IH. intros y Hy. apply Hl. now right.
Qed.

Lemma flat_map_nil {A B : Type} (f : A -> list B) (l : list A) :
  (forall x, In x l -> f x = []) -> flat_map f l = [].
Proof.
  induction l as [|x l IH]; intros Hf; simpl.
  - reflexivity.
  - rewrite (Hf x (or_introl eq_refl)). apply IH. intros y Hy. apply Hf. now right.
Qed.

Lemma flat_map_single {A B : Type} (f : A -> list B) (l : list A) (a : A) :
  NoDup l -> In a l -> (forall x, In x l -> x <> a -> f x = []) ->
  flat_map f l = f a.
Proof.
  induction l as [|x l IH]; intros Hnd Ha Hf; [destruct Ha|].
  inversion Hnd as [|? ? Hx Hnd']; subst. simpl.
  destruct Ha as [->|Ha].
  - rewrite flat_map_nil; [apply app_nil_r|].
    intros y Hy. apply Hf; [now right|]. intros ->. contradiction.
  - rewrite (Hf x (or_introl eq_refl)) by (intros ->; contradiction).
    simpl. apply IH; auto. intros y Hy. apply Hf. now right.
Qed.

Lemma flat_map_if {A B : Type} (P : A -> bool) (f : A -> B) (l : list A) :
  flat_map (fun k => if P k then [f k] else []) l = map f (filter P l).
Proof.
  induction l as [|x l IH]; simpl.
  - reflexivity.
  - destruct (P x); simpl; now rewrite IH.
Qed.

Lemma enumerate_filter {A : Type} (l : list A) (i : nat) (x : A) :
  nth_error l i = Some x ->
  filter (fun gt => (fst gt =? i)%nat) (enumerate l) = [(i, x)].
Proof.
  unfold enumerate.
  assert (Hgen : forall s j, nth_error l j = Some x ->
            filter (fun gt => (fst gt =? s + j)%nat) (combine (seq s (length l)) l)
            = [((s + j)%nat, x)]).
  { induction l as [|y l IH]; intros s j Hj.
    - destruct j; discriminate.
    - simpl. destruct j as [|j]; simpl in Hj.
      + injection Hj as ->. rewrite Nat.add_0_r, Nat.eqb_refl. f_equal.
        apply filter_none. intros [k z] Hk. simpl.
        apply in_combine_l in Hk. apply in_seq in Hk.
        apply Nat.eqb_neq. lia.
      + destruct (Nat.eqb_spec s (s + S j)) as [Heq|_]; [lia|].
        replace (s + S j)%nat with (S s + j)%nat by lia. now apply IH. }
  intros Hi. exact (Hgen 0%nat i Hi).
Qed.

Lemma gate_pair (anchor_t : Q) (anchors : nat -> Q * Q) (stride : Q) (na : nat)
      (targets : list target) (gt a : nat) (t : target) :
  nth_error targets gt = Some t -> (a < na)%nat ->
  filter (fun r => ((Static.a_gt r =? gt) && (Static.a_anchor r =? a))%nat)
         (Static.gate anchor_t anchors
            (Static.scale_rows stride (Static.repeat_targets na targets)))
  = if Static.shape_ok anchor_t (anchors a) (Static.scale stride t)
    then [pair_row stride gt a t] else [].
Proof.
  intros Ht Ha.
  unfold Static.gate, Static.scale_rows, Static.repeat_targets.
  rewrite !flat_map_of_map, filter_flat_map.
  rewrite (flat_map_single _ (seq 0 na) a (seq_NoDup _ _)).
  - rewrite filter_filter_comm, map_map, filter_map_comm. cbn [Static.a_gt Static.a_anchor].
    rewrite (filter_ext _ (fun gt0 : nat * target => (fst gt0 =? gt)%nat))
      by (intros x; rewrite Nat.eqb_refl; apply andb_true_r).
    rewrite (enumerate_filter _ _ _ Ht). simpl. reflexivity.
  - apply in_seq. lia.
  - intros a' _ Hne. apply filter_none. intros r Hr.
    apply filter_In in Hr. destruct Hr as [Hr _].
    rewrite map_map in Hr. apply in_map_iff in Hr. destruct Hr as [x [<- _]].
    simpl. destruct (Nat.eqb_spec a' a); [contradiction|]. apply andb_false_r.
Qed.

(** The candidates of a layer that stem from ground truth [gt] and anchor
    [a]: one per selected row of [off], in the order of [off]; none when
    the pair fails the gate. *)
Lemma layer_pair (g : Q) (clamped : bool) (anchor_t : Q) (na : nat)
      (anchors : nat -> Q * Q) (stride : Q) (w h : nat) (targets : list target)
      (gt a : nat) (t : target) :
  nth_error targets gt = Some t -> (a < na)%nat ->
  exists out,
    Static.layer g clamped anchor_t na anchors stride w h targets = Ok out /\
    filter (Static.from_pair gt a) out =
    if Static.shape_ok anchor_t (anchors a) (Static.scale stride t)
    then map (fun k => Static.define clamped anchors w h
                         (pair_row stride gt a t, k, nth k (Static.off g) (0, 0)))
             (filter (fun k => nth k (Static.selects g w h (Static.scale stride t)) false)
                     (seq 0 5))
    else [].
Proof.
  intros Ht Ha. unfold Static.layer.
  destruct (length targets =? 0)%nat eqn:E.
  { apply Nat.eqb_eq, length_zero_iff_nil in E. subst. destruct gt; discriminate. }
  simpl. eexists. split; [reflexivity|].
  rewrite filter_map_comm.
  rewrite (filter_ext _ (fun e : Static.arow * nat * (Q * Q) =>
             ((Static.a_gt (fst (fst e)) =? gt)
              && (Static.a_anchor (fst (fst e)) =? a))%nat))
    by (intros [[r k] [ox oy]]; reflexivity).
  unfold Static.expand. rewrite filter_flat_map.
  rewrite (flat_map_ext _
             (fun k => if Static.shape_ok anchor_t (anchors a) (Static.scale stride t)
                          && nth k (Static.selects g w h (Static.scale stride t)) false
                       then [(pair_row stride gt a t, k, nth k (Static.off g) (0, 0))]
                       else [])).
  - destruct (Static.shape_ok anchor_t (anchors a) (Static.scale stride t));
      cbn [andb].
    + now rewrite flat_map_if, map_map.
    + rewrite flat_map_nil; reflexivity.
  - intros k. rewrite filter_map_comm. cbn [fst snd].
    rewrite filter_filter_comm, (gate_pair _ _ _ _ _ _ _ _ Ht Ha).
    destruct (Static.shape_ok anchor_t (anchors a) (Static.scale stride t));
      cbn [filter andb map]; [|reflexivity].
    change (Static.a_t (pair_row stride gt a t)) with (Static.scale stride t).
    destruct (nth k (Static.selects g w h (Static.scale stride t)) false); reflexivity.
Qed.

(** ** Criteria *)

Lemma map2_length {A B C : Type} (f : A -> B -> C) (l1 : list A) (l2 : list B) :
  length (map2 f l1 l2) = Nat.min (length l1) (length l2).
Proof.
  revert l2. induction l1 as [|x l1 IH]; intros [|y l2]; simpl; auto.
Qed.

Section CriteriaFacts.
Context `{Kernels}.

(** A criterion made by [__init__] reduces to a scalar. *)
Lemma criteria_scalar (h : Hyp.t) (c : criterion) (pred true_ : list Q) :
  (let '(c1, c2, c3) := ComputeLoss.criteria h in c = c1 \/ c = c2 \/ c = c3) ->
  length pred = length true_ ->
  exists q, criterion_forward c pred true_ = Ok (Scalar q).
Proof.
  unfold ComputeLoss.criteria. intros Hc Hlen.
  destruct (Qltb 0 (Hyp.fl_gamma h));
    destruct Hc as [-> | [-> | ->]]; simpl;
    unfold FocalLoss.forward, BCEWithLogitsLoss.forward; simpl;
    rewrite Hlen, Nat.eqb_refl; simpl; eexists; reflexivity.
Qed.

Lemma built_by_init_criteria (self : ComputeLoss.t) :
  ComputeLoss.built_by_init self ->
  (ComputeLoss.BCEcls self, ComputeLoss.BCEobj self, ComputeLoss.BCEtheta self)
  = ComputeLoss.criteria (ComputeLoss.hyp self).
Proof.
  intros [h [d [ab [self0 [Hinit Hself]]]]]. rewrite Hself. simpl.
  unfold ComputeLoss.init in Hinit.
  destruct (smooth_BCE _) as [cp cn].
  destruct (ComputeLoss.criteria h) as [[c1 c2] c3] eqn:Ec.
  destruct (if ab then ComputeLoss.stride_index d else Ok 0%nat) as [ssi|e];
    [|discriminate].
  simpl in Hinit. injection Hinit as <-. simpl. now rewrite Ec.
Qed.

Lemma objectness_total (self : ComputeLoss.t) (pi : pred_layer) (tobj : position -> Q) :
  ComputeLoss.built_by_init self ->
  exists o, ComputeLoss.objectness self pi tobj = Ok o.
Proof.
  intros Hb. apply built_by_init_criteria in Hb.
  unfold ComputeLoss.objectness.
  destruct (criteria_scalar (ComputeLoss.hyp self) (ComputeLoss.BCEobj self)
              (ComputeLoss.obj_logits pi) (map tobj (positions pi))) as [q Hq].
  - rewrite <- Hb. auto.
  - unfold ComputeLoss.obj_logits. now rewrite !length_map.
  - rewrite Hq. simpl. now exists q.
Qed.
End CriteriaFacts.

(** ** The loop over the layers *)

Lemma set_nth_length {A : Type} (i : nat) (x : A) (l : list A) :
  length (set_nth i x l) = length l.
Proof.
  revert i. induction l as [|y l IH]; intros [|i]; simpl; auto.
Qed.

Lemma set_nth_same {A : Type} (i : nat) (x d : A) (l : list A) :
  (i < length l)%nat -> nth i (set_nth i x l) d = x.
Proof.
  revert i. induction l as [|y l IH]; intros [|i] Hi; simpl in *; try lia; auto.
  apply IH. lia.
Qed.

Lemma set_nth_other {A : Type} (i j : nat) (x d : A) (l : list A) :
  i <> j -> nth j (set_nth i x l) d = nth j l d.
Proof.
  revert i j. induction l as [|y l IH]; intros [|i] [|j] Hij; simpl; auto; try lia.
Qed.

Lemma set_nth_skipn {A : Type} (i : nat) (x : A) (l : list A) :
  skipn (S i) (set_nth i x l) = skipn (S i) l.
Proof.
  revert i. induction l as [|y l IH]; intros [|i]; simpl; auto.
  apply (IH i).
Qed.

Lemma set_nth_Forall {A : Type} (P : A -> Prop) (i : nat) (x : A) (l : list A) :
  Forall P l -> P x -> Forall P (set_nth i x l).
Proof.
  intros Hl Hx. revert i. induction Hl as [|y l Hy Hl IH]; intros [|i]; simpl; auto.
Qed.

Lemma skipn_nth_error {A : Type} (i : nat) (l : list A) (x : A) :
  nth_error l i = Some x -> skipn i l = x :: skipn (S i) l.
Proof.
  revert i. induction l as [|y l IH]; intros [|i] Hi; simpl in *; try discriminate.
  - now injection Hi as ->.
  - now apply IH.
Qed.

Lemma last_cons_default {A : Type} (l : list A) (x d : A) :
  last (x :: l) d = last l x.
Proof.
  revert x d. induction l as [|y l IH]; intros x d; [reflexivity|].
  change (last (x :: y :: l) d) with (last (y :: l) d).
  now rewrite (IH y d), (IH y x).
Qed.

Lemma lookup_Ok {A : Type} (l : list A) (i : nat) (x : A) :
  lookup l i = Ok x <-> nth_error l i = Some x.
Proof.
  unfold lookup. destruct (nth_error l i); split; intros E;
    try discriminate; injection E as ->; reflexivity.
Qed.

Section LoopFacts.
Context `{Kernels}.
Variable self : ComputeLoss.t.
Variable built : list (list candidate).

Lemma terms_shape0 (pi : pred_layer) (cands : list candidate)
      (lt : ComputeLoss.layer_terms) :
  ComputeLoss.terms self pi cands = Ok lt -> ComputeLoss.tobj_shape0 lt = p_bs pi.
Proof.
  unfold ComputeLoss.terms. intros Ht.
  destruct (if negb (length cands =? 0)%nat then _ else _) as [[[[b c] th] tobj]|e];
    [|discriminate].
  simpl in Ht.
  destruct (ComputeLoss.objectness self pi tobj); [|discriminate].
  simpl in Ht. now injection Ht as <-.
Qed.

Lemma step_inv (a a' : ComputeLoss.acc) (i : nat) (pi : pred_layer) :
  ComputeLoss.step self built a i pi = Ok a' ->
  exists lt bal_i,
    ComputeLoss.layer_of self built i pi lt /\
    nth_error (ComputeLoss.bal a) i = Some bal_i /\
    (ComputeLoss.autobalance self = true -> ~ ComputeLoss.obji lt == 0) /\
    a' = {| ComputeLoss.lcls := ComputeLoss.lcls a + ComputeLoss.cls_i lt;
            ComputeLoss.lbox := ComputeLoss.lbox a + ComputeLoss.box_i lt;
            ComputeLoss.lobj := ComputeLoss.lobj a + ComputeLoss.obji lt * bal_i;
            ComputeLoss.ltheta := ComputeLoss.ltheta a + ComputeLoss.theta_i lt;
            ComputeLoss.bal :=
              if ComputeLoss.autobalance self
              then set_nth i (ema bal_i lt) (ComputeLoss.bal a)
              else ComputeLoss.bal a;
            ComputeLoss.tobj0 := Some (p_bs pi) |}.
Proof.
  unfold ComputeLoss.step. intros Hs.
  destruct (lookup built i) as [cands|e] eqn:Ec; [|discriminate]. simpl in Hs.
  destruct (ComputeLoss.terms self pi cands) as [lt|e] eqn:Et; [|discriminate].
  simpl in Hs.
  destruct (lookup (ComputeLoss.bal a) i) as [bal_i|e] eqn:Eb; [|discriminate].
  simpl in Hs. apply lookup_Ok in Ec, Eb.
  exists lt, bal_i. split; [now exists cands|]. split; [exact Eb|].
  rewrite <- (terms_shape0 _ _ _ Et).
  destruct (ComputeLoss.autobalance self).
  - destruct (Qeq_bool (ComputeLoss.obji lt) 0) eqn:E0; [discriminate|].
    simpl in Hs. injection Hs as <-. split; [|reflexivity].
    intros _. now apply Qeq_bool_neq.
  - simpl in Hs. injection Hs as <-. split; [discriminate|reflexivity].
Qed.

Lemma step_ok (a : ComputeLoss.acc) (i : nat) (pi : pred_layer)
      (lt : ComputeLoss.layer_terms) (bal_i : Q) :
  ComputeLoss.layer_of self built i pi lt ->
  nth_error (ComputeLoss.bal a) i = Some bal_i ->
  (ComputeLoss.autobalance self = false \/ ~ ComputeLoss.obji lt == 0) ->
  exists a', ComputeLoss.step self built a i pi = Ok a'.
Proof.
  intros [cands [Hc Ht]] Hb Hab. unfold ComputeLoss.step.
  apply lookup_Ok in Hc, Hb. rewrite Hc. simpl. rewrite Ht. simpl. rewrite Hb. simpl.
  destruct (ComputeLoss.autobalance self).
  - destruct Hab as [Hab|Hab]; [discriminate|].
    destruct (Qeq_bool (ComputeLoss.obji lt) 0) eqn:E0.
    + apply Qeq_bool_eq in E0. contradiction.
    + simpl. eexists. reflexivity.
  - simpl. eexists. reflexivity.
Qed.

(** What the loop leaves, layer by layer. *)
Lemma loop_inv (l : list pred_layer) :
  forall (s : nat) (a0 a : ComputeLoss.acc),
    ComputeLoss.loop self built (combine (seq s (length l)) l) a0 = Ok a ->
    exists lts,
      length lts = length l /\
      (forall k pi, nth_error l k = Some pi ->
         exists lt, nth_error lts k = Some lt /\
           ComputeLoss.layer_of self built (s + k) pi lt /\
           (ComputeLoss.autobalance self = true -> ~ ComputeLoss.obji lt == 0) /\
           (s + k < length (ComputeLoss.bal a0))%nat /\
           nth (s + k) (ComputeLoss.bal a) 0 =
             if ComputeLoss.autobalance self
             then ema (nth (s + k) (ComputeLoss.bal a0) 0) lt
             else nth (s + k) (ComputeLoss.bal a0) 0) /\
      (forall j, (j < s \/ s + length l <= j)%nat ->
                 nth j (ComputeLoss.bal a) 0 = nth j (ComputeLoss.bal a0) 0) /\
      length (ComputeLoss.bal a) = length (ComputeLoss.bal a0) /\
      ComputeLoss.lbox a == ComputeLoss.lbox a0 + Qsum (map ComputeLoss.box_i lts) /\
      ComputeLoss.lcls a == ComputeLoss.lcls a0 + Qsum (map ComputeLoss.cls_i lts) /\
      ComputeLoss.ltheta a
        == ComputeLoss.ltheta a0 + Qsum (map ComputeLoss.theta_i lts) /\
      ComputeLoss.lobj a
        == ComputeLoss.lobj a0
           + Qsum (map2 (fun lt b => ComputeLoss.obji lt * b) lts
                        (skipn s (ComputeLoss.bal a0))) /\
      ComputeLoss.tobj0 a =
        last (map (fun pi => Some (p_bs pi)) l) (ComputeLoss.tobj0 a0).
Proof.
  induction l as [|pi l IH]; intros s a0 a Hloop.
  - simpl in Hloop. injection Hloop as <-. exists []. simpl.
    split; [reflexivity|]. split; [intros [|k] pi Hk; discriminate|].
    repeat split; auto; ring.
  - cbn [length seq combine ComputeLoss.loop] in Hloop.
    destruct (ComputeLoss.step self built a0 s pi) as [a1|e] eqn:Hstep;
      [|discriminate].
    simpl in Hloop.
    destruct (step_inv _ _ _ _ Hstep) as [lt [bal_s [Hlt [Hbs [Hnz Ha1]]]]].
    destruct (IH (S s) a1 a Hloop)
      as [lts [Hlen [Hk [Hout [Hblen [Hbox [Hcls [Hth [Hobj Htobj]]]]]]]]].
    assert (Hs : (s < length (ComputeLoss.bal a0))%nat)
      by (apply nth_error_Some; congruence).
    assert (Hbs' : nth s (ComputeLoss.bal a0) 0 = bal_s)
      by (now apply nth_error_nth).
    assert (Hb1len : length (ComputeLoss.bal a1) = length (ComputeLoss.bal a0)).
    { rewrite Ha1. simpl. destruct (ComputeLoss.autobalance self);
        [apply set_nth_length|reflexivity]. }
    assert (Hb1other : forall j, j <> s ->
              nth j (ComputeLoss.bal a1) 0 = nth j (ComputeLoss.bal a0) 0).
    { intros j Hj. rewrite Ha1. simpl. destruct (ComputeLoss.autobalance self);
        [apply set_nth_other; lia|reflexivity]. }
    assert (Hb1skip : skipn (S s) (ComputeLoss.bal a1) = skipn (S s) (ComputeLoss.bal a0)).
    { rewrite Ha1. simpl. destruct (ComputeLoss.autobalance self);
        [apply set_nth_skipn|reflexivity]. }
    exists (lt :: lts). split; [simpl; now rewrite Hlen|]. split; [|split].
    + intros [|k] pi' Hpi'; simpl in Hpi'.
      * injection Hpi' as <-. exists lt. rewrite Nat.add_0_r.
        split; [reflexivity|]. split; [exact Hlt|]. split; [exact Hnz|].
        split; [exact Hs|].
        rewrite (Hout s) by lia. rewrite Ha1. simpl.
        destruct (ComputeLoss.autobalance self); [|reflexivity].
        rewrite set_nth_same by exact Hs. now rewrite Hbs'.
      * destruct (Hk k pi' Hpi') as [lt' [Hlt' [Hlo [Hnz' [Hlt1 Hnth]]]]].
        exists lt'. replace (s + S k)%nat with (S s + k)%nat by lia.
        split; [exact Hlt'|]. split; [exact Hlo|]. split; [exact Hnz'|].
        split; [lia|]. rewrite Hnth. now rewrite Hb1other by lia.
    + intros j Hj. simpl in Hj. rewrite (Hout j) by lia. apply Hb1other. lia.
    + split; [lia|].
      rewrite (skipn_nth_error _ _ _ Hbs). rewrite Hb1skip in Hobj.
      assert (Fbox : ComputeLoss.lbox a1
                     = ComputeLoss.lbox a0 + ComputeLoss.box_i lt)
        by (rewrite Ha1; reflexivity).
      assert (Fcls : ComputeLoss.lcls a1
                     = ComputeLoss.lcls a0 + ComputeLoss.cls_i lt)
        by (rewrite Ha1; reflexivity).
      assert (Fth : ComputeLoss.ltheta a1
                    = ComputeLoss.ltheta a0 + ComputeLoss.theta_i lt)
        by (rewrite Ha1; reflexivity).
      assert (Fobj : ComputeLoss.lobj a1
                     = ComputeLoss.lobj a0 + ComputeLoss.obji lt * bal_s)
        by (rewrite Ha1; reflexivity).
      assert (Ftobj : ComputeLoss.tobj0 a1 = Some (p_bs pi))
        by (rewrite Ha1; reflexivity).
      rewrite Fbox in Hbox. rewrite Fcls in Hcls. rewrite Fth in Hth.
      rewrite Fobj in Hobj. rewrite Ftobj in Htobj.
      cbn [map map2 Qsum fold_right].
      split; [rewrite Hbox; unfold Qsum; ring|].
      split; [rewrite Hcls; unfold Qsum; ring|].
      split; [rewrite Hth; unfold Qsum; ring|].
      split; [rewrite Hobj; unfold Qsum; ring|].
      rewrite Htobj. cbn [map]. now rewrite last_cons_default.
Qed.
End LoopFacts.

Section CallFacts.
Context `{Kernels}.

Lemma loop_ok (self : ComputeLoss.t) (built : list (list candidate))
      (l : list pred_layer) :
  forall (s : nat) (a0 : ComputeLoss.acc),
    (forall k pi, nth_error l k = Some pi ->
       exists lt, ComputeLoss.layer_of self built (s + k) pi lt /\
         (ComputeLoss.autobalance self = false \/ ~ ComputeLoss.obji lt == 0)) ->
    (s + length l <= length (ComputeLoss.bal a0))%nat ->
    exists a, ComputeLoss.loop self built (combine (seq s (length l)) l) a0 = Ok a.
Proof.
  induction l as [|pi l IH]; intros s a0 Hl Hlen.
  - simpl. now exists a0.
  - cbn [length seq combine ComputeLoss.loop].
    destruct (Hl 0%nat pi eq_refl) as [lt [Hlt Hnz]]. rewrite Nat.add_0_r in Hlt.
    destruct (nth_error (ComputeLoss.bal a0) s) as [bal_s|] eqn:Hb.
    2:{ apply nth_error_None in Hb. simpl in Hlen. lia. }
    destruct (step_ok self built a0 s pi lt bal_s Hlt Hb Hnz) as [a1 Ha1].
    rewrite Ha1. simpl.
    destruct (step_inv self built _ _ _ _ Ha1) as [lt' [bal' [_ [Hb' [_ Heq]]]]].
    apply IH.
    + intros k pi' Hk. replace (S s + k)%nat with (s + S k)%nat by lia.
      apply (Hl (S k) pi' Hk).
    + rewrite Heq. simpl in *.
      destruct (ComputeLoss.autobalance self); rewrite ?set_nth_length; lia.
Qed.

Lemma renormalize_gen (ssi : nat) (L l l' : list Q) :
  mapM (fun x => d <- lookup L ssi ;;
                 if Qeq_bool d 0 then Raise ZeroDivisionError else Ok (x / d)) l
  = Ok l' ->
  l <> [] ->
  exists d, nth_error L ssi = Some d /\ ~ d == 0 /\ l' = map (fun x => x / d) l.
Proof.
  intros Hm Hne.
  destruct (lookup L ssi) as [d|e] eqn:Hd.
  - destruct (Qeq_bool d 0) eqn:E0.
    + destruct l as [|x l]; [congruence|]. simpl in Hm. rewrite E0 in Hm.
      discriminate Hm.
    + exists d. split; [now apply lookup_Ok|]. split; [now apply Qeq_bool_neq|].
      rewrite (mapM_ext _ (fun x => Ok (x / d))) in Hm
        by (intros x; simpl; now rewrite E0).
      rewrite mapM_pure in Hm. now injection Hm as <-.
  - destruct l as [|x l]; [congruence|]. simpl in Hm. discriminate Hm.
Qed.

Lemma renormalize_inv (ssi : nat) (l l' : list Q) :
  ComputeLoss.renormalize ssi l = Ok l' -> l <> [] ->
  exists d, nth_error l ssi = Some d /\ ~ d == 0 /\ l' = map (fun x => x / d) l.
Proof. apply renormalize_gen. Qed.

Lemma renormalize_ok (ssi : nat) (l : list Q) (d : Q) :
  nth_error l ssi = Some d -> ~ d == 0 ->
  ComputeLoss.renormalize ssi l = Ok (map (fun x => x / d) l).
Proof.
  intros Hd Hnz. unfold ComputeLoss.renormalize.
  apply lookup_Ok in Hd.
  assert (E0 : Qeq_bool d 0 = false).
  { destruct (Qeq_bool d 0) eqn:E0; [|reflexivity].
    apply Qeq_bool_eq in E0. contradiction. }
  rewrite (mapM_ext _ (fun x => Ok (x / d)))
    by (intros x; rewrite Hd; simpl; now rewrite E0).
  apply mapM_pure.
Qed.

Lemma run_inv (self : ComputeLoss.t) (p : list pred_layer) (targets : list target)
      (a : ComputeLoss.acc) :
  ComputeLoss.run self p targets = Ok a ->
  exists built lts,
    ComputeLoss.build_targets self p targets = Ok built /\
    length lts = length p /\
    (forall i pi, nth_error p i = Some pi ->
       exists lt, nth_error lts i = Some lt /\
         ComputeLoss.layer_of self built i pi lt /\
         (ComputeLoss.autobalance self = true -> ~ ComputeLoss.obji lt == 0) /\
         (i < length (ComputeLoss.balance self))%nat /\
         nth i (ComputeLoss.bal a) 0 =
           if ComputeLoss.autobalance self
           then ema (nth i (ComputeLoss.balance self) 0) lt
           else nth i (ComputeLoss.balance self) 0) /\
    (forall j, (length p <= j)%nat ->
               nth j (ComputeLoss.bal a) 0 = nth j (ComputeLoss.balance self) 0) /\
    length (ComputeLoss.bal a) = length (ComputeLoss.balance self) /\
    ComputeLoss.lbox a == Qsum (map ComputeLoss.box_i lts) /\
    ComputeLoss.lcls a == Qsum (map ComputeLoss.cls_i lts) /\
    ComputeLoss.ltheta a == Qsum (map ComputeLoss.theta_i lts) /\
    ComputeLoss.lobj a
      == Qsum (map2 (fun lt b => ComputeLoss.obji lt * b) lts (ComputeLoss.balance self)) /\
    ComputeLoss.tobj0 a = last (map (fun pi => Some (p_bs pi)) p) None.
Proof.
  unfold ComputeLoss.run. intros Hrun.
  destruct (ComputeLoss.build_targets self p targets) as [built|e]; [|discriminate].
  simpl in Hrun. unfold enumerate in Hrun.
  destruct (loop_inv self built p 0 _ a Hrun)
    as [lts [Hlen [Hk [Hout [Hblen [Hbox [Hcls [Hth [Hobj Htobj]]]]]]]]].
  simpl in Hk, Hout, Hblen, Hbox, Hcls, Hth, Hobj, Htobj.
  exists built, lts. split; [reflexivity|]. split; [exact Hlen|].
  split; [exact Hk|]. split; [intros j Hj; apply Hout; lia|].
  split; [exact Hblen|].
  split; [rewrite Hbox; ring|]. split; [rewrite Hcls; ring|].
  split; [rewrite Hth; ring|]. split; [rewrite Hobj; ring|]. exact Htobj.
Qed.

Lemma last_map_Some {A B : Type} (f : A -> B) (l : list A) (d : option B) :
  l <> [] ->
  exists x, nth_error l (length l - 1) = Some x /\
            last (map (fun y => Some (f y)) l) d = Some (f x).
Proof.
  induction l as [|x l IH]; intros Hne; [congruence|].
  destruct l as [|y l].
  - exists x. simpl. auto.
  - destruct (IH ltac:(discriminate)) as [z [Hz Hl]].
    exists z. split.
    + replace (length (x :: y :: l) - 1)%nat with (S (length (y :: l) - 1))
        by (simpl; lia).
      exact Hz.
    + cbn [map]. rewrite last_cons_default. cbn [map] in Hl.
      rewrite last_cons_default in Hl |- *. exact Hl.
Qed.

Lemma call_inv (self self' : ComputeLoss.t) (p : list pred_layer)
      (targets : list target) (loss : Q) (items : list Q) :
  ComputeLoss.call self p targets = Ok (loss, items, self') ->
  exists a bs,
    ComputeLoss.run self p targets = Ok a /\
    ComputeLoss.tobj0 a = Some bs /\
    (if ComputeLoss.autobalance self
     then ComputeLoss.renormalize (ComputeLoss.ssi self) (ComputeLoss.bal a)
     else Ok (ComputeLoss.bal a)) = Ok (ComputeLoss.balance self') /\
    self' = ComputeLoss.set_balance self (ComputeLoss.balance self') /\
    items = [ComputeLoss.lbox a * Hyp.box (ComputeLoss.hyp self);
             ComputeLoss.lobj a * Hyp.obj (ComputeLoss.hyp self);
             ComputeLoss.lcls a * Hyp.cls (ComputeLoss.hyp self);
             ComputeLoss.ltheta a * Hyp.theta (ComputeLoss.hyp self)] /\
    loss = (ComputeLoss.lbox a * Hyp.box (ComputeLoss.hyp self)
            + ComputeLoss.lobj a * Hyp.obj (ComputeLoss.hyp self)
            + ComputeLoss.lcls a * Hyp.cls (ComputeLoss.hyp self)
            + ComputeLoss.ltheta a * Hyp.theta (ComputeLoss.hyp self))
           * inject_Z (Z.of_nat bs).
Proof.
  unfold ComputeLoss.call. intros Hc.
  destruct (ComputeLoss.run self p targets) as [a|e]; [|discriminate].
  simpl in Hc.
  destruct (if ComputeLoss.autobalance self then _ else _) as [balance'|e] eqn:Eb;
    [|discriminate].
  simpl in Hc.
  destruct (ComputeLoss.tobj0 a) as [bs|] eqn:Et; [|discriminate].
  simpl in Hc. injection Hc as <- <- <-.
  exists a, bs. simpl. repeat split; auto.
Qed.
Lemma layer_of_functional (self : ComputeLoss.t) (built : list (list candidate))
      (i : nat) (pi : pred_layer) (lt1 lt2 : ComputeLoss.layer_terms) :
  ComputeLoss.layer_of self built i pi lt1 ->
  ComputeLoss.layer_of self built i pi lt2 -> lt1 = lt2.
Proof.
  intros [c1 [Hc1 Ht1]] [c2 [Hc2 Ht2]]. congruence.
Qed.

Lemma Forall_nth_pos (l : list Q) (j : nat) :
  Forall (fun b => 0 < b) l -> (j < length l)%nat -> 0 < nth j l 0.
Proof.
  intros Hl Hj. rewrite Forall_forall in Hl. apply Hl. now apply nth_In.
Qed.

(** A call returns when the prediction list is not empty, every layer has
    its terms and a balance entry, and, with auto-balancing, the balance
    entries and the objectness losses are positive. *)
Lemma call_total (self : ComputeLoss.t) (p : list pred_layer) (targets : list target)
      (built : list (list candidate)) :
  p <> [] ->
  ComputeLoss.build_targets self p targets = Ok built ->
  (forall i pi, nth_error p i = Some pi ->
     exists lt, ComputeLoss.layer_of self built i pi lt /\
       (ComputeLoss.autobalance self = false \/ 0 < ComputeLoss.obji lt)) ->
  (length p <= length (ComputeLoss.balance self))%nat ->
  (ComputeLoss.autobalance self = false \/
   (Forall (fun b => 0 < b) (ComputeLoss.balance self) /\
    (ComputeLoss.ssi self < length (ComputeLoss.balance self))%nat)) ->
  exists loss items self', ComputeLoss.call self p targets = Ok (loss, items, self').
Proof.
  intros Hne Hbuilt Hlayers Hbal Hauto.
  destruct (loop_ok self built p 0
              {| ComputeLoss.lcls := 0; ComputeLoss.lbox := 0; ComputeLoss.lobj := 0;
                 ComputeLoss.ltheta := 0; ComputeLoss.bal := ComputeLoss.balance self;
                 ComputeLoss.tobj0 := None |}) as [a Hloop].
  { intros k pi Hpi. destruct (Hlayers k pi Hpi) as [lt [Hlo Hpos]].
    exists lt. split; [exact Hlo|]. destruct Hpos as [Hf|Hpos]; [now left|right]. lra. }
  { exact Hbal. }
  assert (Hrun : ComputeLoss.run self p targets = Ok a).
  { unfold ComputeLoss.run. rewrite Hbuilt. exact Hloop. }
  destruct (run_inv _ _ _ _ Hrun)
    as [built' [lts [Hb' [Hlen [Hk [Hout [Hblen [_ [_ [_ [_ Htobj]]]]]]]]]]].
  rewrite Hbuilt in Hb'. injection Hb' as <-.
  destruct (last_map_Some p_bs p None Hne) as [pi_last [Hlast Hl]].
  rewrite Hl in Htobj.
  assert (Hren : exists balance',
             (if ComputeLoss.autobalance self
              then ComputeLoss.renormalize (ComputeLoss.ssi self) (ComputeLoss.bal a)
              else Ok (ComputeLoss.bal a)) = Ok balance').
  { destruct (ComputeLoss.autobalance self) eqn:Eab; [|now eexists].
    destruct Hauto as [Hf|[Hpos Hssi]]; [discriminate|].
    destruct (nth_error (ComputeLoss.bal a) (ComputeLoss.ssi self)) as [d|] eqn:Hd.
    2:{ apply nth_error_None in Hd. lia. }
    exists (map (fun x => x / d) (ComputeLoss.bal a)).
    apply renormalize_ok; [exact Hd|].
    assert (Hdpos : 0 < d); [|lra].
    rewrite <- (nth_error_nth _ _ 0 Hd).
    destruct (Nat.lt_ge_cases (ComputeLoss.ssi self) (length p)) as [Hin|Hge].
    - destruct (nth_error p (ComputeLoss.ssi self)) as [pi|] eqn:Hpi;
        [|apply nth_error_None in Hpi; lia].
      destruct (Hk _ pi Hpi) as [lt [_ [Hlo [_ [_ Hnth']]]]].
      rewrite Hnth'. unfold ema.
      destruct (Hlayers _ pi Hpi) as [lt' [Hlo' Hopos]].
      rewrite (layer_of_functional _ _ _ _ _ _ Hlo' Hlo) in Hopos.
      destruct Hopos as [Hf|Hopos]; [discriminate|].
      pose proof (Forall_nth_pos _ _ Hpos Hssi) as Hbpos.
      assert (0 < 0.0001 / ComputeLoss.obji lt).
      { unfold Qdiv. apply Qmult_lt_0_compat; [reflexivity|].
        now apply Qinv_lt_0_compat. }
      lra.
    - rewrite (Hout _ Hge). now apply Forall_nth_pos. }
  destruct Hren as [balance' Hren].
  unfold ComputeLoss.call. rewrite Hrun. simpl. rewrite Hren. simpl.
  rewrite Htobj. simpl. do 3 eexists. reflexivity.
Qed.
End CallFacts.

(** * The properties of the specification *)

(** ** Dynamic assignment *)

(** C1. In the dynamic target builder, after conflict resolution every
    candidate is held by at most one ground truth: each column of the final
    matching matrix sums to at most 1; a candidate that more than one ground
    truth had claimed is held by the first ground truth of least total cost
    for it, and by no other; and every surviving candidate is matched to the
    one ground truth that holds it. *)
Theorem ota_conflict_resolution_unique `{Kernels} (pair_wise_iou : matrix)
        (pair_wise_cls_loss : nat -> nat -> Q) (a : OTA.assignment) :
  ComputeLossOTA.build_targets_assign pair_wise_iou pair_wise_cls_loss = Ok (Some a) ->
  let cost := OTA.cost_matrix pair_wise_cls_loss (OTA.pair_wise_iou_loss pair_wise_iou) in
  let m' := OTA.matching_matrix a in
  exists ks m,
    OTA.dynamic_ks ComputeLossOTA.top pair_wise_iou = Ok ks /\
    OTA.claim_loop cost ks 0 (zeros_like cost) = Ok m /\
    a = OTA.finish cost m /\
    (forall c, (c < dim1 pair_wise_iou)%nat -> OTA.anchor_matching_gt m' c <= 1) /\
    (forall c r1 r2,
        (c < dim1 pair_wise_iou)%nat ->
        (r1 < dim0 pair_wise_iou)%nat -> (r2 < dim0 pair_wise_iou)%nat ->
        r1 <> r2 -> at2 m r1 c == 1 -> at2 m r2 c == 1 ->
        let best := argmin (col cost c) in
        (best < dim0 pair_wise_iou)%nat /\
        (forall r, (r < dim0 pair_wise_iou)%nat -> at2 cost best c <= at2 cost r c) /\
        (forall r, (r < best)%nat -> at2 cost best c < at2 cost r c) /\
        (forall r, at2 m' r c == if (r =? best)%nat then 1 else 0)) /\
    (length (OTA.matched_gt_inds a) = length (OTA.fg_candidates a) /\
     forall i, (i < length (OTA.fg_candidates a))%nat ->
        let c := nth i (OTA.fg_candidates a) 0%nat in
        let r := nth i (OTA.matched_gt_inds a) 0%nat in
        (c < dim1 pair_wise_iou)%nat /\ (r < dim0 pair_wise_iou)%nat /\
        at2 m' r c == 1 /\
        forall r', (r' < dim0 pair_wise_iou)%nat -> r' <> r -> at2 m' r' c == 0).
Proof.
  intros Ha. exact (assign_resolution ComputeLossOTA.top _ _ _ Ha).
Qed.

(** C2. The dynamic k of a ground truth is the sum of its top-min(10, n)
    pairwise IoU values (top-min(20, n) in the auxiliary-head variant),
    truncated to an integer and floored at 1; it is at least 1. *)
Theorem dynamic_k_is_clamped_top_iou_sum (pair_wise_iou : matrix) :
  ComputeLossOTA.top = 10%nat /\ ComputeLossAuxOTA.top = 20%nat /\
  (exists ks,
      OTA.dynamic_ks ComputeLossOTA.top pair_wise_iou = Ok ks /\
      Forall2 (fun gt_idx k =>
                 exists top_k,
                   is_topk true (row pair_wise_iou gt_idx)
                           (Nat.min 10 (dim1 pair_wise_iou)) top_k /\
                   k = Z.max (Qtrunc (Qsum top_k)) 1 /\ (1 <= k)%Z)
              (seq 0 (dim0 pair_wise_iou)) ks) /\
  (exists ks,
      OTA.dynamic_ks ComputeLossAuxOTA.top pair_wise_iou = Ok ks /\
      Forall2 (fun gt_idx k =>
                 exists top_k,
                   is_topk true (row pair_wise_iou gt_idx)
                           (Nat.min 20 (dim1 pair_wise_iou)) top_k /\
                   k = Z.max (Qtrunc (Qsum top_k)) 1 /\ (1 <= k)%Z)
              (seq 0 (dim0 pair_wise_iou)) ks).
Proof.
  assert (Hgen : forall top, exists ks,
             OTA.dynamic_ks top pair_wise_iou = Ok ks /\
             Forall2 (fun gt_idx k =>
                        exists top_k,
                          is_topk true (row pair_wise_iou gt_idx)
                                  (Nat.min top (dim1 pair_wise_iou)) top_k /\
                          k = Z.max (Qtrunc (Qsum top_k)) 1 /\ (1 <= k)%Z)
                     (seq 0 (dim0 pair_wise_iou)) ks).
  { intros top. unfold OTA.dynamic_ks. apply mapM_ok. intros gt_idx _.
    destruct (topk_ok (row pair_wise_iou gt_idx)
                (Z.of_nat (Nat.min top (dim1 pair_wise_iou))) true)
      as [vals [idx [Htk [Hspec _]]]].
    { rewrite row_length. lia. }
    rewrite Htk. simpl. eexists. split; [reflexivity|].
    exists vals. rewrite Nat2Z.id in Hspec. split; [exact Hspec|]. split; [reflexivity|lia]. }
  split; [reflexivity|]. split; [reflexivity|].
  split; [exact (Hgen 10%nat)|exact (Hgen 20%nat)].
Qed.

(** C10. With every pairwise IoU in [[0, 1]], on an image with at least one
    ground truth and one candidate, every dynamic k lies between 1 and the
    number of candidates, so each lowest-cost [topk] of the matching loop
    asks for no more entries than a cost row has, and the assignment is
    computed without raising. *)
Theorem dynamic_k_within_candidates `{Kernels} (pair_wise_iou : matrix)
        (pair_wise_cls_loss : nat -> nat -> Q) :
  (0 < dim0 pair_wise_iou)%nat -> (0 < dim1 pair_wise_iou)%nat ->
  (forall r c, (r < dim0 pair_wise_iou)%nat -> (c < dim1 pair_wise_iou)%nat ->
               0 <= at2 pair_wise_iou r c /\ at2 pair_wise_iou r c <= 1) ->
  let cost := OTA.cost_matrix pair_wise_cls_loss (OTA.pair_wise_iou_loss pair_wise_iou) in
  exists ks m,
    OTA.dynamic_ks ComputeLossOTA.top pair_wise_iou = Ok ks /\
    Forall (fun k => (1 <= k <= Z.of_nat (dim1 pair_wise_iou))%Z) ks /\
    Forall2 (fun gt_idx k =>
               length (row cost gt_idx) = dim1 pair_wise_iou /\
               exists vals pos_idx,
                 topk (row cost gt_idx) k false = Ok (vals, pos_idx) /\
                 length pos_idx = Z.to_nat k)
            (seq 0 (dim0 pair_wise_iou)) ks /\
    OTA.claim_loop cost ks 0 (zeros_like cost) = Ok m /\
    ComputeLossOTA.build_targets_assign pair_wise_iou pair_wise_cls_loss
    = Ok (Some (OTA.finish cost m)).
Proof.
  intros Hgt Hn Hiou cost.
  destruct (dynamic_ks_spec ComputeLossOTA.top pair_wise_iou) as [ks [Hks [Hlen _]]].
  pose proof (dynamic_ks_bounded _ _ _ Hn Hiou Hks) as Hb.
  destruct (claim_loop_ok cost ks 0 (zeros_like cost)) as [m Hm].
  { apply Forall_impl with (2 := Hb). intros k Hk. simpl. lia. }
  exists ks, m. split; [exact Hks|]. split; [exact Hb|]. split; [|split].
  - clear Hm Hks. revert Hb. rewrite <- Hlen. clear Hlen. generalize 0%nat as s.
    induction ks as [|k ks IH]; intros s Hb; simpl; constructor.
    + inversion Hb as [|? ? Hk _]; subst. split; [now rewrite row_length|].
      destruct (topk_ok (row cost s) k false) as [vals [idx [Htk [_ [Hl _]]]]].
      { rewrite row_length. simpl. lia. }
      exists vals, idx. auto.
    + apply IH. now inversion Hb.
  - exact Hm.
  - unfold ComputeLossOTA.build_targets_assign, OTA.assign.
    destruct (Nat.eqb_spec (dim0 pair_wise_iou) 0); [lia|].
    destruct (Nat.eqb_spec (dim1 pair_wise_iou) 0); [lia|].
    rewrite Hks. simpl. fold cost. rewrite Hm. reflexivity.
Qed.

(** ** Static builder *)

Lemma Qfloor_unique (x : Q) (z : Z) :
  inject_Z z <= x -> x < inject_Z (z + 1) -> Qfloor x = z.
Proof.
  intros H1 H2. pose proof (Qfloor_le x) as F1. pose proof (Qlt_floor x) as F2.
  assert (A : inject_Z (Qfloor x) < inject_Z (z + 1)) by lra.
  assert (B : inject_Z z < inject_Z (Qfloor x + 1)) by lra.
  rewrite <- Zlt_Qlt in A, B. lia.
Qed.

Lemma Qrem1_range (x : Q) : 0 <= Qrem1 x /\ Qrem1 x < 1.
Proof.
  unfold Qrem1. pose proof (Qfloor_le x) as F1. pose proof (Qlt_floor x) as F2.
  rewrite inject_Z_plus in F2. change (inject_Z 1) with 1 in F2. lra.
Qed.

Lemma inject_Z_sub1 (n f : Z) : inject_Z (n - f - 1) == inject_Z n - inject_Z f - 1.
Proof.
  unfold Z.sub. rewrite !inject_Z_plus, !inject_Z_opp. change (inject_Z 1) with 1. ring.
Qed.

(** Off the grid lines, the remainders of [x] and of [n - x] add up to 1. *)
Lemma Qrem1_complement (n : Z) (x : Q) :
  ~ Qrem1 x == 0 -> Qrem1 (inject_Z n - x) == 1 - Qrem1 x.
Proof.
  intros Hx. pose proof (Qrem1_range x) as [R0 R1]. unfold Qrem1 in *.
  assert (Hpos : 0 < x - inject_Z (Qfloor x)).
  { apply Qnot_le_lt. intro Hle. apply Hx. lra. }
  assert (F : Qfloor (inject_Z n - x) = (n - Qfloor x - 1)%Z).
  { apply Qfloor_unique.
    - rewrite inject_Z_sub1. lra.
    - replace (n - Qfloor x - 1 + 1)%Z with (n + - Qfloor x)%Z by lia.
      rewrite inject_Z_plus, inject_Z_opp. lra. }
  rewrite F, inject_Z_sub1. lra.
Qed.

(** With bias one half, a centre off the grid lines cannot select both
    neighbours along one axis. *)
Lemma neighbours_exclusive (n : Z) (x : Q) :
  ~ Qrem1 x == 0 ->
  Qltb (Qrem1 x) 0.5 && Qltb (Qrem1 (inject_Z n - x)) 0.5 = false.
Proof.
  intros Hx. destruct (Qltb (Qrem1 x) 0.5) eqn:E1; [|reflexivity].
  destruct (Qltb (Qrem1 (inject_Z n - x)) 0.5) eqn:E2; [|reflexivity].
  apply Qltb_lt in E1, E2. rewrite (Qrem1_complement n x Hx) in E2. lra.
Qed.

Lemma selects_count (g : Q) (w h : nat) (t : target) :
  (1 <= length (filter (fun k => nth k (Static.selects g w h t) false) (seq 0 5)) <= 5)%nat.
Proof.
  unfold Static.selects. cbn [seq filter nth].
  repeat match goal with
         | |- context [if ?b then _ else _] => destruct b
         end; simpl; lia.
Qed.

Lemma selects_count_off_grid (w h : nat) (t : target) :
  ~ Qrem1 (t_x t) == 0 -> ~ Qrem1 (t_y t) == 0 ->
  (length (filter (fun k => nth k (Static.selects 0.5 w h t) false) (seq 0 5)) <= 3)%nat.
Proof.
  intros Hx Hy.
  pose proof (neighbours_exclusive (Z.of_nat w) (t_x t) Hx) as Ex.
  pose proof (neighbours_exclusive (Z.of_nat h) (t_y t) Hy) as Ey.
  unfold Static.selects. cbn [seq filter nth].
  destruct (Qltb (Qrem1 (t_x t)) 0.5);
    destruct (Qltb (Qrem1 (inject_Z (Z.of_nat w) - t_x t)) 0.5);
    destruct (Qltb (Qrem1 (t_y t)) 0.5);
    destruct (Qltb (Qrem1 (inject_Z (Z.of_nat h) - t_y t)) 0.5);
    try discriminate;
    cbn [andb];
    repeat match goal with
           | |- context [if ?b then _ else _] => destruct b
           end; simpl; lia.
Qed.

(** What a (ground truth, anchor) pair that passes the gate yields at a
    layer: one candidate per selected row of [off], between 1 and 5 of
    them, the first for the cell of the centre; at most 3 when no grid
    coordinate of the centre is an integer. *)
Lemma pair_candidates (clamped : bool) (hyp : Hyp.t) (det : Detect.t)
      (p : list pred_layer) (targets : list target) (built : list (list candidate))
      (i gt a : nat) (t : target) :
  Static.build 0.5 clamped hyp det p targets = Ok built ->
  (i < Detect.nl det)%nat -> nth_error targets gt = Some t ->
  (a < Detect.na det)%nat ->
  Static.shape_ok (Hyp.anchor_t hyp) (Detect.anchors det i a)
                  (Static.scale (Detect.stride det i) t) = true ->
  exists pi cands,
    nth_error p i = Some pi /\ nth_error built i = Some cands /\
    let own := filter (Static.from_pair gt a) cands in
    let t' := Static.scale (Detect.stride det i) t in
    (1 <= length own <= 5)%nat /\
    (exists c rest, own = c :: rest /\ c_off c = 0%nat /\
       c_gi c = clampZ 0 (Z.of_nat (p_w pi) - 1) (Qtrunc (t_x t' - 0 * 0.5)) /\
       c_gj c = clampZ 0 (Z.of_nat (p_h pi) - 1) (Qtrunc (t_y t' - 0 * 0.5))) /\
    (~ Qrem1 (t_x t') == 0 -> ~ Qrem1 (t_y t') == 0 -> (length own <= 3)%nat).
Proof.
  intros Hb Hi Ht Ha Hok.
  destruct (build_layer _ _ _ _ _ _ _ _ Hb Hi) as [pi [cands [Hpi [Hc Hl]]]].
  exists pi, cands. split; [exact Hpi|]. split; [exact Hc|].
  destruct (layer_pair 0.5 clamped (Hyp.anchor_t hyp) (Detect.na det)
              (Detect.anchors det i) (Detect.stride det i) (p_w pi) (p_h pi)
              targets gt a t Ht Ha) as [out [Hout Hown]].
  rewrite Hl in Hout. injection Hout as <-. rewrite Hok in Hown.
  cbv zeta. rewrite Hown, length_map.
  split; [apply selects_count|]. split; [|apply selects_count_off_grid].
  unfold Static.selects. cbn [seq filter nth map].
  eexists. eexists. split; [reflexivity|]. simpl. auto.
Qed.

Lemma shape_ok_false_iff (anchor_t : Q) (anchor : Q * Q) (t : target) :
  Static.shape_ok anchor_t anchor t = false <->
  (t_w t == 0 \/ t_h t == 0 \/ fst anchor == 0 \/ snd anchor == 0) \/
  ~ Static.ratio anchor t < anchor_t.
Proof.
  unfold Static.shape_ok.
  destruct (Qeq_bool (t_w t) 0) eqn:E1;
    [apply Qeq_bool_eq in E1; simpl; tauto|apply Qeq_bool_neq in E1].
  destruct (Qeq_bool (t_h t) 0) eqn:E2;
    [apply Qeq_bool_eq in E2; simpl; tauto|apply Qeq_bool_neq in E2].
  destruct (Qeq_bool (fst anchor) 0) eqn:E3;
    [apply Qeq_bool_eq in E3; simpl; tauto|apply Qeq_bool_neq in E3].
  destruct (Qeq_bool (snd anchor) 0) eqn:E4;
    [apply Qeq_bool_eq in E4; simpl; tauto|apply Qeq_bool_neq in E4].
  simpl. rewrite Qltb_ge. split.
  - intros Hle. right. intro Hlt. apply (Qlt_not_le _ _ Hlt Hle).
  - intros [[?|[?|[?|?]]]|Hn]; try contradiction. now apply Qnot_lt_le.
Qed.

(** C4. A ground truth whose scaled box fails the shape-ratio gate against
    every anchor of a layer (the largest of the four ratios is not strictly
    below [hyp['anchor_t']], a vanishing extent counting as a failure) gets
    no candidate at that layer, in [ComputeLoss.build_targets] and in
    [find_3_positive] alike. *)
Theorem incompatible_ground_truth_yields_no_candidate (self : ComputeLoss.t)
        (p : list pred_layer) (targets : list target)
        (built : list (list candidate)) (i gt : nat) (t : target) :
  ComputeLoss.build_targets self p targets = Ok built \/
  ComputeLossOTA.find_3_positive (ComputeLoss.hyp self) (ComputeLoss.det self) p targets
  = Ok built ->
  (i < Detect.nl (ComputeLoss.det self))%nat ->
  nth_error targets gt = Some t ->
  (forall a, (a < Detect.na (ComputeLoss.det self))%nat ->
     let t' := Static.scale (Detect.stride (ComputeLoss.det self) i) t in
     let anchor := Detect.anchors (ComputeLoss.det self) i a in
     (t_w t' == 0 \/ t_h t' == 0 \/ fst anchor == 0 \/ snd anchor == 0) \/
     ~ Static.ratio anchor t' < Hyp.anchor_t (ComputeLoss.hyp self)) ->
  exists cands,
    nth_error built i = Some cands /\
    filter (fun c => (c_gt c =? gt)%nat) cands = [].
Proof.
  intros Hb Hi Ht Hgate.
  assert (Hbuild : exists clamped,
             Static.build 0.5 clamped (ComputeLoss.hyp self) (ComputeLoss.det self)
                          p targets = Ok built).
  { destruct Hb as [Hb|Hb]; [exists true|exists false]; exact Hb. }
  destruct Hbuild as [clamped Hbuild].
  destruct (build_layer _ _ _ _ _ _ _ _ Hbuild Hi) as [pi [cands [_ [Hc Hl]]]].
  exists cands. split; [exact Hc|].
  apply filter_none. intros c Hin.
  destruct (layer_In _ _ _ _ _ _ _ _ _ _ c Hl Hin) as [t0 [Ht0 [Ha Hok]]].
  destruct (Nat.eqb_spec (c_gt c) gt) as [Heq|]; [|reflexivity].
  rewrite Heq, Ht in Ht0. injection Ht0 as <-.
  specialize (Hgate (c_a c) Ha). cbv zeta in Hgate.
  apply shape_ok_false_iff in Hgate. congruence.
Qed.

(** ** The loss aggregator *)

(** C6. [ComputeLoss.__call__] returns
    [(hyp['box']*lbox + hyp['obj']*lobj + hyp['cls']*lcls + hyp['theta']*ltheta) * bs],
    with [lbox], [lobj], [lcls], [ltheta] the sums over the layers of the
    box, balance-weighted objectness, classification and angle terms and
    [bs] the batch size of the last prediction tensor, together with the
    vector of the four weighted components.  It does return when the
    prediction list is not empty and every layer has its terms and its
    balance entry (with auto-balancing: positive balance entries and
    objectness losses). *)
Theorem call_returns_weighted_sum `{Kernels} (self : ComputeLoss.t)
        (p : list pred_layer) (targets : list target) :
  (forall built,
      p <> [] ->
      ComputeLoss.build_targets self p targets = Ok built ->
      (forall i pi, nth_error p i = Some pi ->
         exists lt, ComputeLoss.layer_of self built i pi lt /\
           (ComputeLoss.autobalance self = false \/ 0 < ComputeLoss.obji lt)) ->
      (length p <= length (ComputeLoss.balance self))%nat ->
      (ComputeLoss.autobalance self = false \/
       (Forall (fun b => 0 < b) (ComputeLoss.balance self) /\
        (ComputeLoss.ssi self < length (ComputeLoss.balance self))%nat)) ->
      exists loss items self',
        ComputeLoss.call self p targets = Ok (loss, items, self')) /\
  (forall loss items self',
      ComputeLoss.call self p targets = Ok (loss, items, self') ->
      exists a built lts pi_last,
        ComputeLoss.run self p targets = Ok a /\
        ComputeLoss.build_targets self p targets = Ok built /\
        length lts = length p /\
        (forall i pi, nth_error p i = Some pi ->
           exists lt, nth_error lts i = Some lt /\
                      ComputeLoss.layer_of self built i pi lt) /\
        ComputeLoss.lbox a == Qsum (map ComputeLoss.box_i lts) /\
        ComputeLoss.lobj a
          == Qsum (map2 (fun lt b => ComputeLoss.obji lt * b) lts
                        (ComputeLoss.balance self)) /\
        ComputeLoss.lcls a == Qsum (map ComputeLoss.cls_i lts) /\
        ComputeLoss.ltheta a == Qsum (map ComputeLoss.theta_i lts) /\
        nth_error p (length p - 1) = Some pi_last /\
        let h := ComputeLoss.hyp self in
        let bs := inject_Z (Z.of_nat (p_bs pi_last)) in
        loss == (Hyp.box h * ComputeLoss.lbox a + Hyp.obj h * ComputeLoss.lobj a
                 + Hyp.cls h * ComputeLoss.lcls a
                 + Hyp.theta h * ComputeLoss.ltheta a) * bs /\
        items = [ComputeLoss.lbox a * Hyp.box h; ComputeLoss.lobj a * Hyp.obj h;
                 ComputeLoss.lcls a * Hyp.cls h; ComputeLoss.ltheta a * Hyp.theta h] /\
        loss == Qsum items * bs).
Proof.
  split.
  { intros built Hne Hb Hl Hlen Hauto.
    exact (call_total self p targets built Hne Hb Hl Hlen Hauto). }
  intros loss items self' Hcall.
  destruct (call_inv _ _ _ _ _ _ Hcall) as [a [bs [Hrun [Hbs [_ [_ [Hitems Hloss]]]]]]].
  destruct (run_inv _ _ _ _ Hrun)
    as [built [lts [Hb [Hlen [Hk [_ [_ [Hbox [Hcls [Hth [Hobj Htobj]]]]]]]]]]].
  assert (Hne : p <> []).
  { intros ->. simpl in Htobj. congruence. }
  destruct (last_map_Some p_bs p None Hne) as [pi_last [Hlast Hl]].
  rewrite Htobj, Hl in Hbs. injection Hbs as <-.
  exists a, built, lts, pi_last.
  split; [exact Hrun|]. split; [exact Hb|]. split; [exact Hlen|]. split.
  { intros i pi Hpi. destruct (Hk i pi Hpi) as [lt [Hlt [Hlo _]]]. exists lt. auto. }
  split; [exact Hbox|]. split; [exact Hobj|]. split; [exact Hcls|].
  split; [exact Hth|]. split; [exact Hlast|]. cbv zeta.
  split; [rewrite Hloss; ring|]. split; [exact Hitems|].
  rewrite Hloss, Hitems. unfold Qsum. simpl fold_right. ring.
Qed.

Lemma init_inv (h : Hyp.t) (d : Detect.t) (ab : bool) (self : ComputeLoss.t) :
  ComputeLoss.init h d ab = Ok self ->
  ComputeLoss.hyp self = h /\ ComputeLoss.det self = d /\
  ComputeLoss.autobalance self = ab /\
  (ComputeLoss.BCEcls self, ComputeLoss.BCEobj self, ComputeLoss.BCEtheta self)
  = ComputeLoss.criteria h /\
  ComputeLoss.balance self
  = (if (Detect.nl d =? 3)%nat then [4; 1; 0.4] else [4; 1; 0.25; 0.06; 0.02]) /\
  (if ab then ComputeLoss.stride_index d else Ok 0%nat) = Ok (ComputeLoss.ssi self).
Proof.
  unfold ComputeLoss.init. intros Hinit.
  destruct (smooth_BCE _) as [cp cn].
  destruct (ComputeLoss.criteria h) as [[c1 c2] c3].
  destruct (if ab then ComputeLoss.stride_index d else Ok 0%nat) as [ssi|e];
    [|discriminate].
  simpl in Hinit. injection Hinit as <-. simpl. repeat split; reflexivity.
Qed.

Lemma stride_index_inv (d : Detect.t) (i : nat) :
  ComputeLoss.stride_index d = Ok i ->
  (i < Detect.nl d)%nat /\ Detect.stride d i == 16.
Proof.
  unfold ComputeLoss.stride_index.
  destruct (find _ _) as [j|] eqn:E; [|discriminate].
  intros Hj. injection Hj as <-. apply find_some in E. destruct E as [Hin Heq].
  apply in_seq in Hin. apply Qeq_bool_eq in Heq. split; [lia|exact Heq].
Qed.

(** C7. With auto-balancing, a call updates the balance of every layer to
    [balance*0.9999 + 0.0001/obji], [obji] being the objectness loss of that
    layer, then divides every entry of the list by the entry of the
    reference layer, which is the layer of stride 16; after the call the
    balance of the reference layer is 1. *)
Theorem autobalance_renormalizes_reference `{Kernels} :
  (forall h d self,
      ComputeLoss.init h d true = Ok self ->
      ComputeLoss.autobalance self = true /\
      (ComputeLoss.ssi self < Detect.nl d)%nat /\
      Detect.stride d (ComputeLoss.ssi self) == 16) /\
  (forall (self self' : ComputeLoss.t) (p : list pred_layer) (targets : list target)
          (loss : Q) (items : list Q),
      ComputeLoss.autobalance self = true ->
      ComputeLoss.call self p targets = Ok (loss, items, self') ->
      exists a built lts d,
        ComputeLoss.run self p targets = Ok a /\
        ComputeLoss.build_targets self p targets = Ok built /\
        length lts = length p /\
        (forall i pi, nth_error p i = Some pi ->
           exists lt, nth_error lts i = Some lt /\
             ComputeLoss.layer_of self built i pi lt /\
             ~ ComputeLoss.obji lt == 0 /\
             nth i (ComputeLoss.bal a) 0
             = nth i (ComputeLoss.balance self) 0 * 0.9999
               + 0.0001 / ComputeLoss.obji lt) /\
        (forall j, (length p <= j)%nat ->
                   nth j (ComputeLoss.bal a) 0 = nth j (ComputeLoss.balance self) 0) /\
        nth_error (ComputeLoss.bal a) (ComputeLoss.ssi self) = Some d /\
        ~ d == 0 /\
        ComputeLoss.balance self' = map (fun x => x / d) (ComputeLoss.bal a) /\
        ComputeLoss.ssi self' = ComputeLoss.ssi self /\
        nth (ComputeLoss.ssi self') (ComputeLoss.balance self') 0 == 1).
Proof.
  split.
  - intros h d self Hinit.
    destruct (init_inv _ _ _ _ Hinit) as [_ [Hd [Hab [_ [_ Hssi]]]]].
    split; [exact Hab|]. rewrite <- Hd in Hssi.
    destruct (stride_index_inv _ _ Hssi) as [Hlt Hs]. rewrite Hd in Hlt, Hs. auto.
  - intros self self' p targets loss items Hab Hcall.
    destruct (call_inv _ _ _ _ _ _ Hcall) as [a [bs [Hrun [Hbs [Hren [Hself _]]]]]].
    destruct (run_inv _ _ _ _ Hrun)
      as [built [lts [Hb [Hlen [Hk [Hout [Hblen [_ [_ [_ [_ Htobj]]]]]]]]]]].
    rewrite Hab in Hren.
    assert (Hne : p <> []).
    { intros ->. simpl in Htobj. congruence. }
    assert (Hbne : ComputeLoss.bal a <> []).
    { destruct p as [|pi p']; [congruence|].
      destruct (Hk 0%nat pi eq_refl) as [_ [_ [_ [_ [Hlt _]]]]].
      intros E. rewrite <- Hblen, E in Hlt. simpl in Hlt. lia. }
    destruct (renormalize_inv _ _ _ Hren Hbne) as [d [Hd [Hnz Hbal]]].
    exists a, built, lts, d.
    split; [exact Hrun|]. split; [exact Hb|]. split; [exact Hlen|]. split.
    { intros i pi Hpi. destruct (Hk i pi Hpi) as [lt [Hlt [Hlo [Hz [_ Hnth]]]]].
      exists lt. rewrite Hab in Hnth. unfold ema in Hnth. auto. }
    split; [exact Hout|]. split; [exact Hd|]. split; [exact Hnz|].
    split; [exact Hbal|].
    assert (Hssi : ComputeLoss.ssi self' = ComputeLoss.ssi self)
      by (rewrite Hself; reflexivity).
    split; [exact Hssi|].
    rewrite Hssi, Hbal.
    rewrite (nth_indep _ 0 ((fun x => x / d) 0))
      by (rewrite length_map; apply nth_error_Some; congruence).
    rewrite (map_nth (fun x => x / d)).
    rewrite (nth_error_nth _ _ 0 Hd). unfold Qdiv. now apply Qmult_inv_r.
Qed.

Lemma layer_empty (g : Q) (clamped : bool) (anchor_t : Q) (na : nat)
      (anchors : nat -> Q * Q) (stride : Q) (w h : nat) :
  (0 < na)%nat ->
  Static.layer g clamped anchor_t na anchors stride w h [] = Ok [].
Proof.
  intros Hna. unfold Static.layer, Static.repeat_targets.
  destruct na as [|na']; [lia|]. reflexivity.
Qed.

Lemma build_empty (g : Q) (clamped : bool) (hyp : Hyp.t) (det : Detect.t)
      (p : list pred_layer) :
  (0 < Detect.na det)%nat -> (Detect.nl det <= length p)%nat ->
  exists built,
    Static.build g clamped hyp det p [] = Ok built /\
    forall i, (i < Detect.nl det)%nat -> nth_error built i = Some [].
Proof.
  intros Hna Hnl. unfold Static.build.
  destruct (mapM_ok
              (fun i => pi <- lookup p i ;;
                        Static.layer g clamped (Hyp.anchor_t hyp) (Detect.na det)
                          (Detect.anchors det i) (Detect.stride det i)
                          (p_w pi) (p_h pi) [])
              (fun _ cands => cands = [])
              (seq 0 (Detect.nl det))) as [built [Hb HF]].
  - intros i Hi. apply in_seq in Hi.
    destruct (nth_error p i) as [pi|] eqn:Hpi.
    2:{ apply nth_error_None in Hpi. lia. }
    apply lookup_Ok in Hpi. rewrite Hpi. simpl.
    rewrite layer_empty by exact Hna. now exists [].
  - exists built. split; [exact Hb|].
    destruct (Forall2_seq_nth _ 0 _ built [] HF) as [Hlen Hnth].
    intros i Hi. rewrite (nth_error_nth' built []) by lia.
    f_equal. exact (Hnth i Hi).
Qed.

Lemma Forall2_of_nth {A B : Type} (R : A -> B -> Prop) (l1 : list A) (l2 : list B) :
  length l1 = length l2 ->
  (forall k x y, nth_error l1 k = Some x -> nth_error l2 k = Some y -> R x y) ->
  Forall2 R l1 l2.
Proof.
  revert l2. induction l1 as [|x l1 IH]; intros [|y l2] Hlen HR;
    try discriminate; constructor.
  - exact (HR 0%nat x y eq_refl eq_refl).
  - apply IH; [simpl in Hlen; lia|].
    intros k x' y' Hx Hy. exact (HR (S k) x' y' Hx Hy).
Qed.

Lemma Qsum_zero {A : Type} (f : A -> Q) (l : list A) :
  (forall x, In x l -> f x == 0) -> Qsum (map f l) == 0.
Proof.
  induction l as [|x l IH]; intros Hl; simpl.
  - reflexivity.
  - rewrite (Hl x (or_introl eq_refl)), IH; [ring|].
    intros y Hy. apply Hl. now right.
Qed.

Lemma map2_map_l {A B C D : Type} (f : B -> C -> D) (g : A -> B)
      (l1 : list A) (l2 : list C) :
  map2 f (map g l1) l2 = map2 (fun x y => f (g x) y) l1 l2.
Proof.
  revert l2. induction l1 as [|x l1 IH]; intros [|y l2]; simpl; auto.
  now rewrite IH.
Qed.

Lemma layer_empty_inv (g : Q) (clamped : bool) (anchor_t : Q) (na : nat)
      (anchors : nat -> Q * Q) (stride : Q) (w h : nat) (cands : list candidate) :
  Static.layer g clamped anchor_t na anchors stride w h [] = Ok cands -> cands = [].
Proof.
  unfold Static.layer, Static.repeat_targets.
  destruct na as [|na']; cbn; intros E; [discriminate|]. now injection E as <-.
Qed.

Lemma build_empty_inv (g : Q) (clamped : bool) (hyp : Hyp.t) (det : Detect.t)
      (p : list pred_layer) (built : list (list candidate)) (i : nat)
      (cands : list candidate) :
  Static.build g clamped hyp det p [] = Ok built ->
  nth_error built i = Some cands -> cands = [].
Proof.
  unfold Static.build. intros Hb Hi.
  assert (Hil : (i < Detect.nl det)%nat).
  { rewrite <- (length_seq (Detect.nl det) 0), <- (mapM_length _ _ _ Hb).
    apply nth_error_Some. congruence. }
  destruct (mapM_nth _ _ _ i i Hb) as [y [Hy Hl]].
  { rewrite (nth_error_nth' (seq 0 (Detect.nl det)) 0%nat) by (now rewrite length_seq).
    now rewrite seq_nth by exact Hil. }
  rewrite Hi in Hy. injection Hy as <-.
  destruct (lookup p i) as [pi|e]; [|discriminate]. cbn [bind] in Hl.
  exact (layer_empty_inv _ _ _ _ _ _ _ _ _ Hl).
Qed.

Lemma map_of_flat_map {A B C : Type} (g : B -> C) (f : A -> list B) (l : list A) :
  map g (flat_map f l) = flat_map (fun x => map g (f x)) l.
Proof.
  induction l as [|x l IH]; simpl; [reflexivity|]. now rewrite map_app, IH.
Qed.

Lemma map2_map_map {A B C D : Type} (F : B -> C -> D) (f : A -> B) (g : A -> C)
      (l : list A) :
  map2 F (map f l) (map g l) = map (fun x => F (f x) (g x)) l.
Proof.
  induction l as [|x l IH]; simpl; [reflexivity|]. now rewrite IH.
Qed.

(** [pi[..., 4]], index by index. *)
Lemma obj_logits_spec (pi : pred_layer) :
  ComputeLoss.obj_logits pi
  = flat_map (fun b =>
      flat_map (fun a =>
        flat_map (fun gj => map (fun gi => p_at pi b a gj gi 4) (seq 0 (p_w pi)))
                 (seq 0 (p_h pi)))
               (seq 0 (p_na pi)))
             (seq 0 (p_bs pi)).
Proof.
  unfold ComputeLoss.obj_logits, positions.
  rewrite map_of_flat_map. apply flat_map_ext. intros b.
  rewrite map_of_flat_map. apply flat_map_ext. intros a.
  rewrite map_of_flat_map. apply flat_map_ext. intros gj.
  now rewrite map_map.
Qed.

(** The objectness loss of a layer with an all-zero target, for the
    criterion [__init__] makes: the mean, over every position of the
    layer, of the loss of its objectness logit against 0, with the focal
    factor when [fl_gamma > 0]. *)
Lemma objectness_background `{Kernels} (self : ComputeLoss.t) (pi : pred_layer) :
  ComputeLoss.built_by_init self ->
  ComputeLoss.objectness self pi (fun _ => 0)
  = Ok (Qmean
          (map (fun x =>
                  if Qltb 0 (Hyp.fl_gamma (ComputeLoss.hyp self))
                  then bce_with_logits (Hyp.obj_pw (ComputeLoss.hyp self)) x 0
                       * ((0 * 0.25 + (1 - 0) * (1 - 0.25))
                          * fpow (1 - (0 * sigmoid x + (1 - 0) * (1 - sigmoid x)))
                                 (Hyp.fl_gamma (ComputeLoss.hyp self)))
                  else bce_with_logits (Hyp.obj_pw (ComputeLoss.hyp self)) x 0)
               (flat_map (fun b =>
                  flat_map (fun a =>
                    flat_map (fun gj =>
                                map (fun gi => p_at pi b a gj gi 4) (seq 0 (p_w pi)))
                             (seq 0 (p_h pi)))
                           (seq 0 (p_na pi)))
                         (seq 0 (p_bs pi))))).
Proof.
  intros Hb. apply built_by_init_criteria in Hb.
  rewrite <- obj_logits_spec.
  unfold ComputeLoss.objectness, ComputeLoss.criteria in *.
  unfold ComputeLoss.obj_logits.
  destruct (Qltb 0 (Hyp.fl_gamma (ComputeLoss.hyp self))); injection Hb as _ -> _;
    cbn [criterion_forward]; unfold FocalLoss.forward, BCEWithLogitsLoss.forward;
    cbn [FocalLoss.init FocalLoss.loss_fcn FocalLoss.reduction_ FocalLoss.gamma
         FocalLoss.alpha BCEWithLogitsLoss.init BCEWithLogitsLoss.pos_weight
         BCEWithLogitsLoss.reduction_];
    rewrite !length_map, Nat.eqb_refl; cbn [bind reduce item];
    rewrite !map2_map_map, ?map_map; reflexivity.
Qed.

(** C5. With no ground truth, whenever a call of [ComputeLoss] on an object
    made by [__init__] returns, the box, classification and angle
    components are zero, the objectness component is [hyp['obj']] times
    the balance-weighted sum of the objectness losses of the layers, and
    the loss is that component times the batch size; the objectness loss
    of a layer is the mean, over all its positions, of the criterion on
    the objectness logit against the target 0.  The call returns when it
    gets one prediction tensor per layer, no more layers than balance
    entries and at least one anchor, and when, with auto-balancing, the
    balance entries and these objectness losses are positive. *)
Theorem zero_targets_objectness_only `{Kernels} (self : ComputeLoss.t)
        (p : list pred_layer) :
  ComputeLoss.built_by_init self ->
  let h := ComputeLoss.hyp self in
  (* the criterion of [__init__] on one logit against the target 0 *)
  let background := fun x : Q =>
    if Qltb 0 (Hyp.fl_gamma h)
    then bce_with_logits (Hyp.obj_pw h) x 0
         * ((0 * 0.25 + (1 - 0) * (1 - 0.25))
            * fpow (1 - (0 * sigmoid x + (1 - 0) * (1 - sigmoid x))) (Hyp.fl_gamma h))
    else bce_with_logits (Hyp.obj_pw h) x 0 in
  (* the objectness loss of a layer: every position of [pi[..., 4]] *)
  let obji := fun pi : pred_layer =>
    Qmean (map background
             (flat_map (fun b =>
                flat_map (fun a =>
                  flat_map (fun gj =>
                              map (fun gi => p_at pi b a gj gi 4) (seq 0 (p_w pi)))
                           (seq 0 (p_h pi)))
                         (seq 0 (p_na pi)))
                       (seq 0 (p_bs pi)))) in
  (forall loss items self',
      ComputeLoss.call self p [] = Ok (loss, items, self') ->
      exists lbox lobj lcls ltheta pi_last,
        items = [lbox; lobj; lcls; ltheta] /\
        nth_error p (length p - 1) = Some pi_last /\
        lbox == 0 /\ lcls == 0 /\ ltheta == 0 /\
        lobj == Hyp.obj h * Qsum (map2 Qmult (map obji p) (ComputeLoss.balance self)) /\
        loss == lobj * inject_Z (Z.of_nat (p_bs pi_last))) /\
  (p <> [] ->
   length p = Detect.nl (ComputeLoss.det self) ->
   (length p <= length (ComputeLoss.balance self))%nat ->
   (0 < Detect.na (ComputeLoss.det self))%nat ->
   (ComputeLoss.autobalance self = false \/
    (Forall (fun b => 0 < b) (ComputeLoss.balance self) /\
     (ComputeLoss.ssi self < length (ComputeLoss.balance self))%nat /\
     forall pi, In pi p -> 0 < obji pi)) ->
   exists loss items self', ComputeLoss.call self p [] = Ok (loss, items, self')).
Proof.
  intros Hinit h background obji.
  assert (Hobji : forall pi,
             ComputeLoss.objectness self pi (fun _ => 0) = Ok (obji pi))
    by (intros pi; exact (objectness_background self pi Hinit)).
  assert (Hterms : forall pi,
             ComputeLoss.terms self pi []
             = Ok {| ComputeLoss.box_i := 0; ComputeLoss.cls_i := 0;
                     ComputeLoss.theta_i := 0; ComputeLoss.obji := obji pi;
                     ComputeLoss.tobj_shape0 := p_bs pi |}).
  { intros pi. unfold ComputeLoss.terms. cbn [length Nat.eqb negb bind].
    now rewrite Hobji. }
  split.
  - (* what a returning call returns *)
    intros loss items self' Hcall.
    destruct (call_inv _ _ _ _ _ _ Hcall)
      as [a [bs [Hrun [Hbs [_ [_ [Hitems Hloss]]]]]]].
    destruct (run_inv _ _ _ _ Hrun)
      as [built [lts [Hb [Hlen [Hk [_ [_ [Hbox [Hcls [Hth [Hobj Htobj]]]]]]]]]]].
    unfold ComputeLoss.build_targets in Hb.
    assert (Hne : p <> []).
    { intros ->. simpl in Htobj. congruence. }
    destruct (last_map_Some p_bs p None Hne) as [pi_last [Hlast Hl]].
    rewrite Htobj, Hl in Hbs. injection Hbs as <-.
    assert (Hlts : lts = map (fun pi =>
                     {| ComputeLoss.box_i := 0; ComputeLoss.cls_i := 0;
                        ComputeLoss.theta_i := 0; ComputeLoss.obji := obji pi;
                        ComputeLoss.tobj_shape0 := p_bs pi |}) p).
    { apply (nth_ext _ _ {| ComputeLoss.box_i := 0; ComputeLoss.cls_i := 0;
                            ComputeLoss.theta_i := 0; ComputeLoss.obji := 0;
                            ComputeLoss.tobj_shape0 := 0 |}
                         {| ComputeLoss.box_i := 0; ComputeLoss.cls_i := 0;
                            ComputeLoss.theta_i := 0; ComputeLoss.obji := 0;
                            ComputeLoss.tobj_shape0 := 0 |});
        [now rewrite length_map|].
      intros k Hklt. rewrite Hlen in Hklt.
      destruct (nth_error p k) as [pi|] eqn:Hpi; [|apply nth_error_None in Hpi; lia].
      destruct (Hk k pi Hpi) as [lt [Hlt [[cands [Hc Ht]] _]]].
      rewrite (build_empty_inv _ _ _ _ _ _ _ _ Hb Hc), Hterms in Ht.
      injection Ht as <-.
      rewrite (nth_error_nth _ _ _ Hlt).
      symmetry. apply nth_error_nth.
      now rewrite nth_error_map, Hpi. }
    rewrite Hlts, map_map in Hbox, Hcls, Hth. cbn [ComputeLoss.box_i
      ComputeLoss.cls_i ComputeLoss.theta_i] in Hbox, Hcls, Hth.
    rewrite Qsum_zero in Hbox by (intros; reflexivity).
    rewrite Qsum_zero in Hcls by (intros; reflexivity).
    rewrite Qsum_zero in Hth by (intros; reflexivity).
    rewrite Hlts, map2_map_l in Hobj. cbn [ComputeLoss.obji] in Hobj.
    eexists _, _, _, _, pi_last.
    split; [exact Hitems|]. split; [exact Hlast|].
    split; [rewrite Hbox; ring|]. split; [rewrite Hcls; ring|].
    split; [rewrite Hth; ring|].
    split; [rewrite Hobj, map2_map_l; unfold h; ring|].
    rewrite Hloss, Hbox, Hcls, Hth. ring.
  - (* when it returns *)
    intros Hne Hnl Hbal Hna Hauto.
    destruct (build_empty 0.5 true (ComputeLoss.hyp self) (ComputeLoss.det self) p Hna)
      as [built [Hbuilt Hnth]]; [lia|].
    apply (call_total self p [] built Hne Hbuilt).
    + intros i pi Hpi.
      assert (Hi : (i < Detect.nl (ComputeLoss.det self))%nat)
        by (rewrite <- Hnl; apply nth_error_Some; congruence).
      eexists. split; [exists []; split; [exact (Hnth i Hi)|apply Hterms]|].
      cbn [ComputeLoss.obji].
      destruct Hauto as [Hf|[_ [_ Hpos]]]; [now left|right].
      apply Hpos. exact (nth_error_In _ _ Hpi).
    + exact Hbal.
    + destruct Hauto as [Hf|[Hpos [Hssi _]]]; [now left|right; auto].
Qed.

(** ** Criteria and the angle head *)

(** C8. With [hyp['fl_gamma'] <= 0] the classification, objectness and
    angle criteria made by [__init__] are the plain BCE-with-logits losses:
    what they compute is what the unwrapped losses compute.  A criterion is
    a focal wrapper exactly when gamma is positive. *)
Theorem nonpositive_gamma_disables_focal `{Kernels} (h : Hyp.t) (d : Detect.t)
        (ab : bool) (self : ComputeLoss.t) :
  ComputeLoss.init h d ab = Ok self ->
  (Hyp.fl_gamma h <= 0 ->
   ComputeLoss.BCEcls self = BCE (BCEWithLogitsLoss.init (Hyp.cls_pw h)) /\
   ComputeLoss.BCEobj self = BCE (BCEWithLogitsLoss.init (Hyp.obj_pw h)) /\
   ComputeLoss.BCEtheta self = BCE (BCEWithLogitsLoss.init (Hyp.theta_pw h)) /\
   forall pred true_,
     criterion_forward (ComputeLoss.BCEcls self) pred true_
     = BCEWithLogitsLoss.forward (BCEWithLogitsLoss.init (Hyp.cls_pw h)) pred true_ /\
     criterion_forward (ComputeLoss.BCEobj self) pred true_
     = BCEWithLogitsLoss.forward (BCEWithLogitsLoss.init (Hyp.obj_pw h)) pred true_ /\
     criterion_forward (ComputeLoss.BCEtheta self) pred true_
     = BCEWithLogitsLoss.forward (BCEWithLogitsLoss.init (Hyp.theta_pw h)) pred true_) /\
  ((exists f, ComputeLoss.BCEcls self = Focal f) <-> 0 < Hyp.fl_gamma h) /\
  ((exists f, ComputeLoss.BCEobj self = Focal f) <-> 0 < Hyp.fl_gamma h) /\
  ((exists f, ComputeLoss.BCEtheta self = Focal f) <-> 0 < Hyp.fl_gamma h).
Proof.
  intros Hinit. destruct (init_inv _ _ _ _ Hinit) as [_ [_ [_ [Hc _]]]].
  unfold ComputeLoss.criteria in Hc.
  destruct (Qltb 0 (Hyp.fl_gamma h)) eqn:Eg; injection Hc as -> -> ->.
  - apply Qltb_lt in Eg. split.
    + intros Hle. exfalso. apply (Qlt_not_le _ _ Eg Hle).
    + repeat split; intros; try exact Eg; eexists; reflexivity.
  - apply Qltb_ge in Eg. split.
    + intros _. repeat split; reflexivity.
    + repeat split; intros Hx;
        lazymatch type of Hx with
        | ex _ => destruct Hx as [f Hf]; discriminate Hf
        | _ => exfalso; apply (Qlt_not_le _ _ Hx Eg)
        end.
Qed.

Lemma sigmoid_bin_init_length (bin_count : nat) (min max reg_scale : Q)
      (use_loss_regression use_fw_regression : bool) (BCE_weight smooth_eps : Q)
      (self : SigmoidBin.t) :
  SigmoidBin.init bin_count min max reg_scale use_loss_regression
                  use_fw_regression BCE_weight smooth_eps = Ok self ->
  SigmoidBin.bin_count self = bin_count /\
  SigmoidBin.length_ self = (bin_count + 1)%nat.
Proof.
  unfold SigmoidBin.init. intros Hinit.
  destruct (bin_count =? 0)%nat; [discriminate|].
  destruct (SigmoidBin.range _ _ _) as [bins|e]; [|discriminate].
  simpl in Hinit. injection Hinit as <-. split; reflexivity.
Qed.

(** C9. A [SigmoidBin] made with [bin_count] bins has length
    [bin_count + 1]; [forward] and [training_loss] raise an assertion error
    with its message when the last dimension of the input differs from the
    length, and [training_loss] also when the batch sizes of prediction and
    target differ; whatever they return has one value per input row, so no
    input is truncated or padded. *)
Theorem sigmoid_bin_shape_contract `{Kernels} (bin_count : nat) (min max reg_scale : Q)
        (use_loss_regression use_fw_regression : bool) (BCE_weight smooth_eps : Q)
        (self : SigmoidBin.t) :
  SigmoidBin.init bin_count min max reg_scale use_loss_regression
                  use_fw_regression BCE_weight smooth_eps = Ok self ->
  SigmoidBin.get_length self = (bin_count + 1)%nat /\
  (forall pred,
      dim1 pred <> SigmoidBin.get_length self ->
      SigmoidBin.forward self pred
      = Raise (AssertionError
                 (SigmoidBin.length_message (dim1 pred) (bin_count + 1)))) /\
  (forall pred target,
      dim1 pred <> SigmoidBin.get_length self ->
      SigmoidBin.training_loss self pred target
      = Raise (AssertionError
                 (SigmoidBin.length_message (dim1 pred) (bin_count + 1)))) /\
  (forall pred target,
      dim1 pred = SigmoidBin.get_length self ->
      dim0 pred <> length target ->
      SigmoidBin.training_loss self pred target
      = Raise (AssertionError
                 (SigmoidBin.batch_message (dim0 pred) (length target)))) /\
  (forall pred result,
      SigmoidBin.forward self pred = Ok result ->
      dim1 pred = (bin_count + 1)%nat /\ length result = dim0 pred) /\
  (forall pred target loss out_result,
      SigmoidBin.training_loss self pred target = Ok (loss, out_result) ->
      dim1 pred = (bin_count + 1)%nat /\ dim0 pred = length target /\
      length out_result = dim0 pred).
Proof.
  intros Hinit. destruct (sigmoid_bin_init_length _ _ _ _ _ _ _ _ _ Hinit) as [_ Hlen].
  unfold SigmoidBin.get_length. rewrite Hlen.
  split; [reflexivity|]. split; [|split; [|split; [|split]]].
  - intros pred Hne. unfold SigmoidBin.forward. rewrite Hlen.
    destruct (Nat.eqb_spec (dim1 pred) (bin_count + 1)); [contradiction|reflexivity].
  - intros pred target Hne. unfold SigmoidBin.training_loss. rewrite Hlen.
    destruct (Nat.eqb_spec (dim1 pred) (bin_count + 1)); [contradiction|reflexivity].
  - intros pred target Heq Hne. unfold SigmoidBin.training_loss. rewrite Hlen.
    destruct (Nat.eqb_spec (dim1 pred) (bin_count + 1)); [|contradiction].
    destruct (Nat.eqb_spec (dim0 pred) (length target)); [contradiction|reflexivity].
  - intros pred result Hf. unfold SigmoidBin.forward in Hf. rewrite Hlen in Hf.
    destruct (Nat.eqb_spec (dim1 pred) (bin_count + 1)); [|discriminate].
    simpl in Hf. split; [assumption|].
    apply mapM_length in Hf. now rewrite length_seq in Hf.
  - intros pred target loss out_result Hf.
    unfold SigmoidBin.training_loss in Hf. rewrite Hlen in Hf.
    destruct (Nat.eqb_spec (dim1 pred) (bin_count + 1)); [|discriminate].
    destruct (Nat.eqb_spec (dim0 pred) (length target)); [|discriminate].
    simpl in Hf. split; [assumption|]. split; [assumption|].
    destruct (mapM _ (seq 0 (dim0 pred))) as [rows|e1] eqn:Hrows; [|discriminate].
    simpl in Hf.
    destruct (BCEWithLogitsLoss.forward _ _ _) as [o|e2]; [|discriminate].
    simpl in Hf. destruct (item o) as [loss_bin|e3]; [|discriminate].
    simpl in Hf. injection Hf as _ <-.
    apply mapM_length in Hrows. now rewrite !length_map, Hrows, length_seq.
Qed.

(** C3.  The specification says that a (ground truth, anchor) pair passing
    the gate yields between 1 and 3 candidates, the one of the centre cell
    among them.  The code yields the candidate of the centre cell first
    and at most 3 candidates whenever no grid coordinate of the centre is
    an integer ([pair_candidates]); for a centre on the grid lines it
    yields more.  Here: one layer of stride 16 and 10 x 10 cells, one anchor
    of 2 x 2 cells, one box of 32 x 32 pixels centred at (32, 32), i.e. at
    (2, 2) in grid units.  The pair passes the gate, and both
    [ComputeLoss.build_targets] and [find_3_positive] return five
    candidates for it, three of them for the centre cell (2, 2). *)
Theorem centre_on_grid_lines_yields_five_candidates :
  let t := example_target 32 32 32 32 in
  let p := [example_pred 10 10] in
  Static.shape_ok (Hyp.anchor_t example_hyp) (Detect.anchors example_det 0 0)
                  (Static.scale (Detect.stride example_det 0) t) = true /\
  (exists cands,
      ComputeLoss.build_targets example_self p [t] = Ok [cands] /\
      length (filter (Static.from_pair 0 0) cands) = 5%nat /\
      map (fun c => (c_off c, c_gi c, c_gj c)) cands
      = [(0%nat, 2%Z, 2%Z); (1%nat, 1%Z, 2%Z); (2%nat, 2%Z, 1%Z);
         (3%nat, 2%Z, 2%Z); (4%nat, 2%Z, 2%Z)]) /\
  (exists cands,
      ComputeLossOTA.find_3_positive example_hyp example_det p [t] = Ok [cands] /\
      length (filter (Static.from_pair 0 0) cands) = 5%nat /\
      map (fun c => (c_off c, c_gi c, c_gj c)) cands
      = [(0%nat, 2%Z, 2%Z); (1%nat, 1%Z, 2%Z); (2%nat, 2%Z, 1%Z);
         (3%nat, 2%Z, 2%Z); (4%nat, 2%Z, 2%Z)]).
Proof.
  cbv zeta. split; [vm_compute; reflexivity|].
  split; eexists; (split; [vm_compute; reflexivity|]); split; vm_compute; reflexivity.
Qed.

(** * Further properties of the code *)

(** ** [SigmoidBin] *)

Lemma inject_nat_pos (n : nat) : (0 < n)%nat -> 0 < inject_Z (Z.of_nat n).
Proof.
  intros Hn. change 0 with (inject_Z 0). rewrite <- Zlt_Qlt. lia.
Qed.

Lemma Qdiv_pos (a b : Q) : 0 < a -> 0 < b -> 0 < a / b.
Proof.
  intros Ha Hb. unfold Qdiv. apply Qmult_lt_0_compat; [exact Ha|].
  now apply Qinv_lt_0_compat.
Qed.

Lemma Qdiv_lt_1 (a b : Q) : 0 < b -> a < b -> a / b < 1.
Proof.
  intros Hb Hab. apply Qlt_shift_div_r; [exact Hb|]. lra.
Qed.

Lemma Qdiv_nonneg (a b : Q) : 0 <= a -> 0 < b -> 0 <= a / b.
Proof.
  intros Ha Hb. apply Qle_shift_div_l; [exact Hb|]. lra.
Qed.

(** The bins a successful [__init__] holds, and its other fields. *)
Lemma sigmoid_bin_init_inv (bin_count : nat) (min max reg_scale : Q)
      (use_loss_regression use_fw_regression : bool) (BCE_weight smooth_eps : Q)
      (self : SigmoidBin.t) :
  SigmoidBin.init bin_count min max reg_scale use_loss_regression
                  use_fw_regression BCE_weight smooth_eps = Ok self ->
  let bc := inject_Z (Z.of_nat bin_count) in
  let scale := max - min in
  (0 < bin_count)%nat /\
  SigmoidBin.range (min + (scale / 2) / bc) (max - (scale / 2) / bc + 0.0001)
                   (scale / bc) = Ok (SigmoidBin.bins self) /\
  SigmoidBin.bin_count self = bin_count /\
  SigmoidBin.length_ self = (bin_count + 1)%nat /\
  SigmoidBin.min self = min /\ SigmoidBin.max self = max /\
  SigmoidBin.step self = scale / bc /\
  SigmoidBin.reg_scale self = reg_scale /\
  SigmoidBin.use_fw_regression self = use_fw_regression /\
  SigmoidBin.use_loss_regression self = use_loss_regression /\
  SigmoidBin.BCEbins self = BCEWithLogitsLoss.init BCE_weight /\
  SigmoidBin.cp self = 1 - 0.5 * smooth_eps /\
  SigmoidBin.cn self = 0.5 * smooth_eps.
Proof.
  intros Hinit bc scale. unfold SigmoidBin.init in Hinit.
  destruct (Nat.eqb_spec bin_count 0) as [|Hbc]; [discriminate|].
  fold scale bc in Hinit.
  destruct (SigmoidBin.range _ _ _) as [bins|e] eqn:Hr; [|discriminate].
  simpl in Hinit. injection Hinit as <-. simpl.
  repeat split; auto. lia.
Qed.

Lemma range_ascending (start end_ step : Q) (n : Z) :
  0 < step -> (0 <= n)%Z ->
  start + inject_Z n * step <= end_ -> end_ < start + inject_Z (n + 1) * step ->
  SigmoidBin.range start end_ step
  = Ok (map (fun i => start + inject_Z (Z.of_nat i) * step) (seq 0 (Z.to_nat (n + 1)))).
Proof.
  intros Hstep Hn Hlo Hhi. unfold SigmoidBin.range.
  destruct (Qeq_bool step 0) eqn:E0; [apply Qeq_bool_eq in E0; lra|].
  assert (E1 : Qltb end_ start = false).
  { apply Qltb_ge.
    assert (0 <= inject_Z n) by (change 0 with (inject_Z 0); rewrite <- Zle_Qle; lia).
    assert (0 <= inject_Z n * step) by (apply Qmult_le_0_compat; lra).
    lra. }
  assert (E2 : Qltb step 0 = false) by (apply Qltb_ge; lra).
  rewrite E1, E2, andb_false_r. cbn [andb orb].
  assert (F : Qfloor ((end_ - start) / step) = n).
  { apply Qfloor_unique.
    - apply Qle_shift_div_l; [exact Hstep|]. lra.
    - apply Qlt_shift_div_r; [exact Hstep|]. lra. }
  now rewrite F.
Qed.

Lemma Qfloor_add_Z (z : Z) (x : Q) : Qfloor (inject_Z z + x) = (z + Qfloor x)%Z.
Proof.
  pose proof (Qfloor_le x) as F1. pose proof (Qlt_floor x) as F2.
  apply Qfloor_unique.
  - rewrite inject_Z_plus. lra.
  - replace (z + Qfloor x + 1)%Z with (z + (Qfloor x + 1))%Z by lia.
    rewrite inject_Z_plus. lra.
Qed.

Lemma Qdiv_mult_cancel (a b : Q) : ~ b == 0 -> a / b * b == a.
Proof. intros Hb. field. exact Hb. Qed.

(** The bins of a range with [min < max]: the centres of [bin_count]
    equal parts of the range, and one more for every whole step that fits
    into the slack 0.0001 added to the upper bound. *)
Lemma init_bins (bin_count : nat) (min max reg_scale : Q)
      (use_loss_regression use_fw_regression : bool) (BCE_weight smooth_eps : Q) :
  (0 < bin_count)%nat -> min < max ->
  let step := (max - min) / inject_Z (Z.of_nat bin_count) in
  exists self,
    SigmoidBin.init bin_count min max reg_scale use_loss_regression
                    use_fw_regression BCE_weight smooth_eps = Ok self /\
    SigmoidBin.bins self
    = map (fun i => (min + ((max - min) / 2) / inject_Z (Z.of_nat bin_count))
                    + inject_Z (Z.of_nat i) * step)
          (seq 0 (bin_count + Z.to_nat (Qfloor (0.0001 / step)))).
Proof.
  intros Hbc Hlt step. unfold SigmoidBin.init.
  destruct (Nat.eqb_spec bin_count 0) as [|_]; [lia|].
  set (b := inject_Z (Z.of_nat bin_count)).
  assert (Hb : 0 < b) by (now apply inject_nat_pos).
  assert (Hs : 0 < max - min) by lra.
  assert (Hstep : 0 < step) by (now apply Qdiv_pos).
  assert (He : 0 <= 0.0001 / step) by (apply Qdiv_nonneg; [lra|exact Hstep]).
  assert (Hk : (0 <= Qfloor (0.0001 / step))%Z).
  { change 0%Z with (Qfloor 0). now apply Qfloor_resp_le. }
  pose proof (Qfloor_le (0.0001 / step)) as K1.
  pose proof (Qlt_floor (0.0001 / step)) as K2.
  set (k := Qfloor (0.0001 / step)) in *.
  assert (Hmul : 0.0001 / step * step == 0.0001) by (apply Qdiv_mult_cancel; lra).
  assert (K1' : inject_Z k * step <= 0.0001).
  { rewrite <- Hmul. apply Qmult_le_compat_r; lra. }
  assert (K2' : 0.0001 < inject_Z (k + 1) * step).
  { rewrite <- Hmul. apply Qmult_lt_compat_r; lra. }
  assert (Hhalf : (max - min) / 2 / b + (max - min) / 2 / b == step).
  { unfold step. fold b. field. lra. }
  assert (Hfull : b * step == max - min).
  { unfold step. fold b. field. lra. }
  fold b. change ((max - min) / b) with step.
  rewrite (range_ascending _ _ _ (Z.of_nat bin_count - 1 + k)).
  - simpl. eexists. split; [reflexivity|]. simpl.
    replace (Z.to_nat (Z.of_nat bin_count - 1 + k + 1)) with (bin_count + Z.to_nat k)%nat
      by lia.
    reflexivity.
  - exact Hstep.
  - lia.
  - unfold Z.sub. rewrite !inject_Z_plus, inject_Z_opp. fold b.
    change (inject_Z 1) with 1. lra.
  - replace (Z.of_nat bin_count - 1 + k + 1)%Z with (Z.of_nat bin_count + - (1) + (k + 1))%Z
      by lia.
    rewrite !inject_Z_plus, inject_Z_opp. fold b.
    change (inject_Z 1) with 1.
    rewrite inject_Z_plus in K2'. change (inject_Z 1) with 1 in K2'. lra.
Qed.

(** With more than 0.0001 per bin there are exactly [bin_count] bins. *)
Lemma init_regular (bin_count : nat) (min max reg_scale : Q)
      (use_loss_regression use_fw_regression : bool) (BCE_weight smooth_eps : Q) :
  (0 < bin_count)%nat -> min < max ->
  let step := (max - min) / inject_Z (Z.of_nat bin_count) in
  0.0001 < step ->
  exists self,
    SigmoidBin.init bin_count min max reg_scale use_loss_regression
                    use_fw_regression BCE_weight smooth_eps = Ok self /\
    length (SigmoidBin.bins self) = bin_count /\
    forall i, (i < bin_count)%nat ->
      nth i (SigmoidBin.bins self) 0 == min + (inject_Z (Z.of_nat i) + 0.5) * step.
Proof.
  intros Hbc Hlt step Hstep.
  destruct (init_bins bin_count min max reg_scale use_loss_regression
              use_fw_regression BCE_weight smooth_eps Hbc Hlt) as [self [Hinit Hbins]].
  fold step in Hbins.
  assert (F : Qfloor (0.0001 / step) = 0%Z).
  { apply Qfloor_unique.
    - apply Qdiv_nonneg; lra.
    - apply Qdiv_lt_1; lra. }
  rewrite F, Nat.add_0_r in Hbins.
  exists self. split; [exact Hinit|]. rewrite Hbins. split.
  - now rewrite length_map, length_seq.
  - intros i Hi. rewrite nth_map_seq by exact Hi.
    unfold step. field.
    assert (0 < inject_Z (Z.of_nat bin_count)) by (now apply inject_nat_pos). lra.
Qed.

(** X1. How [SigmoidBin.__init__] ends.  It raises [ZeroDivisionError]
    exactly for [bin_count = 0].  For a positive [bin_count] it raises
    the [RuntimeError] of [torch.range] exactly when [max = min] (zero
    step) or when [max < min] and the reversed range is shorter than the
    slack 0.0001 added to its upper bound; in every other case it returns
    an object. *)
Theorem sigmoid_bin_init_outcome (bin_count : nat) (min max reg_scale : Q)
        (use_loss_regression use_fw_regression : bool) (BCE_weight smooth_eps : Q) :
  let r := SigmoidBin.init bin_count min max reg_scale use_loss_regression
                           use_fw_regression BCE_weight smooth_eps in
  let slack := (min - max) * (1 - 1 / inject_Z (Z.of_nat bin_count)) in
  (r = Raise ZeroDivisionError <-> bin_count = 0%nat) /\
  (r = Raise RuntimeError <->
   (0 < bin_count)%nat /\ (max == min \/ (max < min /\ slack < 0.0001))) /\
  ((exists self, r = Ok self) <->
   (0 < bin_count)%nat /\ (min < max \/ (max < min /\ 0.0001 <= slack))).
Proof.
  intros r slack. subst r. unfold SigmoidBin.init.
  destruct (Nat.eqb_spec bin_count 0) as [->|Hbc].
  { split; [tauto|]. split; (split; [intros Hx|intros [Hx _]; lia]).
    - discriminate.
    - destruct Hx; discriminate. }
  set (b := inject_Z (Z.of_nat bin_count)) in *.
  assert (Hb : 0 < b) by (apply inject_nat_pos; lia).
  set (h := (max - min) / 2 / b).
  set (step := (max - min) / b).
  assert (Hstep : step == h + h) by (unfold step, h; field; lra).
  assert (Hslack : slack == (min - max) + step) by (unfold slack, step; field; lra).
  assert (Hsign : b * step == max - min) by (unfold step; field; lra).
  assert (Hpos : 0 < max - min -> 0 < step) by (intros; now apply Qdiv_pos).
  assert (Hneg : max - min < 0 -> step < 0).
  { intros Hn. assert (0 < (min - max) / b) by (apply Qdiv_pos; lra).
    assert (step == - ((min - max) / b)) by (unfold step; field; lra). lra. }
  assert (Hzero : max == min -> step == 0).
  { intros E. unfold step. rewrite E. field. lra. }
  unfold SigmoidBin.range.
  destruct (Qeq_bool step 0) eqn:E0.
  - apply Qeq_bool_eq in E0.
    assert (Heq : max == min).
    { destruct (Q_dec max min) as [[Hl|Hg]|He]; [| |exact He].
      - specialize (Hneg ltac:(lra)). lra.
      - specialize (Hpos ltac:(lra)). lra. }
    simpl. split; [split; [discriminate|lia]|]. split.
    + split; [intros _; split; [lia|now left]|reflexivity].
    + split; [intros [self Hself]; discriminate|].
      intros [_ [Hlt|[Hlt _]]]; lra.
  - apply Qeq_bool_neq in E0.
    assert (Hne : ~ max == min) by (intros E; apply E0; now apply Hzero).
    destruct (Qltb 0 step) eqn:E1.
    + apply Qltb_lt in E1.
      assert (Hlt : min < max).
      { destruct (Q_dec max min) as [[Hl|Hg]|He]; [|exact Hg|contradiction].
        specialize (Hneg ltac:(lra)). lra. }
      assert (Hb1 : 0 <= b - 1).
      { assert (inject_Z 1 <= b) by (unfold b; rewrite <- Zle_Qle; lia).
        change (inject_Z 1) with 1 in *. lra. }
      assert (Hrest : 0 <= (b - 1) * step) by (apply Qmult_le_0_compat; lra).
      assert (E2 : Qltb (max - h + 0.0001) (min + h) = false) by (apply Qltb_ge; lra).
      assert (E3 : Qltb step 0 = false) by (apply Qltb_ge; lra).
      rewrite E2, E3. simpl.
      split; [split; [discriminate|lia]|]. split.
      * split; [discriminate|]. intros [_ [E|[Hx _]]]; [contradiction|lra].
      * split; [intros _; split; [lia|now left]|]. intros _. eexists. reflexivity.
    + apply Qltb_ge in E1.
      assert (Hlt : max < min).
      { destruct (Q_dec max min) as [[Hl|Hg]|He]; [exact Hl| |contradiction].
        specialize (Hpos ltac:(lra)). lra. }
      assert (E3 : Qltb step 0 = true) by (apply Qltb_lt, Hneg; lra).
      rewrite E3. cbn [andb orb].
      destruct (Qltb (min + h) (max - h + 0.0001)) eqn:E4.
      * apply Qltb_lt in E4. simpl.
        split; [split; [discriminate|lia]|]. split.
        -- split; [intros _; split; [lia|right; split; [exact Hlt|lra]]|reflexivity].
        -- split; [intros [self Hself]; discriminate|].
           intros [_ [Hx|[_ Hx]]]; lra.
      * apply Qltb_ge in E4. simpl.
        split; [split; [discriminate|lia]|]. split.
        -- split; [discriminate|]. intros [_ [E|[_ Hx]]]; [contradiction|lra].
        -- split; [intros _; split; [lia|right; split; [exact Hlt|lra]]|].
           intros _. eexists. reflexivity.
Qed.

(** X2. For [min < max] and a step [(max - min) / bin_count] above the
    slack 0.0001 that [__init__] adds to the upper bound of [torch.range],
    [SigmoidBin.__init__] makes exactly [bin_count] bins; bin [i] is
    [min + (i + 1/2) * step], the centre of the [i]-th of [bin_count]
    parts of [[min, max]], and lies strictly inside [[min, max]]. *)
Theorem sigmoid_bin_bins_are_centres (bin_count : nat) (min max reg_scale : Q)
        (use_loss_regression use_fw_regression : bool) (BCE_weight smooth_eps : Q) :
  (0 < bin_count)%nat -> min < max ->
  let step := (max - min) / inject_Z (Z.of_nat bin_count) in
  0.0001 < step ->
  exists self,
    SigmoidBin.init bin_count min max reg_scale use_loss_regression
                    use_fw_regression BCE_weight smooth_eps = Ok self /\
    length (SigmoidBin.bins self) = bin_count /\
    forall i, (i < bin_count)%nat ->
      nth i (SigmoidBin.bins self) 0 == min + (inject_Z (Z.of_nat i) + 0.5) * step /\
      min < nth i (SigmoidBin.bins self) 0 /\ nth i (SigmoidBin.bins self) 0 < max.
Proof.
  intros Hbc Hlt step Hbig.
  destruct (init_regular bin_count min max reg_scale use_loss_regression
              use_fw_regression BCE_weight smooth_eps Hbc Hlt Hbig)
    as [self [Hinit [Hlen Hnth]]].
  fold step in Hnth.
  assert (Hb : 0 < inject_Z (Z.of_nat bin_count)) by (now apply inject_nat_pos).
  assert (Hstep : 0 < step) by (apply Qdiv_pos; lra).
  exists self. split; [exact Hinit|]. split; [exact Hlen|].
  intros i Hi. split; [exact (Hnth i Hi)|]. rewrite (Hnth i Hi).
  assert (Hi0 : 0 <= inject_Z (Z.of_nat i))
    by (change 0 with (inject_Z 0); rewrite <- Zle_Qle; lia).
  assert (Hi1 : inject_Z (Z.of_nat i) + 1 <= inject_Z (Z.of_nat bin_count)).
  { change 1 with (inject_Z 1). rewrite <- inject_Z_plus, <- Zle_Qle. lia. }
  assert (Hfull : inject_Z (Z.of_nat bin_count) * step == max - min)
    by (unfold step; field; lra).
  assert (0 <= inject_Z (Z.of_nat i) * step) by (apply Qmult_le_0_compat; lra).
  assert ((inject_Z (Z.of_nat i) + 1) * step <= inject_Z (Z.of_nat bin_count) * step)
    by (apply Qmult_le_compat_r; lra).
  clearbody step. split; lra.
Qed.

Lemma clampQ_range (lo hi x : Q) : lo <= hi -> lo <= clampQ lo hi x /\ clampQ lo hi x <= hi.
Proof.
  intros Hle. unfold clampQ.
  destruct (Q.max_spec x lo) as [[A E]|[A E]];
    destruct (Q.min_spec (Qmax x lo) hi) as [[B E']|[B E']];
    rewrite E'; rewrite ?E; rewrite E in B; split; lra.
Qed.

Lemma clampQ_inside (lo hi x : Q) : lo <= x -> x <= hi -> clampQ lo hi x == x.
Proof.
  intros H1 H2. unfold clampQ.
  rewrite (Q.max_l x lo H1). apply Q.min_l. exact H2.
Qed.

(** Clamping into an interval that holds [y] brings no value further from
    [y]. *)
Lemma clampQ_closer (lo hi x y e : Q) :
  lo <= y -> y <= hi -> Qabs (x - y) <= e -> Qabs (clampQ lo hi x - y) <= e.
Proof.
  intros H1 H2 Hx. apply Qabs_Qle_condition in Hx. apply Qabs_Qle_condition.
  unfold clampQ.
  destruct (Q.max_spec x lo) as [[A E]|[A E]];
    destruct (Q.min_spec (Qmax x lo) hi) as [[B E']|[B E']];
    rewrite E'; rewrite ?E; rewrite E in B; split; lra.
Qed.

Lemma pred_bin_length (self : SigmoidBin.t) (pred : matrix) (i : nat) :
  dim1 pred = (SigmoidBin.bin_count self + 1)%nat ->
  length (SigmoidBin.pred_bin self pred i) = SigmoidBin.bin_count self.
Proof.
  intros Hd. unfold SigmoidBin.pred_bin.
  rewrite length_firstn, length_skipn, row_length. lia.
Qed.

Lemma nonempty_length {A : Type} (l : list A) : (0 < length l)%nat -> l <> [].
Proof. destruct l; simpl; [lia|discriminate]. Qed.

(** X3. [SigmoidBin.forward] on an input of the right width (range with
    [min < max], step above 0.0001) raises nothing and returns one value
    per row, each within [[min, max]]; without forward regression the
    value is the centre of the bin with the largest logit. *)
Theorem sigmoid_bin_forward_in_range (bin_count : nat) (min max reg_scale : Q)
        (use_loss_regression use_fw_regression : bool) (BCE_weight smooth_eps : Q)
        (self : SigmoidBin.t) (pred : matrix) :
  SigmoidBin.init bin_count min max reg_scale use_loss_regression
                  use_fw_regression BCE_weight smooth_eps = Ok self ->
  min < max ->
  let step := (max - min) / inject_Z (Z.of_nat bin_count) in
  0.0001 < step ->
  dim1 pred = (bin_count + 1)%nat ->
  exists result,
    SigmoidBin.forward self pred = Ok result /\
    length result = dim0 pred /\
    (forall i, (i < dim0 pred)%nat ->
       min <= nth i result 0 /\ nth i result 0 <= max) /\
    (use_fw_regression = false ->
     forall i, (i < dim0 pred)%nat ->
       nth i result 0
       == min + (inject_Z (Z.of_nat (argmax (SigmoidBin.pred_bin self pred i))) + 0.5)
                * step).
Proof.
  intros Hinit Hlt step Hstep Hdim.
  destruct (sigmoid_bin_init_inv _ _ _ _ _ _ _ _ _ Hinit)
    as [Hbc [_ [Ebc [Elen [Emin [Emax [Estep [Ereg [Efw _]]]]]]]]].
  destruct (init_regular bin_count min max reg_scale use_loss_regression
              use_fw_regression BCE_weight smooth_eps Hbc Hlt Hstep)
    as [self' [Hinit' [Hblen Hbnth]]].
  rewrite Hinit in Hinit'. injection Hinit' as <-. fold step in Hbnth.
  assert (Hb : 0 < inject_Z (Z.of_nat bin_count)) by (now apply inject_nat_pos).
  assert (Hfull : inject_Z (Z.of_nat bin_count) * step == max - min)
    by (unfold step; field; lra).
  assert (Hcentre : forall k, (k < bin_count)%nat ->
            min <= nth k (SigmoidBin.bins self) 0 /\ nth k (SigmoidBin.bins self) 0 <= max).
  { intros k Hk. rewrite (Hbnth k Hk).
    assert (Hk0 : 0 <= inject_Z (Z.of_nat k))
      by (change 0 with (inject_Z 0); rewrite <- Zle_Qle; lia).
    assert (Hk1 : inject_Z (Z.of_nat k) + 1 <= inject_Z (Z.of_nat bin_count)).
    { change 1 with (inject_Z 1). rewrite <- inject_Z_plus, <- Zle_Qle. lia. }
    assert (0 <= inject_Z (Z.of_nat k) * step) by (apply Qmult_le_0_compat; lra).
    assert ((inject_Z (Z.of_nat k) + 1) * step <= inject_Z (Z.of_nat bin_count) * step)
      by (apply Qmult_le_compat_r; lra).
    clearbody step. split; lra. }
  unfold SigmoidBin.forward. rewrite Elen, Hdim, Nat.eqb_refl. cbn [negb].
  set (f := fun i : nat => _).
  destruct (mapM_ok f
              (fun i v =>
                 (min <= v /\ v <= max) /\
                 (use_fw_regression = false ->
                  v == min + (inject_Z (Z.of_nat (argmax (SigmoidBin.pred_bin self pred i)))
                            + 0.5) * step))
              (seq 0 (dim0 pred))) as [result [Hres HF]].
  - intros i _. subst f. cbv beta.
    assert (Hpl : length (SigmoidBin.pred_bin self pred i) = bin_count).
    { rewrite <- Ebc. apply pred_bin_length. rewrite Ebc. exact Hdim. }
    destruct (SigmoidBin.pred_bin self pred i) as [|x l] eqn:El;
      [simpl in Hpl; lia|].
    destruct (argmax_spec (x :: l) ltac:(discriminate)) as [Hk _].
    rewrite Hpl in Hk. set (k := argmax (x :: l)) in *.
    cbn [bind].
    destruct (nth_error (SigmoidBin.bins self) k) as [bias|] eqn:Hbias.
    2:{ apply nth_error_None in Hbias. lia. }
    unfold lookup. rewrite Hbias. cbn [bind].
    eexists. split; [reflexivity|].
    rewrite Emin, Emax.
    split; [apply clampQ_range; lra|].
    intros Hfw. rewrite Efw, Hfw.
    pose proof (nth_error_nth _ _ 0 Hbias) as Hn.
    destruct (Hcentre k Hk) as [C1 C2]. rewrite Hn in C1, C2.
    rewrite clampQ_inside by assumption.
    rewrite <- Hn. apply Hbnth. exact Hk.
  - exists result. split; [exact Hres|].
    destruct (Forall2_seq_nth _ 0 (dim0 pred) result 0 HF) as [Hlen Hnth].
    split; [exact Hlen|]. split.
    + intros i Hi. exact (proj1 (Hnth i Hi)).
    + intros Hfw i Hi. exact (proj2 (Hnth i Hi) Hfw).
Qed.

Lemma nth_map_default {A B : Type} (g : A -> B) (l : list A) (i : nat) (d : A) (d' : B) :
  (i < length l)%nat -> nth i (map g l) d' = g (nth i l d).
Proof.
  intros Hi. rewrite (nth_indep _ d' (g d)) by (now rewrite length_map).
  apply map_nth.
Qed.

Lemma flat_map_length_eq {A B C : Type} (f : A -> list B) (g : A -> list C) (l : list A) :
  (forall x, In x l -> length (f x) = length (g x)) ->
  length (flat_map f l) = length (flat_map g l).
Proof.
  induction l as [|x l IH]; intros Hl; simpl; [reflexivity|].
  rewrite !length_app, (Hl x (or_introl eq_refl)), IH; [reflexivity|].
  intros y Hy. apply Hl. now right.
Qed.

(** Some centre lies within half a step of any value of the range. *)
Lemma centre_nearby (n : nat) (lo hi y : Q) :
  (0 < n)%nat -> lo < hi -> lo <= y -> y <= hi ->
  let step := (hi - lo) / inject_Z (Z.of_nat n) in
  exists j, (j < n)%nat /\
    Qabs (y - (lo + (inject_Z (Z.of_nat j) + 0.5) * step)) <= 0.5 * step.
Proof.
  intros Hn Hlt H1 H2 step.
  assert (Hb : 0 < inject_Z (Z.of_nat n)) by (now apply inject_nat_pos).
  assert (Hstep : 0 < step) by (apply Qdiv_pos; lra).
  assert (Hfull : inject_Z (Z.of_nat n) * step == hi - lo) by (unfold step; field; lra).
  clearbody step.
  destruct (Qlt_le_dec y hi) as [Hy|Hy].
  - set (q := Qfloor ((y - lo) / step)).
    pose proof (Qfloor_le ((y - lo) / step)) as F1.
    pose proof (Qlt_floor ((y - lo) / step)) as F2. fold q in F1, F2.
    assert (Hmul : (y - lo) / step * step == y - lo) by (apply Qdiv_mult_cancel; lra).
    assert (G1 : inject_Z q * step <= y - lo).
    { rewrite <- Hmul. apply Qmult_le_compat_r; lra. }
    assert (G2 : y - lo < inject_Z (q + 1) * step).
    { rewrite <- Hmul. apply Qmult_lt_compat_r; lra. }
    rewrite inject_Z_plus in G2. change (inject_Z 1) with 1 in G2.
    assert (Hq0 : (0 <= q)%Z).
    { change 0%Z with (Qfloor 0). apply Qfloor_resp_le. apply Qdiv_nonneg; lra. }
    assert (Hqn : (q < Z.of_nat n)%Z).
    { rewrite Zlt_Qlt.
      assert (inject_Z q * step < inject_Z (Z.of_nat n) * step) by lra.
      destruct (Qlt_le_dec (inject_Z q) (inject_Z (Z.of_nat n))) as [A|A]; [exact A|].
      assert (inject_Z (Z.of_nat n) * step <= inject_Z q * step)
        by (apply Qmult_le_compat_r; lra).
      lra. }
    exists (Z.to_nat q). split; [lia|].
    rewrite Z2Nat.id by exact Hq0.
    apply Qabs_Qle_condition. split; lra.
  - exists (n - 1)%nat. split; [lia|].
    assert (E : inject_Z (Z.of_nat (n - 1)) == inject_Z (Z.of_nat n) - 1).
    { rewrite Nat2Z.inj_sub by lia. unfold Z.sub.
      rewrite inject_Z_plus, inject_Z_opp. reflexivity. }
    rewrite E. apply Qabs_Qle_condition. split; lra.
Qed.

Section TrainingLoss.
Context `{Kernels}.

(** X4. [SigmoidBin.training_loss], for targets within [[min, max]] and
    inputs of the right shape (range with [min < max], step above 0.0001,
    [reg_scale >= 0], sigmoid with values in [[0, 1]]): it returns, the
    decoded output has one value per target, each within [[min, max]] and
    at most [(1 + reg_scale) / 2] steps away from its target. *)
Theorem sigmoid_bin_training_output_near_target
        (bin_count : nat) (min max reg_scale : Q)
        (use_loss_regression use_fw_regression : bool) (BCE_weight smooth_eps : Q)
        (self : SigmoidBin.t) (pred : matrix) (target : list Q) :
  SigmoidBin.init bin_count min max reg_scale use_loss_regression
                  use_fw_regression BCE_weight smooth_eps = Ok self ->
  min < max ->
  let step := (max - min) / inject_Z (Z.of_nat bin_count) in
  0.0001 < step ->
  0 <= reg_scale ->
  (forall x, 0 <= sigmoid x /\ sigmoid x <= 1) ->
  dim1 pred = (bin_count + 1)%nat ->
  dim0 pred = length target ->
  (forall y, In y target -> min <= y /\ y <= max) ->
  exists loss out_result,
    SigmoidBin.training_loss self pred target = Ok (loss, out_result) /\
    length out_result = length target /\
    forall i, (i < length target)%nat ->
      (min <= nth i out_result 0 /\ nth i out_result 0 <= max) /\
      Qabs (nth i out_result 0 - nth i target 0) <= 0.5 * (1 + reg_scale) * step.
Proof.
  intros Hinit Hlt step Hstep Hreg Hsig Hdim Hbatch Htarget.
  destruct (sigmoid_bin_init_inv _ _ _ _ _ _ _ _ _ Hinit)
    as [Hbc [_ [Ebc [Elen [Emin [Emax [Estep [Ereg [_ [_ [Ebce _]]]]]]]]]]].
  destruct (init_regular bin_count min max reg_scale use_loss_regression
              use_fw_regression BCE_weight smooth_eps Hbc Hlt Hstep)
    as [self' [Hinit' [Hblen Hbnth]]].
  rewrite Hinit in Hinit'. injection Hinit' as <-. fold step in Hbnth, Estep.
  assert (Hb : 0 < inject_Z (Z.of_nat bin_count)) by (now apply inject_nat_pos).
  assert (Hstep0 : 0 < step) by lra.
  unfold SigmoidBin.training_loss.
  rewrite Elen, Hdim, Nat.eqb_refl, Hbatch, Nat.eqb_refl. cbn [negb].
  set (f := fun i : nat => _).
  destruct (mapM_ok f
              (fun i r =>
                 length (snd r) = length (snd (fst r)) /\
                 Qabs (fst (fst r) - nth i target 0) <= 0.5 * (1 + reg_scale) * step)
              (seq 0 (length target))) as [rows [Hrows HF]].
  - intros i Hi. apply in_seq in Hi. subst f. cbv beta.
    set (y := nth i target 0).
    assert (Hy : min <= y /\ y <= max) by (apply Htarget, nth_In; lia).
    assert (Hdl : length (map (fun b => Qabs (y - b)) (SigmoidBin.bins self)) = bin_count)
      by (now rewrite length_map).
    destruct (map (fun b => Qabs (y - b)) (SigmoidBin.bins self)) as [|d0 ds] eqn:Ed;
      [simpl in Hdl; lia|].
    destruct (argmin_spec (d0 :: ds) ltac:(discriminate)) as [Hk [Hmin _]].
    rewrite Hdl in Hk, Hmin. set (k := argmin (d0 :: ds)) in *.
    cbn [bind].
    destruct (nth_error (SigmoidBin.bins self) k) as [bias|] eqn:Hbias.
    2:{ apply nth_error_None in Hbias. lia. }
    unfold lookup. rewrite Hbias. cbn [bind].
    assert (Hpl : length (SigmoidBin.pred_bin self pred i) = bin_count).
    { rewrite <- Ebc. apply pred_bin_length. rewrite Ebc. exact Hdim. }
    rewrite Hpl.
    destruct (Nat.leb_spec bin_count k) as [Hle|_]; [lia|].
    eexists. split; [reflexivity|]. cbn [fst snd].
    split; [now rewrite length_map, length_seq|].
    (* the chosen centre is a nearest one *)
    pose proof (nth_error_nth _ _ 0 Hbias) as Hn.
    assert (Hdiff : forall j, (j < bin_count)%nat ->
              nth j (d0 :: ds) 0 = Qabs (y - nth j (SigmoidBin.bins self) 0)).
    { intros j Hj. rewrite <- Ed.
      apply (nth_map_default (fun b => Qabs (y - b))). lia. }
    destruct (centre_nearby bin_count min max y Hbc Hlt (proj1 Hy) (proj2 Hy))
      as [j [Hj Hnear]].
    fold step in Hnear.
    assert (Hbest : Qabs (y - bias) <= 0.5 * step).
    { specialize (Hmin j Hj). rewrite (Hdiff k Hk), (Hdiff j Hj), Hn in Hmin.
      rewrite (Hbnth j Hj) in Hmin. lra. }
    apply Qabs_Qle_condition in Hbest. apply Qabs_Qle_condition.
    destruct (Hsig (at2 pred i 0)) as [S0 S1].
    rewrite Ereg, Estep.
    set (s := sigmoid (at2 pred i 0)) in *.
    assert (U0 : 0 <= s * reg_scale) by (apply Qmult_le_0_compat; lra).
    assert (U1 : s * reg_scale <= 1 * reg_scale) by (apply Qmult_le_compat_r; lra).
    assert (V0 : 0 <= (s * reg_scale) * step) by (apply Qmult_le_0_compat; lra).
    assert (V1 : (s * reg_scale) * step <= (1 * reg_scale) * step)
      by (apply Qmult_le_compat_r; lra).
    assert (Hh : reg_scale / 2 == 0.5 * reg_scale) by field.
    rewrite Hh. clearbody step s. split; lra.
  - destruct (Forall2_seq_nth _ 0 (length target) rows (0, [], []) HF) as [Hlen Hnth].
    rewrite Hrows. cbn [bind].
    assert (Hfl : length (flat_map (fun r : Q * list Q * list Q => snd (fst r)) rows)
                  = length (flat_map snd rows)).
    { apply flat_map_length_eq. intros r Hr.
      destruct (In_nth rows r (0, [], []) Hr) as [i [Hi <-]].
      rewrite Hlen in Hi. symmetry. exact (proj1 (Hnth i Hi)). }
    unfold BCEWithLogitsLoss.forward. rewrite Hfl, Nat.eqb_refl.
    rewrite Ebce. cbn [BCEWithLogitsLoss.reduction_ BCEWithLogitsLoss.init reduce item bind].
    eexists. eexists. split; [reflexivity|].
    split; [now rewrite !length_map|].
    intros i Hi.
    assert (Hi' : (i < length (map (fun r : Q * list Q * list Q => fst (fst r)) rows))%nat)
      by (now rewrite length_map, Hlen).
    rewrite (nth_map_default _ _ _ 0) by exact Hi'.
    rewrite Emin, Emax.
    split; [apply clampQ_range; lra|].
    assert (Hy : min <= nth i target 0 /\ nth i target 0 <= max)
      by (apply Htarget, nth_In; lia).
    apply clampQ_closer; [tauto|tauto|].
    rewrite (nth_map_default _ _ _ (0, [], [])) by (now rewrite Hlen).
    exact (proj2 (Hnth i Hi)).
Qed.
End TrainingLoss.

(** ** [FocalLoss] and [QFocalLoss] *)

Lemma Qsum_Forall2 (l1 l2 : list Q) : Forall2 Qeq l1 l2 -> Qsum l1 == Qsum l2.
Proof.
  induction 1 as [|x y l1 l2 Hxy _ IH]; simpl; [reflexivity|]. now rewrite Hxy, IH.
Qed.

Lemma reduce_Forall2 (r : reduction) (l1 l2 : list Q) :
  Forall2 Qeq l1 l2 -> out_eq (reduce r l1) (reduce r l2).
Proof.
  intros HF. destruct r; simpl.
  - unfold Qmean. rewrite (Qsum_Forall2 _ _ HF), (Forall2_length HF). reflexivity.
  - now apply Qsum_Forall2.
  - exact HF.
Qed.

Lemma map2_Forall2 {A B : Type} (f g : A -> B -> Q) (l1 : list A) (l2 : list B) :
  (forall x y, In y l2 -> f x y == g x y) ->
  Forall2 Qeq (map2 f l1 l2) (map2 g l1 l2).
Proof.
  revert l2. induction l1 as [|x l1 IH]; intros [|y l2] Hfg; simpl; try constructor.
  - apply Hfg. now left.
  - apply IH. intros x' y' Hy'. apply Hfg. now right.
Qed.

Lemma map2_mult_Forall2 (l f1 f2 : list Q) :
  Forall2 Qeq f1 f2 -> Forall2 Qeq (map2 Qmult l f1) (map2 Qmult l f2).
Proof.
  intros HF. revert l. induction HF as [|x y f1 f2 Hxy _ IH]; intros [|z l]; simpl;
    try constructor.
  - now rewrite Hxy.
  - apply IH.
Qed.

Section Focal.
Context `{Kernels}.

(** X5. A [FocalLoss] around a [BCEWithLogitsLoss] reduces the way the
    wrapped loss did before it was wrapped: [forward] returns the
    reduction of one loss per element, and raises [ValueError] when
    prediction and target differ in size. *)
Theorem focal_loss_keeps_reduction (loss_fcn : BCEWithLogitsLoss.t) (gamma alpha : Q)
        (pred true_ : list Q) :
  let self := FocalLoss.init loss_fcn gamma alpha in
  (length pred <> length true_ ->
   FocalLoss.forward self pred true_ = Raise ValueError) /\
  (length pred = length true_ ->
   exists loss,
     FocalLoss.forward self pred true_
     = Ok (reduce (BCEWithLogitsLoss.reduction_ loss_fcn) loss) /\
     length loss = length pred).
Proof.
  intros self. unfold FocalLoss.forward, BCEWithLogitsLoss.forward. subst self.
  cbn [FocalLoss.init FocalLoss.loss_fcn FocalLoss.reduction_ FocalLoss.gamma
       FocalLoss.alpha BCEWithLogitsLoss.reduction_ BCEWithLogitsLoss.pos_weight].
  split.
  - intros Hne. destruct (Nat.eqb_spec (length pred) (length true_)); [contradiction|].
    reflexivity.
  - intros Heq. rewrite Heq, Nat.eqb_refl. cbn [reduce bind].
    eexists. split; [reflexivity|].
    rewrite !map2_length. lia.
Qed.

(** X6. On targets that are 0 or 1, [QFocalLoss.forward] and
    [FocalLoss.forward] agree: [|true - p|] is [1 - p_t] there.  (Sigmoid
    with values in [[0, 1]]; the power respects equality of rationals.) *)
Theorem quality_focal_is_focal_on_hard_labels
        (loss_fcn : BCEWithLogitsLoss.t) (gamma alpha : Q) (pred true_ : list Q) :
  (forall x, 0 <= sigmoid x /\ sigmoid x <= 1) ->
  (forall x y g, x == y -> fpow x g == fpow y g) ->
  (forall y, In y true_ -> y == 0 \/ y == 1) ->
  match QFocalLoss.forward (QFocalLoss.init loss_fcn gamma alpha) pred true_,
        FocalLoss.forward (FocalLoss.init loss_fcn gamma alpha) pred true_ with
  | Ok a, Ok b => out_eq a b /\ length pred = length true_
  | Raise e1, Raise e2 => e1 = e2 /\ length pred <> length true_
  | _, _ => False
  end.
Proof.
  intros Hsig Hpow Hhard.
  unfold QFocalLoss.forward, FocalLoss.forward, BCEWithLogitsLoss.forward.
  cbn [QFocalLoss.init QFocalLoss.loss_fcn QFocalLoss.reduction_ QFocalLoss.gamma
       QFocalLoss.alpha FocalLoss.init FocalLoss.loss_fcn FocalLoss.reduction_
       FocalLoss.gamma FocalLoss.alpha BCEWithLogitsLoss.reduction_
       BCEWithLogitsLoss.pos_weight].
  destruct (Nat.eqb_spec (length pred) (length true_)) as [Heq|Hne];
    cbn [reduce bind]; [|now split].
  split; [|exact Heq].
  apply reduce_Forall2, map2_mult_Forall2, map2_Forall2.
  intros x y Hy. cbv zeta.
  destruct (Hsig x) as [S0 S1].
  assert (E : Qabs (y - sigmoid x) == 1 - (y * sigmoid x + (1 - y) * (1 - sigmoid x))).
  { destruct (Hhard y Hy) as [E|E]; rewrite E.
    - setoid_replace (0 - sigmoid x) with (- sigmoid x) by ring.
      rewrite Qabs_opp, Qabs_pos by exact S0. ring.
    - rewrite Qabs_pos by lra. ring. }
  now rewrite (Hpow _ _ gamma E).
Qed.
End Focal.

(** ** [ComputeLoss.__init__] *)

Lemma find_seq_first (f : nat -> bool) (s n i : nat) :
  find f (seq s n) = Some i ->
  (s <= i < s + n)%nat /\ f i = true /\ forall j, (s <= j < i)%nat -> f j = false.
Proof.
  revert s. induction n as [|n IH]; intros s Hf; simpl in Hf; [discriminate|].
  destruct (f s) eqn:Es.
  - injection Hf as <-. split; [lia|]. split; [exact Es|]. intros j Hj. lia.
  - destruct (IH (S s) Hf) as [Hi [Hfi Hfirst]].
    split; [lia|]. split; [exact Hfi|].
    intros j Hj. destruct (Nat.eq_dec j s) as [->|Hne]; [exact Es|].
    apply Hfirst. lia.
Qed.

(** X7. [ComputeLoss.__init__]: without auto-balancing it returns
    with [ssi = 0]; with auto-balancing it raises [ValueError], and
    nothing else, exactly when no layer has stride 16, and otherwise [ssi]
    is the first layer of stride 16.  The balance list has 3 entries for
    3 layers and 5 entries otherwise. *)
Theorem init_looks_up_stride_16 (h : Hyp.t) (d : Detect.t) :
  (exists self, ComputeLoss.init h d false = Ok self /\ ComputeLoss.ssi self = 0%nat) /\
  (ComputeLoss.init h d true = Raise ValueError <->
   forall i, (i < Detect.nl d)%nat -> ~ Detect.stride d i == 16) /\
  (forall e, ComputeLoss.init h d true = Raise e -> e = ValueError) /\
  (forall self, ComputeLoss.init h d true = Ok self ->
     (ComputeLoss.ssi self < Detect.nl d)%nat /\
     Detect.stride d (ComputeLoss.ssi self) == 16 /\
     forall j, (j < ComputeLoss.ssi self)%nat -> ~ Detect.stride d j == 16) /\
  (forall ab self, ComputeLoss.init h d ab = Ok self ->
     length (ComputeLoss.balance self)
     = if (Detect.nl d =? 3)%nat then 3%nat else 5%nat).
Proof.
  unfold ComputeLoss.init, ComputeLoss.stride_index.
  destruct (smooth_BCE _) as [cp cn].
  destruct (ComputeLoss.criteria h) as [[c1 c2] c3].
  split; [eexists; split; reflexivity|].
  destruct (find _ (seq 0 (Detect.nl d))) as [i|] eqn:Ef.
  - destruct (find_seq_first _ _ _ _ Ef) as [Hi [Hfi Hfirst]].
    apply Qeq_bool_eq in Hfi. simpl.
    split; [split; [discriminate|]|].
    { intros Hall. exfalso. apply (Hall i); [lia|exact Hfi]. }
    split; [discriminate|]. split.
    + intros self Hs. injection Hs as <-. simpl. split; [lia|]. split; [exact Hfi|].
      intros j Hj. apply Qeq_bool_neq. apply Hfirst. lia.
    + intros [|] self Hs; injection Hs as <-; simpl;
        destruct (Detect.nl d =? 3)%nat; reflexivity.
  - simpl. split; [split; [|reflexivity]|].
    { intros _ i Hi. apply Qeq_bool_neq.
      apply (find_none _ _ Ef). apply in_seq. lia. }
    split; [intros e He; now injection He as <-|].
    split; [discriminate|].
    intros [|] self Hs; [discriminate|]. injection Hs as <-. simpl.
    destruct (Detect.nl d =? 3)%nat; reflexivity.
Qed.

(** ** [ComputeLoss.__call__] *)

Lemma mapM_raise {A B : Type} (f : A -> res B) (l : list A) (e : exn) :
  (forall x, In x l -> (exists y, f x = Ok y) \/ f x = Raise e) ->
  (exists x, In x l /\ f x = Raise e) ->
  mapM f l = Raise e.
Proof.
  induction l as [|x l IH]; intros Hall [x0 [Hin Hx0]]; [destruct Hin|].
  simpl. destruct (Hall x (or_introl eq_refl)) as [[y Hy]|Hr].
  - rewrite Hy. simpl. rewrite IH; [reflexivity| |].
    + intros z Hz. apply Hall. now right.
    + destruct Hin as [->|Hin]; [congruence|]. exists x0. auto.
  - now rewrite Hr.
Qed.

Lemma layer_raises_index_error (g : Q) (clamped : bool) (anchor_t : Q) (na : nat)
      (anchors : nat -> Q * Q) (stride : Q) (w h : nat) (targets : list target) :
  (exists cands, Static.layer g clamped anchor_t na anchors stride w h targets = Ok cands)
  \/ Static.layer g clamped anchor_t na anchors stride w h targets = Raise IndexError.
Proof.
  unfold Static.layer.
  destruct (negb (length targets =? 0)%nat).
  - left. simpl. eexists. reflexivity.
  - unfold lookup. destruct (nth_error _ 0); simpl; [left; eexists; reflexivity|now right].
Qed.

Lemma build_length (g : Q) (clamped : bool) (hyp : Hyp.t) (det : Detect.t)
      (p : list pred_layer) (targets : list target) (built : list (list candidate)) :
  Static.build g clamped hyp det p targets = Ok built ->
  length built = Detect.nl det /\ (Detect.nl det <= length p)%nat.
Proof.
  intros Hb. split.
  - unfold Static.build in Hb. apply mapM_length in Hb. now rewrite length_seq in Hb.
  - destruct (Nat.le_gt_cases (Detect.nl det) (length p)) as [Hle|Hgt]; [exact Hle|].
    destruct (build_layer _ _ _ _ _ _ _ (length p) Hb Hgt) as [pi [_ [Hpi _]]].
    assert (length p < length p)%nat by (apply nth_error_Some; congruence). lia.
Qed.

Lemma build_too_few_layers (g : Q) (clamped : bool) (hyp : Hyp.t) (det : Detect.t)
      (p : list pred_layer) (targets : list target) :
  (length p < Detect.nl det)%nat ->
  Static.build g clamped hyp det p targets = Raise IndexError.
Proof.
  intros Hlt. unfold Static.build. apply mapM_raise.
  - intros i _. unfold lookup. destruct (nth_error p i) as [pi|]; [|now right].
    simpl. apply layer_raises_index_error.
  - exists (length p). split; [apply in_seq; lia|].
    unfold lookup.
    destruct (nth_error p (length p)) as [pi|] eqn:E; [|reflexivity].
    assert (length p < length p)%nat by (apply nth_error_Some; congruence). lia.
Qed.

Section CallExtras.
Context `{Kernels}.

(** X8. [ComputeLoss.__call__] with fewer prediction tensors than layers
    raises [IndexError]; whenever it returns there was at least one
    prediction tensor, exactly one per layer, and a balance entry for each
    of them. *)
Theorem call_needs_one_prediction_per_layer (self : ComputeLoss.t)
        (p : list pred_layer) (targets : list target) :
  ((length p < Detect.nl (ComputeLoss.det self))%nat ->
   ComputeLoss.call self p targets = Raise IndexError) /\
  (forall r, ComputeLoss.call self p targets = Ok r ->
     p <> [] /\ length p = Detect.nl (ComputeLoss.det self) /\
     (length p <= length (ComputeLoss.balance self))%nat).
Proof.
  split.
  - intros Hlt. unfold ComputeLoss.call, ComputeLoss.run, ComputeLoss.build_targets.
    now rewrite build_too_few_layers.
  - intros [[loss items] self'] Hcall.
    destruct (call_inv _ _ _ _ _ _ Hcall) as [a [bs [Hrun [Hbs _]]]].
    destruct (run_inv _ _ _ _ Hrun)
      as [built [lts [Hb [Hlen [Hk [_ [_ [_ [_ [_ [_ Htobj]]]]]]]]]]].
    unfold ComputeLoss.build_targets in Hb.
    destruct (build_length _ _ _ _ _ _ _ Hb) as [Hbl Hnl].
    assert (Hne : p <> []) by (intros ->; simpl in Htobj; congruence).
    assert (Hall : forall i, (i < length p)%nat ->
              (i < length built)%nat /\ (i < length (ComputeLoss.balance self))%nat).
    { intros i Hi.
      destruct (nth_error p i) as [pi|] eqn:Hpi; [|apply nth_error_None in Hpi; lia].
      destruct (Hk i pi Hpi) as [lt [_ [[cands [Hc _]] [_ [Hbal _]]]]].
      split; [apply nth_error_Some; congruence|exact Hbal]. }
    split; [exact Hne|].
    destruct p as [|pi0 p']; [congruence|].
    destruct (Hall (length p') ltac:(simpl; lia)) as [H1 H2].
    simpl in *. split; lia.
Qed.

(** X9. Without auto-balancing a call leaves the object as it was: the
    balance list is not written. *)
Theorem call_without_autobalance_keeps_balance (self self' : ComputeLoss.t)
        (p : list pred_layer) (targets : list target) (loss : Q) (items : list Q) :
  ComputeLoss.autobalance self = false ->
  ComputeLoss.call self p targets = Ok (loss, items, self') ->
  self' = self.
Proof.
  intros Hab Hcall.
  destruct (call_inv _ _ _ _ _ _ Hcall) as [a [bs [Hrun [_ [Hren [Hself _]]]]]].
  destruct (run_inv _ _ _ _ Hrun)
    as [built [lts [_ [_ [Hk [Hout [Hblen _]]]]]]].
  rewrite Hab in Hren, Hk. injection Hren as Hbal.
  assert (E : ComputeLoss.bal a = ComputeLoss.balance self).
  { apply (nth_ext _ _ 0 0 Hblen). intros i _.
    destruct (Nat.lt_ge_cases i (length p)) as [Hi|Hi]; [|now apply Hout].
    destruct (nth_error p i) as [pi|] eqn:Hpi; [|apply nth_error_None in Hpi; lia].
    destruct (Hk i pi Hpi) as [lt [_ [_ [_ [_ Hnth]]]]]. exact Hnth. }
  rewrite Hself, <- Hbal, E. destruct self. reflexivity.
Qed.
End CallExtras.

(** ** The terms of a layer with matches *)

Lemma position_eqb_eq (a b : position) : position_eqb a b = true <-> a = b.
Proof.
  destruct a as [[[a1 a2] a3] a4], b as [[[b1 b2] b3] b4]. unfold position_eqb.
  rewrite !andb_true_iff, !Nat.eqb_eq. split.
  - intros [[[-> ->] ->] ->]. reflexivity.
  - intros E. injection E as -> -> -> ->. auto.
Qed.

(** What [tobj[b, a, gj, gi] = v] leaves at a position: the value it had,
    when no write addresses it, and else the value of one of the writes
    that do. *)
Lemma index_put_spec (tobj : position -> Q) (writes : list (position * Q))
      (x : position) :
  (~ In x (map fst writes) /\ ComputeLoss.index_put tobj writes x = tobj x) \/
  (exists w, In w writes /\ fst w = x /\ ComputeLoss.index_put tobj writes x = snd w).
Proof.
  unfold ComputeLoss.index_put. revert tobj.
  induction writes as [|w ws IH]; intros tobj; simpl.
  - left. split; [tauto|reflexivity].
  - destruct (IH (fun y => if position_eqb y (fst w) then snd w else tobj y))
      as [[Hn E]|[w' [Hin [Hf E]]]].
    + rewrite E. destruct (position_eqb x (fst w)) eqn:Ex.
      * right. exists w. apply position_eqb_eq in Ex. auto.
      * left. split; [|reflexivity]. intros [Hx|Hx]; [|contradiction].
        assert (position_eqb x (fst w) = true) by (now apply position_eqb_eq).
        congruence.
    + right. exists w'. auto.
Qed.

Lemma map2_In {A B C : Type} (f : A -> B -> C) (l1 : list A) (l2 : list B) (z : C) :
  In z (map2 f l1 l2) -> exists x y, In x l1 /\ In y l2 /\ z = f x y.
Proof.
  revert l2. induction l1 as [|x l1 IH]; intros [|y l2] Hz; simpl in Hz; try tauto.
  destruct Hz as [<-|Hz].
  - exists x, y. simpl. auto.
  - destruct (IH l2 Hz) as [x' [y' [Hx [Hy E]]]]. exists x', y'. simpl. auto.
Qed.

Lemma built_by_init_gr (self : ComputeLoss.t) :
  ComputeLoss.built_by_init self -> ComputeLoss.gr self = 1.
Proof.
  intros [h [d [ab [self0 [Hinit Hself]]]]]. rewrite Hself. simpl.
  unfold ComputeLoss.init in Hinit.
  destruct (smooth_BCE _) as [cp cn].
  destruct (ComputeLoss.criteria h) as [[c1 c2] c3].
  destruct (if ab then ComputeLoss.stride_index d else Ok 0%nat) as [ssi|e];
    [|discriminate].
  simpl in Hinit. now injection Hinit as <-.
Qed.

Section Matched.
Context `{Kernels}.

Lemma matched_terms_inv (self : ComputeLoss.t) (pi : pred_layer)
      (cands : list candidate) (lbox lcls ltheta : Q) (tobj : position -> Q) :
  ComputeLoss.matched_terms self pi cands = Ok (lbox, lcls, ltheta, tobj) ->
  exists ps iou,
    ComputeLoss.gather pi cands = Ok ps /\ length ps = length cands /\
    length iou = length cands /\
    (forall v, In v iou -> exists b1 b2, v = bbox_iou b1 b2) /\
    lbox = Qmean (map (fun v => 1 - v) iou) /\
    tobj = ComputeLoss.index_put (fun _ => 0)
             (map2 (fun x s => (fst x, (1 - ComputeLoss.gr self) + ComputeLoss.gr self * s))
                   ps (map (fun v => Qmax v 0) iou)) /\
    ((Detect.nc (ComputeLoss.det self) <= 1)%nat -> lcls = 0).
Proof.
  unfold ComputeLoss.matched_terms. intros Hm.
  destruct (ComputeLoss.gather pi cands) as [ps|e] eqn:Hg; [|discriminate].
  cbn [bind] in Hm.
  match type of Hm with
  | context [map2 ?f ps cands] => set (iou := map2 f ps cands) in *
  end.
  assert (Hlen : length ps = length cands).
  { unfold ComputeLoss.gather in Hg. apply mapM_length in Hg. exact Hg. }
  destruct (if (1 <? Detect.nc (ComputeLoss.det self))%nat then _ else _)
    as [lcls0|e] eqn:Hcls; [|discriminate].
  cbn [bind] in Hm.
  destruct (criterion_forward (ComputeLoss.BCEtheta self) _ _) as [o|e]; [|discriminate].
  cbn [bind] in Hm.
  destruct (item o) as [lth|e]; [|discriminate].
  cbn [bind] in Hm. injection Hm as <- <- <- <-.
  exists ps, iou. split; [reflexivity|]. split; [exact Hlen|].
  split; [unfold iou; rewrite map2_length; lia|].
  split.
  { intros v Hv. unfold iou in Hv. apply map2_In in Hv.
    destruct Hv as [x [c [_ [_ ->]]]]. eexists. eexists. reflexivity. }
  split; [reflexivity|]. split; [reflexivity|].
  intros Hnc. destruct (Nat.ltb_spec 1 (Detect.nc (ComputeLoss.det self))); [lia|].
  now injection Hcls as <-.
Qed.

(** X11. The objectness target [tobj] of a layer with matches, for an
    object made by [__init__] ([gr = 1]): it is zero at every position no
    candidate addresses, never negative, and at most 1 when the IoU is at
    most 1. *)
Theorem objectness_target_is_clamped_iou (self : ComputeLoss.t) (pi : pred_layer)
        (cands : list candidate) (lbox lcls ltheta : Q) (tobj : position -> Q) :
  ComputeLoss.built_by_init self ->
  ComputeLoss.matched_terms self pi cands = Ok (lbox, lcls, ltheta, tobj) ->
  exists ps,
    ComputeLoss.gather pi cands = Ok ps /\ length ps = length cands /\
    forall pos,
      0 <= tobj pos /\
      (~ In pos (map fst ps) -> tobj pos == 0) /\
      ((forall b1 b2, bbox_iou b1 b2 <= 1) -> tobj pos <= 1).
Proof.
  intros Hinit Hm. apply built_by_init_gr in Hinit.
  destruct (matched_terms_inv _ _ _ _ _ _ _ Hm)
    as [ps [iou [Hg [Hlen [_ [Hiou [_ [Htobj _]]]]]]]].
  exists ps. split; [exact Hg|]. split; [exact Hlen|].
  intros pos. rewrite Htobj, Hinit.
  set (writes := map2 _ ps _).
  assert (Hw : forall w, In w writes ->
            In (fst w) (map fst ps) /\
            exists v, In v iou /\ snd w == Qmax v 0).
  { intros w Hin. unfold writes in Hin. apply map2_In in Hin.
    destruct Hin as [x [s [Hx [Hs ->]]]]. cbn [fst snd].
    split; [now apply in_map|].
    apply in_map_iff in Hs. destruct Hs as [v [<- Hv]].
    exists v. split; [exact Hv|ring]. }
  destruct (index_put_spec (fun _ => 0) writes pos) as [[Hn E]|[w [Hin [Hf E]]]];
    rewrite E.
  - split; [apply Qle_refl|]. split; [reflexivity|]. intros _. lra.
  - destruct (Hw w Hin) as [Hpos [v [Hv Hs]]].
    split; [rewrite Hs; apply Q.le_max_r|]. split.
    + intros Hnot. rewrite Hf in Hpos. contradiction.
    + intros Hle. rewrite Hs. destruct (Hiou v Hv) as [b1 [b2 ->]].
      apply Q.max_lub; [apply Hle|lra].
Qed.

Lemma terms_single_class (self : ComputeLoss.t) (pi : pred_layer)
      (cands : list candidate) (lt : ComputeLoss.layer_terms) :
  (Detect.nc (ComputeLoss.det self) <= 1)%nat ->
  ComputeLoss.terms self pi cands = Ok lt -> ComputeLoss.cls_i lt = 0.
Proof.
  intros Hnc Ht. unfold ComputeLoss.terms in Ht.
  destruct (negb (length cands =? 0)%nat).
  - destruct (ComputeLoss.matched_terms self pi cands) as [[[[lbox lcls] lth] tobj]|e]
      eqn:Hm; [|discriminate].
    cbn [bind] in Ht.
    destruct (ComputeLoss.objectness self pi tobj); [|discriminate].
    cbn [bind] in Ht. injection Ht as <-. simpl.
    destruct (matched_terms_inv _ _ _ _ _ _ _ Hm) as [_ [_ [_ [_ [_ [_ [_ [_ Hc]]]]]]]].
    now apply Hc.
  - cbn [bind] in Ht.
    destruct (ComputeLoss.objectness self pi _); [|discriminate].
    cbn [bind] in Ht. now injection Ht as <-.
Qed.

(** X10. With at most one class ([nc <= 1]) the classification
    component a call returns is zero, and the loss is the batch size, i.e.
    the first dimension of the last prediction tensor, times the sum of
    the box, objectness and angle components. *)
Theorem single_class_has_no_classification_loss (self self' : ComputeLoss.t)
        (p : list pred_layer) (targets : list target)
        (loss lbox lobj lcls ltheta : Q) :
  (Detect.nc (ComputeLoss.det self) <= 1)%nat ->
  ComputeLoss.call self p targets = Ok (loss, [lbox; lobj; lcls; ltheta], self') ->
  lcls == 0 /\
  exists pi_last,
    nth_error p (length p - 1) = Some pi_last /\
    loss == (lbox + lobj + ltheta) * inject_Z (Z.of_nat (p_bs pi_last)).
Proof.
  intros Hnc Hcall.
  destruct (call_inv _ _ _ _ _ _ Hcall)
    as [a [bs [Hrun [Hbs [_ [_ [Hitems Hloss]]]]]]].
  destruct (run_inv _ _ _ _ Hrun)
    as [built [lts [_ [Hlen [Hk [_ [_ [_ [Hcls [_ [_ Htobj]]]]]]]]]]].
  assert (Hne : p <> []).
  { intros ->. simpl in Htobj. congruence. }
  destruct (last_map_Some p_bs p None Hne) as [pi_last [Hlast Hl]].
  rewrite Htobj, Hl in Hbs. injection Hbs as <-.
  assert (Hz : ComputeLoss.lcls a == 0).
  { rewrite Hcls. apply Qsum_zero. intros lt Hin.
    apply In_nth_error in Hin. destruct Hin as [k Hk'].
    assert (Hkp : (k < length p)%nat)
      by (rewrite <- Hlen; apply nth_error_Some; congruence).
    destruct (nth_error p k) as [pi|] eqn:Hpi; [|apply nth_error_None in Hpi; lia].
    destruct (Hk k pi Hpi) as [lt' [Hlt' [[cands [_ Ht]] _]]].
    rewrite Hk' in Hlt'. injection Hlt' as <-.
    rewrite (terms_single_class _ _ _ _ Hnc Ht). reflexivity. }
  injection Hitems as -> -> -> ->.
  split; [rewrite Hz; ring|]. exists pi_last. split; [exact Hlast|].
  rewrite Hloss, Hz. ring.
Qed.
End Matched.

(** ** Cells and offsets of the static builder *)

Lemma Qfloor_bounds (x : Q) :
  inject_Z (Qfloor x) <= x /\ x < inject_Z (Qfloor x) + 1.
Proof.
  pose proof (Qfloor_le x) as F1. pose proof (Qlt_floor x) as F2.
  rewrite inject_Z_plus in F2. change (inject_Z 1) with 1 in F2. auto.
Qed.

Lemma inject_Z_lt_inv (a b : Z) : inject_Z a < inject_Z b + 1 -> (a <= b)%Z.
Proof.
  intros Hlt. change 1 with (inject_Z 1) in Hlt.
  rewrite <- inject_Z_plus, <- Zlt_Qlt in Hlt. lia.
Qed.

Lemma inject_Z_le_lt (a b : Z) : inject_Z a < inject_Z b -> (a < b)%Z.
Proof. intros Hlt. now rewrite Zlt_Qlt. Qed.

(** The cell of the centre along one axis of [n] cells. *)
Lemma axis_centre (n : nat) (x : Q) :
  0 <= x -> x < inject_Z (Z.of_nat n) ->
  let c := Qtrunc (x - 0 * 0.5) in
  (0 <= c <= Z.of_nat n - 1)%Z /\ 0 <= x - inject_Z c /\ x - inject_Z c < 1.
Proof.
  intros H0 Hn c. subst c.
  rewrite Qtrunc_nonneg_floor by lra.
  destruct (Qfloor_bounds (x - 0 * 0.5)) as [F1 F2].
  set (f := Qfloor (x - 0 * 0.5)) in *.
  assert (A : (0 <= f)%Z).
  { apply (inject_Z_lt_inv 0 f). change (inject_Z 0) with 0. lra. }
  assert (B : (f < Z.of_nat n)%Z) by (apply inject_Z_le_lt; lra).
  split; [lia|]. split; lra.
Qed.

(** The neighbour below, taken when the centre lies in the lower half of
    its cell and beyond the first cell. *)
Lemma axis_low (n : nat) (x : Q) :
  Qltb (Qrem1 x) 0.5 = true -> Qltb 1 x = true -> x < inject_Z (Z.of_nat n) ->
  let c := Qtrunc (x - 1 * 0.5) in
  (0 <= c <= Z.of_nat n - 1)%Z /\ 1 <= x - inject_Z c /\ x - inject_Z c < 1.5.
Proof.
  intros Hr H1 Hn c. subst c. apply Qltb_lt in Hr, H1. unfold Qrem1 in Hr.
  rewrite Qtrunc_nonneg_floor by lra.
  destruct (Qfloor_bounds x) as [F1 F2]. set (f := Qfloor x) in *.
  assert (E : Qfloor (x - 1 * 0.5) = (f - 1)%Z).
  { apply Qfloor_unique.
    - unfold Z.sub. rewrite inject_Z_plus, inject_Z_opp. change (inject_Z 1) with 1. lra.
    - replace (f - 1 + 1)%Z with f by lia. lra. }
  rewrite E.
  assert (A : (1 <= f)%Z).
  { assert (0 < f)%Z; [|lia]. apply inject_Z_le_lt. change (inject_Z 0) with 0. lra. }
  assert (B : (f < Z.of_nat n)%Z) by (apply inject_Z_le_lt; lra).
  split; [lia|].
  unfold Z.sub. rewrite inject_Z_plus, inject_Z_opp. change (inject_Z 1) with 1.
  split; lra.
Qed.

(** The neighbour above, taken when the centre lies in the upper half of
    its cell, or on a grid line, and before the last cell. *)
Lemma axis_high (n : nat) (x : Q) :
  Qltb (Qrem1 (inject_Z (Z.of_nat n) - x)) 0.5 = true ->
  Qltb 1 (inject_Z (Z.of_nat n) - x) = true -> 0 <= x ->
  let c := Qtrunc (x - -1 * 0.5) in
  (0 <= c <= Z.of_nat n - 1)%Z /\ - 0.5 < x - inject_Z c /\ x - inject_Z c <= 0.
Proof.
  intros Hr H1 H0 c. subst c. apply Qltb_lt in Hr, H1. unfold Qrem1 in Hr.
  rewrite Qtrunc_nonneg_floor by lra.
  set (N := Z.of_nat n) in *.
  destruct (Qfloor_bounds (inject_Z N - x)) as [F1 F2].
  set (f := Qfloor (inject_Z N - x)) in *.
  assert (E : Qfloor (x - -1 * 0.5) = (N - f)%Z).
  { apply Qfloor_unique.
    - unfold Z.sub. rewrite inject_Z_plus, inject_Z_opp. lra.
    - replace (N - f + 1)%Z with (N + (- f + 1))%Z by lia.
      rewrite !inject_Z_plus, inject_Z_opp. change (inject_Z 1) with 1. lra. }
  rewrite E.
  assert (A : (1 <= f)%Z).
  { assert (0 < f)%Z; [|lia]. apply inject_Z_le_lt. change (inject_Z 0) with 0. lra. }
  assert (B : (f <= N)%Z) by (apply (inject_Z_lt_inv f N); lra).
  split; [lia|].
  unfold Z.sub. rewrite inject_Z_plus, inject_Z_opp. split; lra.
Qed.

Lemma clampZ_inside (lo hi x : Z) : (lo <= x <= hi)%Z -> clampZ lo hi x = x.
Proof. unfold clampZ. lia. Qed.

Lemma clampZ_range (lo hi x : Z) : (lo <= hi)%Z -> (lo <= clampZ lo hi x <= hi)%Z.
Proof. unfold clampZ. lia. Qed.

(** Where a candidate of a layer comes from, when there are targets. *)
Lemma layer_In_row (g : Q) (clamped : bool) (anchor_t : Q) (na : nat)
      (anchors : nat -> Q * Q) (stride : Q) (w h : nat) (targets : list target)
      (out : list candidate) (c : candidate) :
  Static.layer g clamped anchor_t na anchors stride w h targets = Ok out ->
  In c out ->
  exists t k,
    nth_error targets (c_gt c) = Some t /\ (c_a c < na)%nat /\ (k < 5)%nat /\
    Static.shape_ok anchor_t (anchors (c_a c)) (Static.scale stride t) = true /\
    nth k (Static.selects g w h (Static.scale stride t)) false = true /\
    c = Static.define clamped anchors w h
          (pair_row stride (c_gt c) (c_a c) t, k, nth k (Static.off g) (0, 0)).
Proof.
  unfold Static.layer. intros Hout Hc.
  destruct (length targets =? 0)%nat eqn:E; simpl in Hout.
  - apply Nat.eqb_eq in E. apply length_zero_iff_nil in E. subst targets.
    unfold Static.repeat_targets in Hout.
    destruct na as [|na']; simpl in Hout; [discriminate|].
    injection Hout as <-. destruct Hc.
  - injection Hout as <-.
    apply in_map_iff in Hc. destruct Hc as [[[r k] o] [<- He]].
    apply expand_In in He. cbn [fst snd] in He. destruct He as [Hr [Hk [Hsel Ho]]].
    apply gate_In in Hr. destruct Hr as [t [Ht [Ha [Hat Hok]]]].
    destruct (define_fields clamped anchors w h r k o) as [E1 [E2 _]].
    rewrite E1, E2. exists t, k.
    split; [exact Ht|]. split; [exact Ha|]. split; [exact Hk|].
    split; [exact Hok|]. rewrite <- Hat. split; [exact Hsel|].
    rewrite Ho. f_equal. f_equal. f_equal.
    destruct r as [rg ra rt]. unfold pair_row. simpl in *. now rewrite Hat.
Qed.

(** The cell and the offsets of one selected row of [off], for a centre
    inside the grid. *)
Lemma selected_row_inside (w h : nat) (t : target) (k : nat) :
  0 <= t_x t -> t_x t < inject_Z (Z.of_nat w) ->
  0 <= t_y t -> t_y t < inject_Z (Z.of_nat h) ->
  (k < 5)%nat -> nth k (Static.selects 0.5 w h t) false = true ->
  let o := nth k (Static.off 0.5) (0, 0) in
  let gi := Qtrunc (t_x t - fst o) in
  let gj := Qtrunc (t_y t - snd o) in
  (0 <= gi <= Z.of_nat w - 1)%Z /\ (0 <= gj <= Z.of_nat h - 1)%Z /\
  - 0.5 < t_x t - inject_Z gi /\ t_x t - inject_Z gi < 1.5 /\
  - 0.5 < t_y t - inject_Z gj /\ t_y t - inject_Z gj < 1.5.
Proof.
  intros Hx0 Hxw Hy0 Hyh Hk Hsel.
  destruct (axis_centre w (t_x t) Hx0 Hxw) as [Cx [Cx1 Cx2]].
  destruct (axis_centre h (t_y t) Hy0 Hyh) as [Cy [Cy1 Cy2]].
  unfold Static.selects in Hsel.
  destruct k as [|[|[|[|[|k]]]]]; [| | | | |lia]; cbn [nth Static.off fst snd] in *.
  - repeat split; try tauto; lra.
  - apply andb_true_iff in Hsel. destruct Hsel as [S1 S2].
    destruct (axis_low w (t_x t) S1 S2 Hxw) as [L [L1 L2]].
    repeat split; try tauto; lra.
  - apply andb_true_iff in Hsel. destruct Hsel as [S1 S2].
    destruct (axis_low h (t_y t) S1 S2 Hyh) as [L [L1 L2]].
    repeat split; try tauto; lra.
  - apply andb_true_iff in Hsel. destruct Hsel as [S1 S2].
    destruct (axis_high w (t_x t) S1 S2 Hx0) as [L [L1 L2]].
    repeat split; try tauto; lra.
  - apply andb_true_iff in Hsel. destruct Hsel as [S1 S2].
    destruct (axis_high h (t_y t) S1 S2 Hy0) as [L [L1 L2]].
    repeat split; try tauto; lra.
Qed.

Lemma mapM_ext_in {A B : Type} (f g : A -> res B) (l : list A) :
  (forall x, In x l -> f x = g x) -> mapM f l = mapM g l.
Proof.
  induction l as [|x l IH]; intros Hfg; simpl; [reflexivity|].
  rewrite (Hfg x (or_introl eq_refl)), IH; [reflexivity|].
  intros y Hy. apply Hfg. now right.
Qed.

Lemma norm_index_ok (size : nat) (idx : Z) :
  (- Z.of_nat size <= idx < Z.of_nat size)%Z -> exists k, norm_index size idx = Ok k.
Proof.
  intros Hi. unfold norm_index.
  destruct ((0 <=? idx) && (idx <? Z.of_nat size))%Z eqn:E1; [eexists; reflexivity|].
  destruct ((- Z.of_nat size <=? idx) && (idx <? 0))%Z eqn:E2; [eexists; reflexivity|].
  apply andb_false_iff in E1, E2.
  destruct E1 as [E1|E1], E2 as [E2|E2];
    rewrite ?Z.leb_gt, ?Z.ltb_ge in E1, E2; lia.
Qed.

(** The fields of a candidate that do not depend on the clamp. *)
Lemma define_indices (clamped : bool) (anchors : nat -> Q * Q) (w h : nat)
      (r : Static.arow) (k : nat) (o : Q * Q) :
  let c := Static.define clamped anchors w h (r, k, o) in
  c_b c = Qtrunc (t_img (Static.a_t r)) /\
  c_cls c = Qtrunc (t_cls (Static.a_t r)) /\
  c_gi c = clampZ 0 (Z.of_nat w - 1) (Qtrunc (t_x (Static.a_t r) - fst o)) /\
  c_gj c = clampZ 0 (Z.of_nat h - 1) (Qtrunc (t_y (Static.a_t r) - snd o)) /\
  c_anch c = anchors (Static.a_anchor r) /\
  c_labels c = t_labels (Static.a_t r).
Proof. destruct o as [ox oy]. simpl. repeat split; reflexivity. Qed.

(** X12. What the static builder returns for a layer indexes the
    prediction tensor of that layer: grid indices within the grid, anchor
    index below [na], anchor shape that of this index, image and class
    index those of a ground truth.  With image indices within the batch,
    [pi[b, a, gj, gi]] raises nothing and yields one row per candidate. *)
Theorem built_candidates_index_the_prediction
        (g : Q) (clamped : bool) (hyp : Hyp.t) (det : Detect.t)
        (p : list pred_layer) (targets : list target)
        (built : list (list candidate)) (i : nat) (pi : pred_layer)
        (cands : list candidate) :
  Static.build g clamped hyp det p targets = Ok built ->
  nth_error p i = Some pi -> nth_error built i = Some cands ->
  (0 < p_w pi)%nat -> (0 < p_h pi)%nat -> p_na pi = Detect.na det ->
  (forall t, In t targets ->
     (- Z.of_nat (p_bs pi) <= Qtrunc (t_img t) < Z.of_nat (p_bs pi))%Z) ->
  (forall c, In c cands ->
     (0 <= c_gi c < Z.of_nat (p_w pi))%Z /\ (0 <= c_gj c < Z.of_nat (p_h pi))%Z /\
     (c_a c < p_na pi)%nat /\ c_anch c = Detect.anchors det i (c_a c) /\
     exists t, nth_error targets (c_gt c) = Some t /\
               c_b c = Qtrunc (t_img t) /\ c_cls c = Qtrunc (t_cls t) /\
               c_labels c = t_labels t) /\
  exists ps, ComputeLoss.gather pi cands = Ok ps /\ length ps = length cands.
Proof.
  intros Hb Hpi Hc Hw Hh Hna Himg.
  assert (Hi : (i < Detect.nl det)%nat).
  { rewrite <- (proj1 (build_length _ _ _ _ _ _ _ Hb)). apply nth_error_Some. congruence. }
  destruct (build_layer _ _ _ _ _ _ _ _ Hb Hi) as [pi' [cands' [Hpi' [Hc' Hl]]]].
  rewrite Hpi in Hpi'. injection Hpi' as <-. rewrite Hc in Hc'. injection Hc' as <-.
  assert (Hall : forall c, In c cands ->
     (0 <= c_gi c < Z.of_nat (p_w pi))%Z /\ (0 <= c_gj c < Z.of_nat (p_h pi))%Z /\
     (c_a c < p_na pi)%nat /\ c_anch c = Detect.anchors det i (c_a c) /\
     exists t, nth_error targets (c_gt c) = Some t /\
               c_b c = Qtrunc (t_img t) /\ c_cls c = Qtrunc (t_cls t) /\
               c_labels c = t_labels t).
  { intros c Hin.
    destruct (layer_In_row _ _ _ _ _ _ _ _ _ _ c Hl Hin)
      as [t [k [Ht [Ha [_ [_ [_ Hdef]]]]]]].
    destruct (define_indices clamped (Detect.anchors det i) (p_w pi) (p_h pi)
                (pair_row (Detect.stride det i) (c_gt c) (c_a c) t) k
                (nth k (Static.off g) (0, 0))) as [Eb [Ec [Egi [Egj [Ean El]]]]].
    rewrite <- Hdef in Eb, Ec, Egi, Egj, Ean, El. cbn [pair_row Static.a_t Static.a_anchor
      Static.scale t_img t_cls t_labels] in Eb, Ec, Ean, El.
    pose proof (clampZ_range 0 (Z.of_nat (p_w pi) - 1)
                  (Qtrunc (t_x (Static.a_t (pair_row (Detect.stride det i) (c_gt c) (c_a c) t))
                           - fst (nth k (Static.off g) (0, 0)))) ltac:(lia)) as Ri.
    pose proof (clampZ_range 0 (Z.of_nat (p_h pi) - 1)
                  (Qtrunc (t_y (Static.a_t (pair_row (Detect.stride det i) (c_gt c) (c_a c) t))
                           - snd (nth k (Static.off g) (0, 0)))) ltac:(lia)) as Rj.
    rewrite <- Egi in Ri. rewrite <- Egj in Rj.
    split; [lia|]. split; [lia|]. split; [lia|]. split; [exact Ean|].
    exists t. auto. }
  split; [exact Hall|].
  unfold ComputeLoss.gather.
  destruct (mapM_ok
              (fun c =>
                 b <- norm_index (p_bs pi) (c_b c) ;;
                 a <- norm_index (p_na pi) (Z.of_nat (c_a c)) ;;
                 gj <- norm_index (p_h pi) (c_gj c) ;;
                 gi <- norm_index (p_w pi) (c_gi c) ;;
                 Ok ((b, a, gj, gi), map (p_at pi b a gj gi) (seq 0 (p_no pi))))
              (fun _ _ => True) cands) as [ps [Hps HF]].
  - intros c Hin. destruct (Hall c Hin) as [Ri [Rj [Ra [_ [t [Ht [Eb _]]]]]]].
    destruct (norm_index_ok (p_bs pi) (c_b c)) as [b Hbk].
    { rewrite Eb. apply Himg. eapply nth_error_In. exact Ht. }
    destruct (norm_index_ok (p_na pi) (Z.of_nat (c_a c)) ltac:(lia)) as [a Hak].
    destruct (norm_index_ok (p_h pi) (c_gj c) ltac:(lia)) as [gj Hgj].
    destruct (norm_index_ok (p_w pi) (c_gi c) ltac:(lia)) as [gi Hgi].
    rewrite Hbk, Hak, Hgj, Hgi. cbn [bind]. eexists. split; [reflexivity|exact I].
  - exists ps. split; [exact Hps|]. symmetry. exact (Forall2_length HF).
Qed.

Lemma define_inside (anchors : nat -> Q * Q) (w h : nat) (r : Static.arow) (k : nat) :
  0 <= t_x (Static.a_t r) -> t_x (Static.a_t r) < inject_Z (Z.of_nat w) ->
  0 <= t_y (Static.a_t r) -> t_y (Static.a_t r) < inject_Z (Z.of_nat h) ->
  (k < 5)%nat -> nth k (Static.selects 0.5 w h (Static.a_t r)) false = true ->
  Static.define true anchors w h (r, k, nth k (Static.off 0.5) (0, 0))
  = Static.define false anchors w h (r, k, nth k (Static.off 0.5) (0, 0)).
Proof.
  intros Hx0 Hxw Hy0 Hyh Hk Hsel.
  destruct (selected_row_inside w h (Static.a_t r) k Hx0 Hxw Hy0 Hyh Hk Hsel)
    as [Ri [Rj _]].
  destruct (nth k (Static.off 0.5) (0, 0)) as [ox oy]. cbn [fst snd] in Ri, Rj.
  unfold Static.define.
  rewrite (clampZ_inside _ _ _ Ri), (clampZ_inside _ _ _ Rj). reflexivity.
Qed.

(** X13. When every scaled box centre lies inside the grid of every layer,
    [ComputeLoss.build_targets] and [find_3_positive] return the same
    candidates: the in-place clamp, which the two read at different
    moments, changes nothing then. *)
Theorem builders_agree_inside_the_grid (self : ComputeLoss.t) (p : list pred_layer)
        (targets : list target) :
  (forall i pi t,
      (i < Detect.nl (ComputeLoss.det self))%nat -> nth_error p i = Some pi ->
      In t targets ->
      let t' := Static.scale (Detect.stride (ComputeLoss.det self) i) t in
      0 <= t_x t' /\ t_x t' < inject_Z (Z.of_nat (p_w pi)) /\
      0 <= t_y t' /\ t_y t' < inject_Z (Z.of_nat (p_h pi))) ->
  ComputeLoss.build_targets self p targets
  = ComputeLossOTA.find_3_positive (ComputeLoss.hyp self) (ComputeLoss.det self) p targets.
Proof.
  intros Hin. unfold ComputeLoss.build_targets, ComputeLossOTA.find_3_positive, Static.build.
  apply mapM_ext_in. intros i Hi. apply in_seq in Hi.
  unfold lookup. destruct (nth_error p i) as [pi|] eqn:Hpi; [|reflexivity].
  cbn [bind]. unfold Static.layer.
  destruct (negb (length targets =? 0)%nat) eqn:Ent.
  - cbn [bind]. f_equal. apply map_ext_in. intros [[r k] o] He.
    apply expand_In in He. cbn [fst snd] in He. destruct He as [Hr [Hk [Hsel ->]]].
    apply gate_In in Hr. destruct Hr as [t [Ht [_ [Hat _]]]].
    apply nth_error_In in Ht.
    destruct (Hin i pi t ltac:(lia) Hpi Ht) as [X0 [X1 [Y0 Y1]]].
    apply define_inside; try assumption; now rewrite Hat.
  - apply negb_false_iff, Nat.eqb_eq, length_zero_iff_nil in Ent. subst targets.
    unfold Static.repeat_targets, lookup.
    destruct (Detect.na (ComputeLoss.det self)); reflexivity.
Qed.

(** X14. For a box centre inside the grid, the box of a candidate holds
    the offsets of the centre from the candidate's cell, both in
    (-1/2, 3/2), i.e. in the range of the decoded prediction
    [sigmoid * 2 - 0.5], and cell plus offset is the centre; width and
    height are those of the scaled box. *)
Theorem candidate_offsets_inside_the_grid
        (clamped : bool) (hyp : Hyp.t) (det : Detect.t)
        (p : list pred_layer) (targets : list target)
        (built : list (list candidate)) (i : nat) (pi : pred_layer)
        (cands : list candidate) (c : candidate) (t : target) :
  Static.build 0.5 clamped hyp det p targets = Ok built ->
  nth_error p i = Some pi -> nth_error built i = Some cands -> In c cands ->
  nth_error targets (c_gt c) = Some t ->
  let t' := Static.scale (Detect.stride det i) t in
  0 <= t_x t' -> t_x t' < inject_Z (Z.of_nat (p_w pi)) ->
  0 <= t_y t' -> t_y t' < inject_Z (Z.of_nat (p_h pi)) ->
  let '(bx, by_, bw, bh) := c_tbox c in
  - 0.5 < bx /\ bx < 1.5 /\ - 0.5 < by_ /\ by_ < 1.5 /\
  inject_Z (c_gi c) + bx == t_x t' /\ inject_Z (c_gj c) + by_ == t_y t' /\
  bw = t_w t' /\ bh = t_h t'.
Proof.
  intros Hb Hpi Hc Hin Ht t' X0 X1 Y0 Y1.
  assert (Hi : (i < Detect.nl det)%nat).
  { rewrite <- (proj1 (build_length _ _ _ _ _ _ _ Hb)). apply nth_error_Some. congruence. }
  destruct (build_layer _ _ _ _ _ _ _ _ Hb Hi) as [pi' [cands' [Hpi' [Hc' Hl]]]].
  rewrite Hpi in Hpi'. injection Hpi' as <-. rewrite Hc in Hc'. injection Hc' as <-.
  destruct (layer_In_row _ _ _ _ _ _ _ _ _ _ c Hl Hin)
    as [t0 [k [Ht0 [_ [Hk [_ [Hsel Hdef]]]]]]].
  rewrite Ht in Ht0. injection Ht0 as <-. fold t' in Hsel.
  destruct (selected_row_inside (p_w pi) (p_h pi) t' k X0 X1 Y0 Y1 Hk Hsel)
    as [Ri [Rj [A1 [A2 [B1 B2]]]]].
  rewrite Hdef. destruct (nth k (Static.off 0.5) (0, 0)) as [ox oy].
  cbn [fst snd] in *. unfold Static.define.
  cbn [pair_row Static.a_t c_tbox c_gi c_gj]. fold t'.
  rewrite (clampZ_inside _ _ _ Ri), (clampZ_inside _ _ _ Rj).
  destruct clamped; repeat split; try assumption; try reflexivity; ring.
Qed.

(** ** Candidates of a pair off the grid lines *)

Lemma Qrem1_of_Z (x : Q) (z : Z) : x == inject_Z z -> Qrem1 x == 0.
Proof.
  intros E. unfold Qrem1.
  assert (F : Qfloor x = z).
  { apply Qfloor_unique; rewrite ?inject_Z_plus; change (inject_Z 1) with 1; lra. }
  rewrite F. lra.
Qed.

(** Where the offsets of a selected row of [off] lie, for a centre inside
    the grid and off the grid lines: a region of its own for every row. *)
Lemma selected_row_region (w h : nat) (t : target) (k : nat) :
  0 <= t_x t -> t_x t < inject_Z (Z.of_nat w) ->
  0 <= t_y t -> t_y t < inject_Z (Z.of_nat h) ->
  ~ Qrem1 (t_x t) == 0 -> ~ Qrem1 (t_y t) == 0 ->
  (k < 5)%nat -> nth k (Static.selects 0.5 w h t) false = true ->
  let o := nth k (Static.off 0.5) (0, 0) in
  let bx := t_x t - inject_Z (Qtrunc (t_x t - fst o)) in
  let by_ := t_y t - inject_Z (Qtrunc (t_y t - snd o)) in
  match k with
  | 0%nat => 0 <= bx /\ bx < 1 /\ 0 <= by_ /\ by_ < 1
  | 1%nat => 1 <= bx /\ 0 <= by_ /\ by_ < 1
  | 2%nat => 0 <= bx /\ bx < 1 /\ 1 <= by_
  | 3%nat => bx < 0 /\ 0 <= by_ /\ by_ < 1
  | _ => 0 <= bx /\ bx < 1 /\ by_ < 0
  end.
Proof.
  intros Hx0 Hxw Hy0 Hyh Gx Gy Hk Hsel.
  destruct (axis_centre w (t_x t) Hx0 Hxw) as [Cx [Cx1 Cx2]].
  destruct (axis_centre h (t_y t) Hy0 Hyh) as [Cy [Cy1 Cy2]].
  unfold Static.selects in Hsel.
  destruct k as [|[|[|[|[|k]]]]]; [| | | | |lia]; cbn [nth Static.off fst snd] in *.
  - repeat split; assumption.
  - apply andb_true_iff in Hsel. destruct Hsel as [S1 S2].
    destruct (axis_low w (t_x t) S1 S2 Hxw) as [L [L1 L2]].
    repeat split; assumption.
  - apply andb_true_iff in Hsel. destruct Hsel as [S1 S2].
    destruct (axis_low h (t_y t) S1 S2 Hyh) as [L [L1 L2]].
    repeat split; assumption.
  - apply andb_true_iff in Hsel. destruct Hsel as [S1 S2].
    destruct (axis_high w (t_x t) S1 S2 Hx0) as [L [L1 L2]].
    repeat split; try assumption.
    apply Qnot_le_lt. intros Hle. apply Gx.
    apply (Qrem1_of_Z _ (Qtrunc (t_x t - -1 * 0.5))). lra.
  - apply andb_true_iff in Hsel. destruct Hsel as [S1 S2].
    destruct (axis_high h (t_y t) S1 S2 Hy0) as [L [L1 L2]].
    repeat split; try assumption.
    apply Qnot_le_lt. intros Hle. apply Gy.
    apply (Qrem1_of_Z _ (Qtrunc (t_y t - -1 * 0.5))). lra.
Qed.

Lemma NoDup_map_inj_in {A B : Type} (f : A -> B) (l : list A) :
  NoDup l -> (forall x y, In x l -> In y l -> f x = f y -> x = y) -> NoDup (map f l).
Proof.
  induction 1 as [|x l Hx Hnd IH]; intros Hinj; simpl; constructor.
  - intros Hin. apply in_map_iff in Hin. destruct Hin as [y [Hy Hyl]].
    assert (y = x) by (apply Hinj; simpl; auto). subst. contradiction.
  - apply IH. intros a b Ha Hb. apply Hinj; simpl; auto.
Qed.

(** X15. When the static builder returns (bias 0.5), a (ground truth,
    anchor) pair that passes the gate and whose centre has no integral
    grid coordinate has 1 to 3 candidates; for a centre inside the grid
    the first one is the cell of the centre and the cells are pairwise
    distinct. *)
Theorem off_grid_pair_yields_up_to_three_distinct_cells
        (clamped : bool) (hyp : Hyp.t) (det : Detect.t)
        (p : list pred_layer) (targets : list target) (built : list (list candidate))
        (i gt a : nat) (t : target) :
  Static.build 0.5 clamped hyp det p targets = Ok built ->
  (i < Detect.nl det)%nat -> nth_error targets gt = Some t ->
  (a < Detect.na det)%nat ->
  Static.shape_ok (Hyp.anchor_t hyp) (Detect.anchors det i a)
                  (Static.scale (Detect.stride det i) t) = true ->
  exists pi cands,
    nth_error p i = Some pi /\ nth_error built i = Some cands /\
    let own := filter (Static.from_pair gt a) cands in
    let t' := Static.scale (Detect.stride det i) t in
    ~ Qrem1 (t_x t') == 0 -> ~ Qrem1 (t_y t') == 0 ->
    (1 <= length own <= 3)%nat /\
    (0 <= t_x t' -> t_x t' < inject_Z (Z.of_nat (p_w pi)) ->
     0 <= t_y t' -> t_y t' < inject_Z (Z.of_nat (p_h pi)) ->
     (exists rest, map (fun c => (c_gi c, c_gj c)) own
                   = (Qfloor (t_x t'), Qfloor (t_y t')) :: rest) /\
     NoDup (map (fun c => (c_gi c, c_gj c)) own)).
Proof.
  intros Hb Hi Ht Ha Hok.
  destruct (build_layer _ _ _ _ _ _ _ _ Hb Hi) as [pi [cands [Hpi [Hc Hl]]]].
  exists pi, cands. split; [exact Hpi|]. split; [exact Hc|].
  intros own t' Gx Gy.
  destruct (layer_pair 0.5 clamped (Hyp.anchor_t hyp) (Detect.na det)
              (Detect.anchors det i) (Detect.stride det i) (p_w pi) (p_h pi)
              targets gt a t Ht Ha) as [out [Hout Hown]].
  rewrite Hl in Hout. injection Hout as <-. rewrite Hok in Hown. fold own t' in Hown.
  split.
  { rewrite Hown, length_map. split; [apply selects_count|].
    now apply selects_count_off_grid. }
  intros X0 X1 Y0 Y1. rewrite Hown, map_map.
  set (cell := fun k : nat => _).
  assert (Hcell : forall k, (k < 5)%nat ->
            nth k (Static.selects 0.5 (p_w pi) (p_h pi) t') false = true ->
            cell k = (Qtrunc (t_x t' - fst (nth k (Static.off 0.5) (0, 0))),
                      Qtrunc (t_y t' - snd (nth k (Static.off 0.5) (0, 0))))).
  { intros k Hk Hsel. subst cell. cbv beta.
    destruct (selected_row_inside (p_w pi) (p_h pi) t' k X0 X1 Y0 Y1 Hk Hsel)
      as [Ri [Rj _]].
    destruct (nth k (Static.off 0.5) (0, 0)) as [ox oy]. cbn [fst snd] in *.
    unfold Static.define. cbn [c_gi c_gj pair_row Static.a_t]. fold t'.
    now rewrite (clampZ_inside _ _ _ Ri), (clampZ_inside _ _ _ Rj). }
  split.
  - unfold Static.selects. cbn [seq filter nth map].
    eexists. f_equal.
    rewrite (Hcell 0%nat ltac:(lia) eq_refl). cbn [nth Static.off fst snd].
    rewrite !Qtrunc_nonneg_floor by lra.
    f_equal; apply Qfloor_comp; ring.
  - apply NoDup_map_inj_in.
    { apply NoDup_filter, seq_NoDup. }
    intros k1 k2 H1 H2 E.
    apply filter_In in H1, H2. destruct H1 as [K1 S1], H2 as [K2 S2].
    apply in_seq in K1, K2.
    rewrite (Hcell k1 ltac:(lia) S1), (Hcell k2 ltac:(lia) S2) in E.
    pose proof (f_equal fst E) as Ex. pose proof (f_equal snd E) as Ey.
    cbn [fst snd] in Ex, Ey.
    pose proof (selected_row_region (p_w pi) (p_h pi) t' k1 X0 X1 Y0 Y1 Gx Gy
                  ltac:(lia) S1) as R1.
    pose proof (selected_row_region (p_w pi) (p_h pi) t' k2 X0 X1 Y0 Y1 Gx Gy
                  ltac:(lia) S2) as R2.
    cbv zeta in R1, R2. rewrite Ex, Ey in R1.
    destruct k1 as [|[|[|[|[|k1]]]]]; [| | | | |lia];
      destruct k2 as [|[|[|[|[|k2]]]]]; try lia; try reflexivity; exfalso; lra.
Qed.

(** ** [find_5_positive] *)

Lemma mapM_In {A B : Type} (f : A -> res B) (l : list A) (ys : list B) (y : B) :
  mapM f l = Ok ys -> In y ys -> exists x, In x l /\ f x = Ok y.
Proof.
  revert ys. induction l as [|x l IH]; intros ys Hm Hy; simpl in Hm.
  - injection Hm as <-. destruct Hy.
  - destruct (f x) as [y0|e] eqn:E0; [|discriminate]. cbn [bind] in Hm.
    destruct (mapM f l) as [ys'|e]; [|discriminate]. cbn [bind] in Hm.
    injection Hm as <-. destruct Hy as [<-|Hy].
    + exists x. split; [now left|exact E0].
    + destruct (IH ys' eq_refl Hy) as [x' [Hx' Hf]]. exists x'.
      split; [now right|exact Hf].
Qed.

Lemma mapM_all_ok {A B : Type} (f : A -> res B) (l : list A) (ys : list B) (x : A) :
  mapM f l = Ok ys -> In x l -> exists y, f x = Ok y.
Proof.
  intros Hm Hin. apply In_nth_error in Hin. destruct Hin as [i Hi].
  destruct (mapM_nth _ _ _ _ _ Hm Hi) as [y [_ Hy]]. now exists y.
Qed.

Lemma mapM_map {A B : Type} (f : A -> res B) (g : A -> B) (l : list A) (ys : list B) :
  (forall x y, In x l -> f x = Ok y -> y = g x) ->
  mapM f l = Ok ys -> ys = map g l.
Proof.
  revert ys. induction l as [|x l IH]; intros ys Hfg Hm; simpl in Hm.
  - now injection Hm as <-.
  - destruct (f x) as [y0|e] eqn:E0; [|discriminate]. cbn [bind] in Hm.
    destruct (mapM f l) as [ys'|e]; [|discriminate]. cbn [bind] in Hm.
    injection Hm as <-. simpl. f_equal.
    + apply Hfg; [now left|exact E0].
    + apply IH; [|reflexivity]. intros x' y' Hx'. apply Hfg. now right.
Qed.

Lemma norm_index_inv (size : nat) (idx : Z) (k : nat) :
  norm_index size idx = Ok k ->
  (- Z.of_nat size <= idx < Z.of_nat size)%Z /\ (k < size)%nat /\
  Z.of_nat k = (idx mod Z.of_nat size)%Z.
Proof.
  unfold norm_index. intros Hk.
  destruct ((0 <=? idx) && (idx <? Z.of_nat size))%Z eqn:E1.
  - apply andb_true_iff in E1. destruct E1 as [A B].
    apply Z.leb_le in A. apply Z.ltb_lt in B. injection Hk as <-.
    rewrite Z2Nat.id by lia. rewrite Z.mod_small by lia. lia.
  - destruct ((- Z.of_nat size <=? idx) && (idx <? 0))%Z eqn:E2; [|discriminate].
    apply andb_true_iff in E2. destruct E2 as [A B].
    apply Z.leb_le in A. apply Z.ltb_lt in B. injection Hk as <-.
    rewrite Z2Nat.id by lia.
    rewrite <- (Z.mod_small (idx + Z.of_nat size) (Z.of_nat size)) at 2 by lia.
    rewrite <- (Z_mod_plus_full idx 1 (Z.of_nat size)).
    rewrite Z.mul_1_l. lia.
Qed.

Lemma norm_index_raises (size : nat) (idx : Z) :
  (idx < - Z.of_nat size \/ Z.of_nat size <= idx)%Z ->
  norm_index size idx = Raise IndexError.
Proof.
  intros Hi. unfold norm_index.
  destruct ((0 <=? idx) && (idx <? Z.of_nat size))%Z eqn:E1.
  { apply andb_true_iff in E1. destruct E1 as [A B].
    apply Z.leb_le in A. apply Z.ltb_lt in B. lia. }
  destruct ((- Z.of_nat size <=? idx) && (idx <? 0))%Z eqn:E2; [|reflexivity].
  apply andb_true_iff in E2. destruct E2 as [A B].
  apply Z.leb_le in A. apply Z.ltb_lt in B. lia.
Qed.

Lemma define5_inv (anchors : nat -> Q * Q) (na w h : nat)
      (r : Static.arow) (k : nat) (o : Q * Q) (c : candidate5) :
  ComputeLossAuxOTA.define5 anchors na w h (r, k, o) = Ok c ->
  exists ia,
    norm_index na (Qtrunc (t_theta (Static.a_t r))) = Ok ia /\
    c5_gt c = Static.a_gt r /\ c5_anchor c = Static.a_anchor r /\ c5_off c = k /\
    c5_b c = Qtrunc (t_img (Static.a_t r)) /\
    c5_a c = Qtrunc (t_theta (Static.a_t r)) /\
    c5_gi c = clampZ 0 (Z.of_nat w - 1) (Qtrunc (t_x (Static.a_t r) - fst o)) /\
    c5_gj c = clampZ 0 (Z.of_nat h - 1) (Qtrunc (t_y (Static.a_t r) - snd o)) /\
    c5_anch c = anchors ia.
Proof.
  destruct o as [ox oy]. unfold ComputeLossAuxOTA.define5. intros Hd.
  destruct (norm_index na _) as [ia|e] eqn:Hn; [|discriminate].
  cbn [bind] in Hd. injection Hd as <-. exists ia. simpl. repeat split; reflexivity.
Qed.

Lemma find_5_layer (hyp : Hyp.t) (det : Detect.t) (p : list pred_layer)
      (targets : list target) (built : list (list candidate5)) (i : nat) :
  ComputeLossAuxOTA.find_5_positive hyp det p targets = Ok built ->
  (i < Detect.nl det)%nat ->
  exists pi cands,
    nth_error p i = Some pi /\ nth_error built i = Some cands /\
    ComputeLossAuxOTA.layer5 (Hyp.anchor_t hyp) (Detect.na det) (Detect.anchors det i)
                   (Detect.stride det i) (p_w pi) (p_h pi) targets = Ok cands.
Proof.
  unfold ComputeLossAuxOTA.find_5_positive. intros Hb Hi.
  assert (Hnth : nth_error (seq 0 (Detect.nl det)) i = Some i).
  { rewrite nth_error_nth' with (d := 0%nat) by (now rewrite length_seq).
    now rewrite seq_nth. }
  destruct (mapM_nth _ _ _ _ _ Hb Hnth) as [cands [Hc Hf]].
  unfold lookup in Hf. destruct (nth_error p i) as [pi|]; [|discriminate].
  cbn [bind] in Hf. exists pi, cands. auto.
Qed.

Lemma layer5_rows (anchor_t : Q) (na : nat) (anchors : nat -> Q * Q) (stride : Q)
      (w h : nat) (targets : list target) (out : list candidate5) :
  ComputeLossAuxOTA.layer5 anchor_t na anchors stride w h targets = Ok out ->
  targets <> [] ->
  mapM (ComputeLossAuxOTA.define5 anchors na w h)
       (Static.expand 1 w h
          (Static.gate anchor_t anchors
             (Static.scale_rows stride (Static.repeat_targets na targets)))) = Ok out.
Proof.
  unfold ComputeLossAuxOTA.layer5. intros Hout Hne.
  destruct (length targets =? 0)%nat eqn:E.
  - apply Nat.eqb_eq, length_zero_iff_nil in E. contradiction.
  - exact Hout.
Qed.

Lemma layer5_empty (anchor_t : Q) (na : nat) (anchors : nat -> Q * Q) (stride : Q)
      (w h : nat) (out : list candidate5) :
  ComputeLossAuxOTA.layer5 anchor_t na anchors stride w h [] = Ok out -> out = [].
Proof.
  unfold ComputeLossAuxOTA.layer5, Static.repeat_targets. simpl.
  destruct na as [|na']; simpl; [discriminate|]. intros E. now injection E as <-.
Qed.

(** X16. [find_5_positive] reads the anchor index of a candidate from
    column 6 of its row, which holds the angle of the box, not from the
    appended anchor column: the index is the truncated angle, whatever
    anchor passed the gate, and the anchor shape is that of this index
    (counted from the end when negative).  For an angle in (-1, 1) the
    index is 0. *)
Theorem find_5_positive_takes_the_anchor_from_the_angle
        (hyp : Hyp.t) (det : Detect.t) (p : list pred_layer) (targets : list target)
        (built : list (list candidate5)) (i : nat) (cands : list candidate5)
        (c : candidate5) :
  ComputeLossAuxOTA.find_5_positive hyp det p targets = Ok built ->
  nth_error built i = Some cands -> In c cands ->
  exists t,
    nth_error targets (c5_gt c) = Some t /\
    (c5_anchor c < Detect.na det)%nat /\
    Static.shape_ok (Hyp.anchor_t hyp) (Detect.anchors det i (c5_anchor c))
                    (Static.scale (Detect.stride det i) t) = true /\
    c5_a c = Qtrunc (t_theta t) /\
    (- Z.of_nat (Detect.na det) <= c5_a c < Z.of_nat (Detect.na det))%Z /\
    c5_anch c
    = Detect.anchors det i (Z.to_nat (c5_a c mod Z.of_nat (Detect.na det))) /\
    (- 1 < t_theta t -> t_theta t < 1 ->
     c5_a c = 0%Z /\ c5_anch c = Detect.anchors det i 0).
Proof.
  intros Hb Hc Hin.
  assert (Hi : (i < Detect.nl det)%nat).
  { unfold ComputeLossAuxOTA.find_5_positive in Hb. apply mapM_length in Hb.
    rewrite length_seq in Hb. rewrite <- Hb. apply nth_error_Some. congruence. }
  destruct (find_5_layer _ _ _ _ _ _ Hb Hi) as [pi [cands' [Hpi [Hc' Hl]]]].
  rewrite Hc in Hc'. injection Hc' as <-.
  assert (Hne : targets <> []).
  { intros ->. apply layer5_empty in Hl. subst cands. destruct Hin. }
  apply layer5_rows in Hl; [|exact Hne].
  destruct (mapM_In _ _ _ _ Hl Hin) as [[[r k] o] [He Hd]].
  apply expand_In in He. cbn [fst snd] in He. destruct He as [Hr _].
  apply gate_In in Hr. destruct Hr as [t [Ht [Ha [Hat Hok]]]].
  destruct (define5_inv _ _ _ _ _ _ _ _ Hd)
    as [ia [Hn [Eg [Ea [_ [_ [Eth [_ [_ Ean]]]]]]]]].
  rewrite Hat in Hn, Eth. cbn [Static.scale t_theta] in Hn, Eth.
  destruct (norm_index_inv _ _ _ Hn) as [Hrange [Hia Hmod]].
  exists t. rewrite Eg, Ea, Eth. split; [exact Ht|]. split; [exact Ha|].
  split; [exact Hok|]. split; [reflexivity|]. split; [exact Hrange|].
  assert (Eia : ia = Z.to_nat (Qtrunc (t_theta t) mod Z.of_nat (Detect.na det))) by lia.
  split; [rewrite Ean, Eia; reflexivity|].
  intros L U.
  assert (Ez : Qtrunc (t_theta t) = 0%Z).
  { unfold Qtrunc. apply Z.quot_small_iff; [lia|].
    destruct (t_theta t) as [n d]. unfold Qlt in L, U. simpl in *. lia. }
  split; [exact Ez|]. rewrite Ean, Eia, Ez. rewrite Z.mod_0_l by lia. reflexivity.
Qed.

Lemma norm_index_outcome (size : nat) (idx : Z) :
  (exists k, norm_index size idx = Ok k) \/ norm_index size idx = Raise IndexError.
Proof.
  unfold norm_index.
  destruct ((0 <=? idx) && (idx <? Z.of_nat size))%Z; [left; eexists; reflexivity|].
  destruct ((- Z.of_nat size <=? idx) && (idx <? 0))%Z; [left; eexists; reflexivity|].
  now right.
Qed.

Lemma mapM_outcome {A B : Type} (f : A -> res B) (l : list A) (e : exn) :
  (forall x, In x l -> (exists y, f x = Ok y) \/ f x = Raise e) ->
  (exists ys, mapM f l = Ok ys) \/ mapM f l = Raise e.
Proof.
  induction l as [|x l IH]; intros Hall; simpl.
  - left. eexists. reflexivity.
  - destruct (Hall x (or_introl eq_refl)) as [[y Hy]|Hr]; [|right; now rewrite Hr].
    rewrite Hy. cbn [bind].
    destruct IH as [[ys Hys]|Hr]; [intros z Hz; apply Hall; now right| |].
    + left. rewrite Hys. eexists. reflexivity.
    + right. now rewrite Hr.
Qed.

Lemma define5_outcome (anchors : nat -> Q * Q) (na w h : nat)
      (e : Static.arow * nat * (Q * Q)) :
  (exists c, ComputeLossAuxOTA.define5 anchors na w h e = Ok c) \/
  ComputeLossAuxOTA.define5 anchors na w h e = Raise IndexError.
Proof.
  destruct e as [[r k] [ox oy]]. unfold ComputeLossAuxOTA.define5.
  destruct (norm_index_outcome na (Qtrunc (t_theta (Static.a_t r)))) as [[ia Hia]|Hr];
    rewrite ?Hia, ?Hr; cbn [bind]; [left; eexists; reflexivity|now right].
Qed.

Lemma layer5_outcome (anchor_t : Q) (na : nat) (anchors : nat -> Q * Q) (stride : Q)
      (w h : nat) (targets : list target) :
  (exists out, ComputeLossAuxOTA.layer5 anchor_t na anchors stride w h targets = Ok out) \/
  ComputeLossAuxOTA.layer5 anchor_t na anchors stride w h targets = Raise IndexError.
Proof.
  unfold ComputeLossAuxOTA.layer5.
  destruct (negb (length targets =? 0)%nat); cbn [bind].
  - apply mapM_outcome. intros e _. apply define5_outcome.
  - unfold lookup. destruct (nth_error _ 0); cbn [bind]; [|now right].
    apply mapM_outcome. intros e _. apply define5_outcome.
Qed.

Lemma In_gate_pair (anchor_t : Q) (anchors : nat -> Q * Q) (stride : Q) (na : nat)
      (targets : list target) (gt a : nat) (t : target) :
  nth_error targets gt = Some t -> (a < na)%nat ->
  Static.shape_ok anchor_t (anchors a) (Static.scale stride t) = true ->
  In (pair_row stride gt a t)
     (Static.gate anchor_t anchors
        (Static.scale_rows stride (Static.repeat_targets na targets))).
Proof.
  intros Ht Ha Hok.
  pose proof (gate_pair anchor_t anchors stride na targets gt a t Ht Ha) as Hf.
  rewrite Hok in Hf.
  assert (Hin : In (pair_row stride gt a t) [pair_row stride gt a t]) by now left.
  rewrite <- Hf in Hin. apply filter_In in Hin. tauto.
Qed.

(** X17. [find_5_positive] raises [IndexError] as soon as a ground truth
    passes the gate of some layer and anchor while its truncated angle is
    not an index of the anchors, i.e. not in [[-na, na)]. *)
Theorem find_5_positive_rejects_angles_beyond_the_anchors
        (hyp : Hyp.t) (det : Detect.t) (p : list pred_layer) (targets : list target)
        (i gt a : nat) (t : target) :
  (i < Detect.nl det)%nat -> nth_error targets gt = Some t ->
  (a < Detect.na det)%nat ->
  Static.shape_ok (Hyp.anchor_t hyp) (Detect.anchors det i a)
                  (Static.scale (Detect.stride det i) t) = true ->
  (Qtrunc (t_theta t) < - Z.of_nat (Detect.na det)
   \/ Z.of_nat (Detect.na det) <= Qtrunc (t_theta t))%Z ->
  ComputeLossAuxOTA.find_5_positive hyp det p targets = Raise IndexError.
Proof.
  intros Hi Ht Ha Hok Hth. unfold ComputeLossAuxOTA.find_5_positive. apply mapM_raise.
  - intros j _. unfold lookup. destruct (nth_error p j) as [pj|]; cbn [bind];
      [apply layer5_outcome|now right].
  - exists i. split; [apply in_seq; lia|].
    unfold lookup. destruct (nth_error p i) as [pi|]; cbn [bind]; [|reflexivity].
    unfold ComputeLossAuxOTA.layer5.
    destruct (length targets =? 0)%nat eqn:E.
    { apply Nat.eqb_eq, length_zero_iff_nil in E. subst. destruct gt; discriminate. }
    cbn [negb bind]. apply mapM_raise.
    + intros e _. apply define5_outcome.
    + exists (pair_row (Detect.stride det i) gt a t, 0%nat, nth 0 (Static.off 1) (0, 0)).
      split.
      * unfold Static.expand. apply in_flat_map. exists 0%nat.
        split; [simpl; auto|]. apply in_map_iff.
        exists (pair_row (Detect.stride det i) gt a t). split; [reflexivity|].
        apply filter_In. split; [now apply In_gate_pair|reflexivity].
      * cbn [nth Static.off]. unfold ComputeLossAuxOTA.define5.
        cbn [pair_row Static.a_t Static.scale t_theta].
        now rewrite norm_index_raises.
Qed.

(** The rows of the expanded tensor that stem from ground truth [gt] and
    anchor [a]: one per selected row of [off], in the order of [off]. *)
Lemma expand_gate_pair (g anchor_t : Q) (na : nat) (anchors : nat -> Q * Q)
      (stride : Q) (w h : nat) (targets : list target) (gt a : nat) (t : target) :
  nth_error targets gt = Some t -> (a < na)%nat ->
  filter (fun e : Static.arow * nat * (Q * Q) =>
            ((Static.a_gt (fst (fst e)) =? gt)
             && (Static.a_anchor (fst (fst e)) =? a))%nat)
         (Static.expand g w h
            (Static.gate anchor_t anchors
               (Static.scale_rows stride (Static.repeat_targets na targets))))
  = if Static.shape_ok anchor_t (anchors a) (Static.scale stride t)
    then map (fun k => (pair_row stride gt a t, k, nth k (Static.off g) (0, 0)))
             (filter (fun k => nth k (Static.selects g w h (Static.scale stride t)) false)
                     (seq 0 5))
    else [].
Proof.
  intros Ht Ha. unfold Static.expand. rewrite filter_flat_map.
  rewrite (flat_map_ext _
             (fun k => if Static.shape_ok anchor_t (anchors a) (Static.scale stride t)
                          && nth k (Static.selects g w h (Static.scale stride t)) false
                       then [(pair_row stride gt a t, k, nth k (Static.off g) (0, 0))]
                       else [])).
  - destruct (Static.shape_ok anchor_t (anchors a) (Static.scale stride t));
      cbn [andb].
    + now rewrite flat_map_if.
    + rewrite flat_map_nil; reflexivity.
  - intros k. rewrite filter_map_comm. cbn [fst snd].
    rewrite filter_filter_comm, (gate_pair _ _ _ _ _ _ _ _ Ht Ha).
    destruct (Static.shape_ok anchor_t (anchors a) (Static.scale stride t));
      cbn [filter andb map]; [|reflexivity].
    change (Static.a_t (pair_row stride gt a t)) with (Static.scale stride t).
    destruct (nth k (Static.selects g w h (Static.scale stride t)) false); reflexivity.
Qed.

Lemma Qrem1_lt_1 (x : Q) : Qltb (Qrem1 x) 1 = true.
Proof. apply Qltb_lt. apply Qrem1_range. Qed.

Lemma Qtrunc_shift (x : Q) (z : Z) :
  0 <= x - inject_Z z -> Qtrunc (x - inject_Z z) = (Qfloor x - z)%Z.
Proof.
  intros H0. rewrite Qtrunc_nonneg_floor by exact H0.
  destruct (Qfloor_bounds x) as [F1 F2].
  apply Qfloor_unique.
  - unfold Z.sub. rewrite inject_Z_plus, inject_Z_opp. lra.
  - replace (Qfloor x - z + 1)%Z with (Qfloor x + 1 + - z)%Z by lia.
    rewrite !inject_Z_plus, inject_Z_opp. change (inject_Z 1) with 1. lra.
Qed.

(** With bias 1, the cells along one axis for a centre more than one cell
    away from both borders. *)
Lemma axis5 (n : nat) (x : Q) :
  1 < x -> x < inject_Z (Z.of_nat n) - 1 ->
  let f := Qfloor x in
  Qtrunc (x - 0 * 1) = f /\ Qtrunc (x - 1 * 1) = (f - 1)%Z /\
  Qtrunc (x - -1 * 1) = (f + 1)%Z /\ (1 <= f <= Z.of_nat n - 2)%Z.
Proof.
  intros H1 Hn f. destruct (Qfloor_bounds x) as [F1 F2]. fold f in F1, F2.
  assert (A : (1 <= f)%Z).
  { assert (0 < f)%Z; [|lia]. apply inject_Z_le_lt. change (inject_Z 0) with 0. lra. }
  assert (B : (f <= Z.of_nat n - 2)%Z).
  { assert (f < Z.of_nat n - 1)%Z; [|lia]. apply inject_Z_le_lt.
    unfold Z.sub. rewrite inject_Z_plus, inject_Z_opp. change (inject_Z 1) with 1. lra. }
  rewrite !Qtrunc_nonneg_floor by lra.
  split; [|split; [|split; [|lia]]]; apply Qfloor_unique;
    unfold Z.sub; rewrite ?inject_Z_plus, ?inject_Z_opp; change (inject_Z 1) with 1; lra.
Qed.

(** X18. When [find_5_positive] returns (bias 1), a pair that passes the
    gate and whose centre is more than one cell away from every border of
    the grid has five candidates: the cell of the centre, then its left,
    upper, right and lower neighbour. *)
Theorem find_5_positive_interior_yields_cell_and_four_neighbours
        (hyp : Hyp.t) (det : Detect.t) (p : list pred_layer) (targets : list target)
        (built : list (list candidate5)) (i gt a : nat) (t : target) :
  ComputeLossAuxOTA.find_5_positive hyp det p targets = Ok built ->
  (i < Detect.nl det)%nat -> nth_error targets gt = Some t ->
  (a < Detect.na det)%nat ->
  Static.shape_ok (Hyp.anchor_t hyp) (Detect.anchors det i a)
                  (Static.scale (Detect.stride det i) t) = true ->
  exists pi cands,
    nth_error p i = Some pi /\ nth_error built i = Some cands /\
    let t' := Static.scale (Detect.stride det i) t in
    let fx := Qfloor (t_x t') in
    let fy := Qfloor (t_y t') in
    (1 < t_x t' -> t_x t' < inject_Z (Z.of_nat (p_w pi)) - 1 ->
     1 < t_y t' -> t_y t' < inject_Z (Z.of_nat (p_h pi)) - 1 ->
     map (fun c => (c5_off c, c5_gi c, c5_gj c)) (filter (ComputeLossAuxOTA.from_pair gt a) cands)
     = [(0%nat, fx, fy); (1%nat, (fx - 1)%Z, fy); (2%nat, fx, (fy - 1)%Z);
        (3%nat, (fx + 1)%Z, fy); (4%nat, fx, (fy + 1)%Z)]).
Proof.
  intros Hb Hi Ht Ha Hok.
  destruct (find_5_layer _ _ _ _ _ _ Hb Hi) as [pi [cands [Hpi [Hc Hl]]]].
  exists pi, cands. split; [exact Hpi|]. split; [exact Hc|].
  intros t' fx fy X1 X2 Y1 Y2.
  assert (Hne : targets <> []) by (intros ->; destruct gt; discriminate).
  apply layer5_rows in Hl; [|exact Hne].
  set (anchors := Detect.anchors det i) in *.
  set (w := p_w pi) in *. set (h := p_h pi) in *.
  set (rows := Static.expand 1 w h _) in Hl.
  set (dummy := {| c5_gt := 0; c5_anchor := 0; c5_off := 0; c5_b := 0; c5_a := 0;
                   c5_gj := 0; c5_gi := 0; c5_tbox := (0, 0, 0, 0);
                   c5_anch := (0, 0) |}).
  set (g5 := fun e => match ComputeLossAuxOTA.define5 anchors (Detect.na det) w h e with
                      | Ok c => c
                      | Raise _ => dummy
                      end).
  assert (Hg5 : forall e, In e rows ->
            ComputeLossAuxOTA.define5 anchors (Detect.na det) w h e = Ok (g5 e)).
  { intros e He. destruct (mapM_all_ok _ _ _ _ Hl He) as [c Hc5].
    unfold g5. now rewrite Hc5. }
  assert (Hmap : cands = map g5 rows).
  { apply (mapM_map _ g5 _ _) in Hl; [exact Hl|].
    intros e c He Hc5. unfold g5. now rewrite Hc5. }
  rewrite Hmap, filter_map_comm.
  rewrite (filter_ext_in _
             (fun e : Static.arow * nat * (Q * Q) =>
                ((Static.a_gt (fst (fst e)) =? gt)
                 && (Static.a_anchor (fst (fst e)) =? a))%nat)).
  2:{ intros [[r k] o] He. specialize (Hg5 _ He).
      destruct (define5_inv _ _ _ _ _ _ _ _ Hg5) as [_ [_ [Eg [Ea _]]]].
      unfold ComputeLossAuxOTA.from_pair. now rewrite Eg, Ea. }
  assert (Hrows : forall e,
            In e (filter (fun e : Static.arow * nat * (Q * Q) =>
                            ((Static.a_gt (fst (fst e)) =? gt)
                             && (Static.a_anchor (fst (fst e)) =? a))%nat) rows) ->
            In e rows) by (intros e He; apply filter_In in He; tauto).
  unfold rows in Hrows |- *.
  rewrite (expand_gate_pair 1 _ _ _ _ _ _ _ _ _ t Ht Ha) in Hrows |- *.
  fold anchors in Hok. rewrite Hok in Hrows |- *. fold t' in Hrows |- *.
  destruct (axis5 w (t_x t') X1 X2) as [Cx0 [Cx1 [Cx3 Rx]]].
  destruct (axis5 h (t_y t') Y1 Y2) as [Cy0 [Cy1 [Cy3 Ry]]].
  fold fx in Cx0, Cx1, Cx3, Rx. fold fy in Cy0, Cy1, Cy3, Ry.
  assert (Hsel : filter (fun k => nth k (Static.selects 1 w h t') false) (seq 0 5)
                 = [0; 1; 2; 3; 4]%nat).
  { unfold Static.selects. rewrite !Qrem1_lt_1.
    assert (S1 : Qltb 1 (t_x t') = true) by (apply Qltb_lt; lra).
    assert (S2 : Qltb 1 (t_y t') = true) by (apply Qltb_lt; lra).
    assert (S3 : Qltb 1 (inject_Z (Z.of_nat w) - t_x t') = true) by (apply Qltb_lt; lra).
    assert (S4 : Qltb 1 (inject_Z (Z.of_nat h) - t_y t') = true) by (apply Qltb_lt; lra).
    rewrite S1, S2, S3, S4. reflexivity. }
  rewrite Hsel in Hrows |- *. cbn [map] in Hrows |- *.
  assert (Hcell : forall k ox oy,
            In (pair_row (Detect.stride det i) gt a t, k, (ox, oy))
               [(pair_row (Detect.stride det i) gt a t, 0%nat, nth 0 (Static.off 1) (0, 0));
                (pair_row (Detect.stride det i) gt a t, 1%nat, nth 1 (Static.off 1) (0, 0));
                (pair_row (Detect.stride det i) gt a t, 2%nat, nth 2 (Static.off 1) (0, 0));
                (pair_row (Detect.stride det i) gt a t, 3%nat, nth 3 (Static.off 1) (0, 0));
                (pair_row (Detect.stride det i) gt a t, 4%nat, nth 4 (Static.off 1) (0, 0))] ->
            let c := g5 (pair_row (Detect.stride det i) gt a t, k, (ox, oy)) in
            c5_off c = k /\
            c5_gi c = clampZ 0 (Z.of_nat w - 1) (Qtrunc (t_x t' - ox)) /\
            c5_gj c = clampZ 0 (Z.of_nat h - 1) (Qtrunc (t_y t' - oy))).
  { intros k ox oy Hin. specialize (Hg5 _ (Hrows _ Hin)).
    destruct (define5_inv _ _ _ _ _ _ _ _ Hg5) as [_ [_ [_ [_ [Ek [_ [_ [Egi [Egj _]]]]]]]]].
    cbn [fst snd pair_row Static.a_t] in Egi, Egj. fold t' in Egi, Egj. auto. }
  cbn [nth Static.off] in Hcell |- *.
  destruct (Hcell 0%nat _ _ ltac:(simpl; auto)) as [K0 [I0 J0]].
  destruct (Hcell 1%nat _ _ ltac:(simpl; auto)) as [K1 [I1 J1]].
  destruct (Hcell 2%nat _ _ ltac:(simpl; auto)) as [K2 [I2 J2]].
  destruct (Hcell 3%nat _ _ ltac:(simpl; auto 6)) as [K3 [I3 J3]].
  destruct (Hcell 4%nat _ _ ltac:(simpl; auto 7)) as [K4 [I4 J4]].
  rewrite K0, K1, K2, K3, K4, I0, I1, I2, I3, I4, J0, J1, J2, J3, J4.
  rewrite Cx0, Cx1, Cx3, Cy0, Cy1, Cy3.
  rewrite !clampZ_inside by lia. reflexivity.
Qed.

(** ** The matching loop and the foreground mask *)

(** What the loop writes into the row of a ground truth. *)
Lemma claim_loop_row (cost : matrix) (ks : list Z) (gt_idx : nat) (m m' : matrix) :
  OTA.claim_loop cost ks gt_idx m = Ok m' ->
  forall i, (i < length ks)%nat ->
    exists vals pos_idx,
      topk (row cost (gt_idx + i)) (nth i ks 0%Z) false = Ok (vals, pos_idx) /\
      forall c, at2 m' (gt_idx + i)%nat c
                = if existsb (Nat.eqb c) pos_idx then 1 else at2 m (gt_idx + i)%nat c.
Proof.
  revert gt_idx m. induction ks as [|k ks IH]; intros gt_idx m Hloop i Hi;
    [simpl in Hi; lia|].
  simpl in Hloop.
  destruct (topk (row cost gt_idx) k false) as [[vals idx]|e] eqn:Htk; [|discriminate].
  cbn [bind] in Hloop.
  destruct i as [|i].
  - rewrite Nat.add_0_r. exists vals, idx. split; [exact Htk|].
    intros c. rewrite (claim_loop_rows _ _ _ _ _ Hloop gt_idx c) by lia.
    simpl. now rewrite Nat.eqb_refl.
  - destruct (IH (S gt_idx) _ Hloop i ltac:(simpl in Hi; lia))
      as [vals' [idx' [Htk' Hrow]]].
    replace (gt_idx + S i)%nat with (S gt_idx + i)%nat by lia.
    exists vals', idx'. split; [exact Htk'|].
    intros c. rewrite Hrow. cbn [OTA.set_claims at2].
    destruct (Nat.eqb_spec (S gt_idx + i) gt_idx) as [E|_]; [lia|]. reflexivity.
Qed.

Lemma Qsum_indicator_count (idx : list nat) (n : nat) :
  NoDup idx -> (forall i, In i idx -> (i < n)%nat) ->
  Qsum (map (fun c => if existsb (Nat.eqb c) idx then 1 else 0) (seq 0 n))
  == inject_Z (Z.of_nat (length idx)).
Proof.
  revert n. induction idx as [|j idx IH]; intros n Hnd Hlt.
  - simpl. apply Qsum_zero. reflexivity.
  - inversion Hnd as [|? ? Hj Hnd']; subst.
    rewrite (Qsum_map_ext _
               (fun c => (if (c =? j)%nat then 1 else 0)
                         + (if existsb (Nat.eqb c) idx then 1 else 0))).
    + assert (Hsplit : forall (f g : nat -> Q) l,
                Qsum (map (fun c => f c + g c) l) == Qsum (map f l) + Qsum (map g l)).
      { intros f g l. induction l as [|x l IHl]; simpl; [ring|]. rewrite IHl. ring. }
      rewrite Hsplit, (Qsum_indicator _ j (seq_NoDup _ _)), IH; auto.
      * assert (E : existsb (Nat.eqb j) (seq 0 n) = true).
        { apply existsb_eqb_In, in_seq. specialize (Hlt j (or_introl eq_refl)). lia. }
        rewrite E. cbn [length]. rewrite Nat2Z.inj_succ. unfold Z.succ.
        rewrite inject_Z_plus. change (inject_Z 1) with 1. ring.
      * intros i Hi. apply Hlt. now right.
    + intros c _. simpl. destruct (Nat.eqb_spec c j) as [->|Hne]; simpl.
      * destruct (existsb (Nat.eqb j) idx) eqn:E; [|ring].
        apply existsb_eqb_In in E. contradiction.
      * ring.
Qed.

(** The indices [topk] returns: as many as asked for, distinct, and no
    entry left out is better than an entry taken. *)
Lemma topk_indices (l : list Q) (k : Z) (largest : bool) (vals : list Q)
      (idx : list nat) :
  topk l k largest = Ok (vals, idx) ->
  (0 <= k <= Z.of_nat (length l))%Z /\
  length idx = Z.to_nat k /\ NoDup idx /\
  (forall i, In i idx -> (i < length l)%nat) /\
  vals = map (fun i => nth i l 0) idx /\
  forall i j, In i idx -> (j < length l)%nat -> ~ In j idx ->
    if largest then nth j l 0 <= nth i l 0 else nth i l 0 <= nth j l 0.
Proof.
  intros Htk.
  assert (Hk : (0 <= k <= Z.of_nat (length l))%Z).
  { destruct (Z_lt_le_dec k 0) as [Hneg|Hnn].
    - rewrite topk_raises in Htk by lia. discriminate.
    - destruct (Z_lt_le_dec (Z.of_nat (length l)) k) as [Hbig|Hle]; [|lia].
      rewrite topk_raises in Htk by lia. discriminate. }
  split; [exact Hk|].
  destruct (topk_ok l k largest Hk) as [vals' [idx' [Htk' [_ [Hlen [Hnd Hlt]]]]]].
  rewrite Htk in Htk'. injection Htk' as <- <-.
  split; [exact Hlen|]. split; [exact Hnd|]. split; [exact Hlt|].
  unfold topk in Htk.
  destruct ((k <? 0)%Z || (Z.of_nat (length l) <? k)%Z)%bool; [discriminate|].
  set (s := sort_by (topk_le largest) (enumerate l)) in Htk.
  injection Htk as Hv Hi.
  assert (Hperm : Permutation s (enumerate l))
    by (apply sort_by_perm).
  assert (Hin : forall a, In a s -> nth (fst a) l 0 = snd a /\ (fst a < length l)%nat).
  { intros [i v] Ha. apply (Permutation_in _ Hperm) in Ha. apply enumerate_In in Ha.
    simpl. split; [now apply nth_error_nth|]. apply nth_error_Some. congruence. }
  split.
  - rewrite <- Hv, <- Hi, map_map. apply map_ext_in. intros a Ha.
    symmetry. apply Hin. exact (firstn_incl _ _ _ Ha).
  - intros i j Hi' Hj Hnot. rewrite <- Hi in Hi', Hnot.
    apply in_map_iff in Hi'. destruct Hi' as [a [<- Ha]].
    assert (Hb : In (j, nth j l 0) (skipn (Z.to_nat k) s)).
    { assert (Hjs : In (j, nth j l 0) s).
      { apply (Permutation_in _ (Permutation_sym Hperm)). apply enumerate_In.
        now apply nth_error_nth'. }
      rewrite <- (firstn_skipn (Z.to_nat k) s) in Hjs. apply in_app_or in Hjs.
      destruct Hjs as [Hf|Hs]; [|exact Hs].
      exfalso. apply Hnot. apply in_map_iff. exists (j, nth j l 0). auto. }
    pose proof (sorted_firstn_skipn (topk_le largest) s (Z.to_nat k)
                  (sort_by_sorted _ (topk_le_total largest)
                     (topk_le_trans largest) _) a _ Ha Hb) as Hab.
    unfold topk_le in Hab. cbn [snd] in Hab.
    rewrite (proj1 (Hin a (firstn_incl _ _ _ Ha))).
    destruct largest; now apply Qle_bool_iff in Hab.
Qed.

Section Foreground.
Context `{Kernels}.

(** X19. In the matching loop every ground truth claims exactly its
    dynamic k candidates, between 1 and the number of candidates: the row
    of the matching matrix holds k ones, at distinct candidates none of
    which costs more than a candidate left out. *)
Theorem matching_loop_claims_the_k_cheapest (top : nat) (pair_wise_iou : matrix)
        (pair_wise_cls_loss : nat -> nat -> Q) (a : OTA.assignment) :
  OTA.assign top pair_wise_iou pair_wise_cls_loss = Ok (Some a) ->
  let cost := OTA.cost_matrix pair_wise_cls_loss (OTA.pair_wise_iou_loss pair_wise_iou) in
  exists ks m,
    OTA.dynamic_ks top pair_wise_iou = Ok ks /\
    OTA.claim_loop cost ks 0 (zeros_like cost) = Ok m /\
    a = OTA.finish cost m /\
    length ks = dim0 pair_wise_iou /\
    forall gt_idx, (gt_idx < dim0 pair_wise_iou)%nat ->
      let k := nth gt_idx ks 0%Z in
      (1 <= k <= Z.of_nat (dim1 pair_wise_iou))%Z /\
      Qsum (row m gt_idx) == inject_Z k /\
      exists pos_idx,
        NoDup pos_idx /\ length pos_idx = Z.to_nat k /\
        (forall c, In c pos_idx -> (c < dim1 pair_wise_iou)%nat) /\
        (forall c, at2 m gt_idx c = if existsb (Nat.eqb c) pos_idx then 1 else 0) /\
        (forall c c', In c pos_idx -> (c' < dim1 pair_wise_iou)%nat -> ~ In c' pos_idx ->
                      at2 cost gt_idx c <= at2 cost gt_idx c').
Proof.
  intros Ha cost.
  destruct (assign_inv top _ _ _ Ha) as [_ [_ [ks [m [Hks [Hm [Hfin [H0 [H1 _]]]]]]]]].
  fold cost in Hm, Hfin.
  destruct (dynamic_ks_spec top pair_wise_iou) as [ks' [Hks' [Hlen Hnth]]].
  rewrite Hks in Hks'. injection Hks' as <-.
  exists ks, m. split; [exact Hks|]. split; [exact Hm|]. split; [exact Hfin|].
  split; [exact Hlen|]. intros gt_idx Hgt k.
  destruct (claim_loop_row _ _ _ _ _ Hm gt_idx ltac:(lia)) as [vals [idx [Htk Hrow]]].
  cbn [Nat.add] in Htk, Hrow. fold k in Htk.
  destruct (topk_indices _ _ _ _ _ Htk) as [Hk [Hl [Hnd [Hlt [_ Hbest]]]]].
  rewrite row_length in Hk, Hlt, Hbest.
  change (dim1 cost) with (dim1 pair_wise_iou) in Hk, Hlt, Hbest.
  assert (Hk1 : (1 <= k)%Z).
  { destruct (Hnth gt_idx Hgt) as [top_k [_ E]]. unfold k. rewrite E. lia. }
  split; [lia|]. split.
  - unfold row. rewrite H1.
    rewrite (Qsum_map_ext _ (fun c => if existsb (Nat.eqb c) idx then 1 else 0)).
    + rewrite (Qsum_indicator_count idx _ Hnd Hlt), Hl, Z2Nat.id by lia. reflexivity.
    + intros c _. now rewrite Hrow.
  - exists idx. split; [exact Hnd|]. split; [exact Hl|]. split; [exact Hlt|].
    split; [exact Hrow|].
    intros c c' Hc Hc' Hnot. specialize (Hbest c c' Hc Hc' Hnot). cbv iota in Hbest.
    rewrite !row_nth in Hbest; [exact Hbest|exact Hc'|now apply Hlt].
Qed.

(** X20. Conflict resolution neither drops a claimed candidate nor adds
    an unclaimed one: the candidates of the foreground mask are exactly
    those some ground truth claimed in the matching loop; there is at
    least one of them. *)
Theorem foreground_is_what_was_claimed (top : nat) (pair_wise_iou : matrix)
        (pair_wise_cls_loss : nat -> nat -> Q) (a : OTA.assignment) :
  OTA.assign top pair_wise_iou pair_wise_cls_loss = Ok (Some a) ->
  let cost := OTA.cost_matrix pair_wise_cls_loss (OTA.pair_wise_iou_loss pair_wise_iou) in
  exists ks m,
    OTA.dynamic_ks top pair_wise_iou = Ok ks /\
    OTA.claim_loop cost ks 0 (zeros_like cost) = Ok m /\
    a = OTA.finish cost m /\
    (forall c, In c (OTA.fg_candidates a) <->
               (c < dim1 pair_wise_iou)%nat /\
               exists gt_idx, (gt_idx < dim0 pair_wise_iou)%nat /\ at2 m gt_idx c == 1) /\
    NoDup (OTA.fg_candidates a) /\
    OTA.fg_candidates a <> [].
Proof.
  intros Ha cost.
  destruct (assign_inv top _ _ _ Ha)
    as [Hd0 [Hd1 [ks [m [Hks [Hm [Hfin [H0 [H1 Hb]]]]]]]]].
  fold cost in Hm, Hfin.
  exists ks, m. split; [exact Hks|]. split; [exact Hm|]. split; [exact Hfin|].
  assert (Hfg : forall c, In c (OTA.fg_candidates a) <->
               (c < dim1 pair_wise_iou)%nat /\
               exists gt_idx, (gt_idx < dim0 pair_wise_iou)%nat /\ at2 m gt_idx c == 1).
  { intros c. rewrite Hfin. cbn [OTA.finish OTA.fg_candidates].
    rewrite filter_In, in_seq, (proj2 (resolve_dims cost m)), H1.
    split.
    - intros [Hc Hmask]. split; [lia|].
      unfold OTA.fg_mask_inboxes in Hmask. apply Qltb_lt in Hmask.
      assert (Hcol : 0 < Qsum (col m c)).
      { destruct (OTA.conflicted m c) eqn:Ec.
        - unfold OTA.conflicted in Ec. apply Qltb_lt in Ec.
          unfold OTA.anchor_matching_gt in Ec. lra.
        - unfold OTA.anchor_matching_gt, col in Hmask |- *.
          rewrite (proj1 (resolve_dims cost m)) in Hmask.
          rewrite (Qsum_map_ext _ (fun r => at2 m r c)) in Hmask; [exact Hmask|].
          intros r _. rewrite (resolve_at cost m r c) by lia. now rewrite Ec. }
      unfold col in Hcol. destruct (Qsum_pos_exists _ _ Hcol) as [r [Hr Hpos]].
      apply in_seq in Hr. exists r. split; [lia|].
      destruct (Hb r c) as [E|E]; rewrite E in Hpos |- *; [lra|reflexivity].
    - intros [Hc [r [Hr E]]]. split; [lia|].
      unfold OTA.fg_mask_inboxes. apply Qltb_lt.
      unfold OTA.anchor_matching_gt, col. rewrite (proj1 (resolve_dims cost m)).
      rewrite (Qsum_map_ext _ _ _ (fun r' _ => resolve_at cost m r' c ltac:(lia))).
      destruct (OTA.conflicted m c) eqn:Ec.
      + rewrite Qsum_indicator by apply seq_NoDup.
        assert (Hcolne : col cost c <> []).
        { intro E0. pose proof (col_length cost c) as Hl. rewrite E0 in Hl.
          change (dim0 cost) with (dim0 pair_wise_iou) in Hl. simpl in Hl. lia. }
        destruct (argmin_spec (col cost c) Hcolne) as [Hlt _].
        rewrite col_length in Hlt. change (dim0 cost) with (dim0 pair_wise_iou) in Hlt.
        assert (Eex : existsb (Nat.eqb (argmin (col cost c))) (seq 0 (dim0 m)) = true).
        { apply existsb_eqb_In, in_seq. lia. }
        rewrite Eex. reflexivity.
      + pose proof (Qsum_ge_member (fun r' => at2 m r' c) (seq 0 (dim0 m)) r
                      (fun r' => binary_nonneg m r' c Hb)
                      ltac:(apply in_seq; lia)) as Hge.
        cbv beta in Hge. lra. }
  split; [exact Hfg|]. split.
  - rewrite Hfin. cbn [OTA.finish OTA.fg_candidates]. apply NoDup_filter, seq_NoDup.
  - (* the first ground truth claims at least one candidate *)
    destruct (dynamic_ks_spec top pair_wise_iou) as [ks' [Hks' [Hlen Hnth]]].
    rewrite Hks in Hks'. injection Hks' as <-.
    destruct (claim_loop_row _ _ _ _ _ Hm 0%nat ltac:(lia)) as [vals [idx [Htk Hrow]]].
    cbn [Nat.add] in Htk, Hrow.
    destruct (topk_indices _ _ _ _ _ Htk) as [_ [Hl [_ [Hlt _]]]].
    rewrite row_length in Hlt. change (dim1 cost) with (dim1 pair_wise_iou) in Hlt.
    destruct (Hnth 0%nat Hd0) as [top_k [_ E]].
    destruct idx as [|c idx]; [simpl in Hl; lia|].
    assert (Hc : In c (OTA.fg_candidates a)).
    { apply Hfg. split; [apply Hlt; now left|].
      exists 0%nat. split; [exact Hd0|]. rewrite Hrow. simpl.
      now rewrite Nat.eqb_refl. }
    intros E0. rewrite E0 in Hc. destruct Hc.
Qed.
End Foreground.

(** ** The bookkeeping of the dynamic builder *)

Section DynamicFacts.
Context `{Kernels} `{AssignKernels}.

Lemma layer_rows_In (indices : list (list candidate)) (batch_idx i : nat)
      (pi : pred_layer) (rows : list Dynamic.row) (r : Dynamic.row) :
  Dynamic.layer_rows indices batch_idx i pi = Ok rows -> In r rows ->
  Dynamic.r_layer r = i /\
  exists cands, nth_error indices i = Some cands /\ In (Dynamic.r_cand r) cands /\
                c_b (Dynamic.r_cand r) = Z.of_nat batch_idx.
Proof.
  unfold Dynamic.layer_rows. intros Hl Hr.
  destruct (lookup indices i) as [cands|e] eqn:Hc; [|discriminate].
  cbn [bind] in Hl.
  destruct (ComputeLoss.gather pi _) as [fg|e]; [|discriminate].
  cbn [bind] in Hl.
  destruct (p_no pi <? 3)%nat; [discriminate|].
  cbn [bind] in Hl. injection Hl as <-.
  apply map2_In in Hr. destruct Hr as [c [x [Hcin [_ ->]]]]. cbn.
  split; [reflexivity|]. exists cands. apply lookup_Ok in Hc.
  apply filter_In in Hcin. destruct Hcin as [Hin Hb]. apply Z.eqb_eq in Hb. auto.
Qed.

Lemma image_rows_In (indices : list (list candidate)) (p : list pred_layer)
      (batch_idx : nat) (rows : list Dynamic.row) (r : Dynamic.row) :
  Dynamic.image_rows indices p batch_idx = Ok rows -> In r rows ->
  exists pi cands,
    nth_error p (Dynamic.r_layer r) = Some pi /\
    nth_error indices (Dynamic.r_layer r) = Some cands /\
    In (Dynamic.r_cand r) cands /\ c_b (Dynamic.r_cand r) = Z.of_nat batch_idx.
Proof.
  unfold Dynamic.image_rows. intros Hi Hr.
  destruct (mapM _ (enumerate p)) as [rs|e] eqn:Hm; [|discriminate].
  cbn [bind] in Hi. injection Hi as <-.
  apply in_concat in Hr. destruct Hr as [rows_i [Hri Hr]].
  destruct (mapM_In _ _ _ _ Hm Hri) as [[i pi] [Hip Hl]]. cbn [fst snd] in Hl.
  apply enumerate_In in Hip.
  destruct (layer_rows_In _ _ _ _ _ _ Hl Hr) as [-> [cands [Hc [Hin Hb]]]].
  exists pi, cands. auto.
Qed.

Lemma image_matches_In (top : nat) (det : Detect.t) (indices : list (list candidate))
      (p : list pred_layer) (targets : list target) (batch_idx : nat)
      (ms : list (nat * (candidate * target))) (i : nat) (c : candidate) (t : target) :
  Dynamic.image_matches top det indices p targets batch_idx = Ok (Some ms) ->
  In (i, (c, t)) ms ->
  In t targets /\ t_img t == inject_Z (Z.of_nat batch_idx) /\
  c_b c = Z.of_nat batch_idx /\
  exists pi cands,
    nth_error p i = Some pi /\ nth_error indices i = Some cands /\ In c cands.
Proof.
  unfold Dynamic.image_matches. intros Hm Hin.
  destruct (length (Dynamic.this_target targets batch_idx) =? 0)%nat;
    [discriminate|].
  destruct (Dynamic.image_rows indices p batch_idx) as [rows|e] eqn:Hrows;
    [|discriminate].
  cbn [bind] in Hm.
  destruct (length rows =? 0)%nat; [discriminate|].
  destruct (forallb _ (map _ p)); [|discriminate]. cbn [bind] in Hm.
  destruct (forallb _ (Dynamic.this_target targets batch_idx)); [|discriminate].
  cbn [bind] in Hm.
  destruct (hd 0%nat _ =? Detect.nc det)%nat; [|discriminate]. cbn [bind] in Hm.
  destruct (OTA.assign top _ _) as [[a|]|e]; [|discriminate|discriminate];
    cbn [bind] in Hm.
  injection Hm as <-.
  apply in_flat_map in Hin. destruct Hin as [[col g] [_ Hin]]. cbn [fst snd] in Hin.
  destruct (nth_error rows col) as [r|] eqn:Hr; [|destruct Hin].
  destruct (nth_error (Dynamic.this_target targets batch_idx) g) as [t'|] eqn:Ht;
    [|destruct Hin].
  destruct Hin as [E|[]]. injection E as <- <- <-.
  apply nth_error_In in Hr, Ht.
  apply filter_In in Ht. destruct Ht as [Ht Himg]. apply Qeq_bool_eq in Himg.
  destruct (image_rows_In _ _ _ _ _ Hrows Hr) as [pi [cands [Hpi [Hc [Hcin Hb]]]]].
  split; [exact Ht|]. split; [exact Himg|]. split; [exact Hb|].
  exists pi, cands. auto.
Qed.

Lemma build_targets_matches_inv
        (top : nat) (hyp : Hyp.t) (det : Detect.t) (p : list pred_layer)
        (targets : list target) (out : list (list (candidate * target)))
        (i : nat) (matched : list (candidate * target)) (c : candidate) (t : target) :
  Dynamic.build_targets top hyp det p targets = Ok out ->
  nth_error out i = Some matched -> In (c, t) matched ->
  length out = length p /\
  exists indices cands p0 batch_idx,
    ComputeLossOTA.find_3_positive hyp det p targets = Ok indices /\
    nth_error indices i = Some cands /\ In c cands /\
    In t targets /\
    nth_error p 0 = Some p0 /\ (batch_idx < p_bs p0)%nat /\
    c_b c = Z.of_nat batch_idx /\ t_img t == inject_Z (Z.of_nat batch_idx).
Proof.
  unfold Dynamic.build_targets, ComputeLossOTA.find_3_positive. intros Hb Hi Hin.
  destruct (Static.build 0.5 false hyp det p targets) as [indices|e]; [|discriminate].
  cbn [bind] in Hb.
  destruct (lookup p 0) as [p0|e] eqn:Hp0; [|discriminate]. cbn [bind] in Hb.
  destruct (mapM _ (seq 0 (p_bs p0))) as [images|e] eqn:Him; [|discriminate].
  cbn [bind] in Hb.
  pose proof (mapM_length _ _ _ Hb) as Hlen. rewrite length_seq in Hlen.
  split; [exact Hlen|].
  assert (Hil : (i < length p)%nat)
    by (rewrite <- Hlen; apply nth_error_Some; congruence).
  destruct (mapM_nth _ _ _ i i Hb) as [y [Hy Hlo]].
  { rewrite (nth_error_nth' (seq 0 (length p)) 0%nat) by (now rewrite length_seq).
    now rewrite seq_nth by exact Hil. }
  rewrite Hi in Hy. injection Hy as <-.
  unfold Dynamic.layer_output in Hlo.
  destruct (negb (length (Dynamic.appended images) =? 0)%nat).
  2:{ destruct cuda_empty; [|discriminate]. cbn [bind] in Hlo.
      injection Hlo as <-. destruct Hin. }
  injection Hlo as <-.
  apply in_flat_map in Hin. destruct Hin as [ms [Hms Hin]].
  apply in_map_iff in Hin. destruct Hin as [[j [c' t']] [E Hin]]. cbn in E.
  injection E as -> ->.
  apply filter_In in Hin. destruct Hin as [Hin Hj]. cbn in Hj.
  apply Nat.eqb_eq in Hj. subst j.
  unfold Dynamic.appended in Hms. apply in_flat_map in Hms.
  destruct Hms as [[ms'|] [Ho Hms]]; [|destruct Hms].
  destruct Hms as [->|[]].
  destruct (mapM_In _ _ _ _ Him Ho) as [batch_idx [Hbi Hmatch]].
  apply in_seq in Hbi.
  destruct (image_matches_In _ _ _ _ _ _ _ _ _ _ Hmatch Hin)
    as [Ht [Himg [Hcb [pi [cands [Hpi [Hc Hcin]]]]]]].
  exists indices, cands, p0, batch_idx. apply lookup_Ok in Hp0.
  repeat split; auto; lia.
Qed.

Lemma map_const_repeat {A B : Type} (b : B) (f : A -> B) (l : list A) :
  (forall x, In x l -> f x = b) -> map f l = repeat b (length l).
Proof.
  induction l as [|x l IH]; intros Hf; simpl; [reflexivity|].
  rewrite (Hf x (or_introl eq_refl)), IH; [reflexivity|].
  intros y Hy. apply Hf. now right.
Qed.

(** The last loop when no image appended anything: every layer asks for the
    device. *)
Lemma layer_outputs_nothing_appended (n : nat) :
  mapM (Dynamic.layer_output []) (seq 0 (S n))
  = match cuda_empty with
    | Ok _ => Ok (repeat [] (S n))
    | Raise e => Raise e
    end.
Proof.
  unfold Dynamic.layer_output. cbn [length Nat.eqb negb].
  destruct cuda_empty as [u|e]; [|reflexivity].
  cbn [bind]. rewrite (mapM_pure (fun _ : nat => @nil (candidate * target))).
  f_equal.
  transitivity (repeat (@nil (candidate * target)) (length (seq 0 (S n))));
    [|now rewrite length_seq].
  apply map_const_repeat. reflexivity.
Qed.

Lemma build_targets_no_ground_truth
        (top : nat) (hyp : Hyp.t) (det : Detect.t) (p : list pred_layer)
        (targets : list target) :
  (p = [] -> Dynamic.build_targets top hyp det p targets = Raise IndexError) /\
  (forall indices p0,
      ComputeLossOTA.find_3_positive hyp det p targets = Ok indices ->
      nth_error p 0 = Some p0 ->
      (forall t b, In t targets -> (b < p_bs p0)%nat ->
                   ~ t_img t == inject_Z (Z.of_nat b)) ->
      Dynamic.build_targets top hyp det p targets
      = match cuda_empty with
        | Ok _ => Ok (repeat [] (length p))
        | Raise e => Raise e
        end) /\
  ((0 < Detect.na det)%nat -> (Detect.nl det <= length p)%nat -> p <> [] ->
   Dynamic.build_targets top hyp det p []
   = match cuda_empty with
     | Ok _ => Ok (repeat [] (length p))
     | Raise e => Raise e
     end).
Proof.
  assert (Hgen : forall tg indices p0,
      Static.build 0.5 false hyp det p tg = Ok indices ->
      nth_error p 0 = Some p0 ->
      (forall t b, In t tg -> (b < p_bs p0)%nat ->
                   ~ t_img t == inject_Z (Z.of_nat b)) ->
      Dynamic.build_targets top hyp det p tg
      = match cuda_empty with
        | Ok _ => Ok (repeat [] (length p))
        | Raise e => Raise e
        end).
  { intros tg indices p0 Hf Hp0 Hnone. unfold Dynamic.build_targets.
    rewrite Hf. cbn [bind]. apply lookup_Ok in Hp0. rewrite Hp0. cbn [bind].
    rewrite (mapM_ext_in _ (fun _ => Ok None)).
    - rewrite (mapM_pure (fun _ : nat =>
                 @None (list (nat * (candidate * target))))).
      cbn [bind].
      assert (E : Dynamic.appended
                    (map (fun _ : nat => @None (list (nat * (candidate * target))))
                         (seq 0 (p_bs p0))) = []).
      { apply flat_map_nil. intros o Ho. apply in_map_iff in Ho.
        destruct Ho as [b [<- _]]. reflexivity. }
      rewrite E. apply lookup_Ok in Hp0.
      destruct p as [|p1 p']; [discriminate Hp0|].
      apply layer_outputs_nothing_appended.
    - intros b Hb. apply in_seq in Hb. unfold Dynamic.image_matches.
      assert (E : Dynamic.this_target tg b = []).
      { apply filter_none. intros t Ht.
        destruct (Qeq_bool (t_img t) (inject_Z (Z.of_nat b))) eqn:Eq; [|reflexivity].
        apply Qeq_bool_eq in Eq. exfalso. apply (Hnone t b Ht); [lia|exact Eq]. }
      now rewrite E. }
  split; [|split].
  - intros ->. unfold Dynamic.build_targets.
    destruct (Nat.eq_dec (Detect.nl det) 0) as [E0|Hne].
    + unfold Static.build. rewrite E0. reflexivity.
    + rewrite build_too_few_layers by (simpl; lia). reflexivity.
  - intros indices p0 Hf. exact (Hgen targets indices p0 Hf).
  - intros Hna Hnl Hne.
    destruct (build_empty 0.5 false hyp det p Hna Hnl) as [built [Hb _]].
    destruct p as [|p0 p']; [congruence|].
    apply (Hgen [] built p0 Hb eq_refl). intros t b [].
Qed.

(** X21. Every row [build_targets] of [ComputeLossOTA] or
    [ComputeLossAuxOTA] returns for a layer pairs a candidate that
    [find_3_positive] produced for that layer with a ground truth of the
    same image: the image index of the candidate is the image index of
    the ground truth, and lies within the batch.  There is one list of
    rows per prediction tensor. *)
Theorem dynamic_builder_matches_within_one_image
        (hyp : Hyp.t) (det : Detect.t) (p : list pred_layer)
        (targets : list target) (out : list (list (candidate * target)))
        (i : nat) (matched : list (candidate * target)) (c : candidate) (t : target) :
  ComputeLossOTA.build_targets hyp det p targets = Ok out \/
  ComputeLossAuxOTA.build_targets hyp det p targets = Ok out ->
  nth_error out i = Some matched -> In (c, t) matched ->
  length out = length p /\
  exists indices cands p0 batch_idx,
    ComputeLossOTA.find_3_positive hyp det p targets = Ok indices /\
    nth_error indices i = Some cands /\ In c cands /\
    In t targets /\
    nth_error p 0 = Some p0 /\ (batch_idx < p_bs p0)%nat /\
    c_b c = Z.of_nat batch_idx /\ t_img t == inject_Z (Z.of_nat batch_idx).
Proof.
  intros [Hb|Hb];
    exact (build_targets_matches_inv _ _ _ _ _ _ _ _ _ _ Hb).
Qed.

(** X22. Edge cases of [build_targets] of [ComputeLossOTA] and
    [ComputeLossAuxOTA]: an empty prediction list raises [IndexError].
    When [find_3_positive] returns and no ground truth carries the index
    of an image of the batch, no image appends anything and every output
    is created by [torch.tensor([], device='cuda:0')]: on a host with that
    device every layer gets an empty list of rows, on a host without it
    the call raises the error of torch.  So it is without any ground
    truth, given an anchor and a prediction tensor for every layer. *)
Theorem dynamic_builder_without_ground_truth
        (build : Hyp.t -> Detect.t -> list pred_layer -> list target ->
                 res (list (list (candidate * target))))
        (hyp : Hyp.t) (det : Detect.t) (p : list pred_layer) (targets : list target) :
  build = ComputeLossOTA.build_targets \/ build = ComputeLossAuxOTA.build_targets ->
  (p = [] -> build hyp det p targets = Raise IndexError) /\
  (forall indices p0,
      ComputeLossOTA.find_3_positive hyp det p targets = Ok indices ->
      nth_error p 0 = Some p0 ->
      (forall t b, In t targets -> (b < p_bs p0)%nat ->
                   ~ t_img t == inject_Z (Z.of_nat b)) ->
      build hyp det p targets
      = match cuda_empty with
        | Ok _ => Ok (repeat [] (length p))
        | Raise e => Raise e
        end) /\
  ((0 < Detect.na det)%nat -> (Detect.nl det <= length p)%nat -> p <> [] ->
   build hyp det p []
   = match cuda_empty with
     | Ok _ => Ok (repeat [] (length p))
     | Raise e => Raise e
     end).
Proof.
  intros [->| ->]; apply build_targets_no_ground_truth.
Qed.
End DynamicFacts.

(** * The theorems at concrete inputs *)

Lemma ota_conflict_resolution_unique_witness :
  @ComputeLossOTA.build_targets_assign toy_kernels example_iou example_cls_loss
  = Ok (Some example_assignment) /\
  forall c, (c < 3)%nat ->
            OTA.anchor_matching_gt (OTA.matching_matrix example_assignment) c <= 1.
Proof.
  assert (Hrun : @ComputeLossOTA.build_targets_assign toy_kernels example_iou
                   example_cls_loss = Ok (Some example_assignment))
    by (vm_compute; reflexivity).
  split; [exact Hrun|].
  destruct (@ota_conflict_resolution_unique toy_kernels _ _ _ Hrun)
    as [ks [m [_ [_ [_ [Hcols _]]]]]].
  exact Hcols.
Defined.

Lemma dynamic_k_within_candidates_witness :
  (0 < dim0 example_iou)%nat /\ (0 < dim1 example_iou)%nat /\
  (forall r c, (r < dim0 example_iou)%nat -> (c < dim1 example_iou)%nat ->
               0 <= at2 example_iou r c /\ at2 example_iou r c <= 1) /\
  exists a, @ComputeLossOTA.build_targets_assign toy_kernels example_iou example_cls_loss
            = Ok (Some a).
Proof.
  assert (H0 : (0 < dim0 example_iou)%nat) by (simpl; lia).
  assert (H1 : (0 < dim1 example_iou)%nat) by (simpl; lia).
  assert (Hiou : forall r c, (r < dim0 example_iou)%nat -> (c < dim1 example_iou)%nat ->
                             0 <= at2 example_iou r c /\ at2 example_iou r c <= 1).
  { intros r c Hr Hc. simpl in Hr, Hc.
    destruct r as [|[|r]]; [| |lia];
      (destruct c as [|[|[|c]]]; [| | |lia]); vm_compute; split; discriminate. }
  split; [exact H0|]. split; [exact H1|]. split; [exact Hiou|].
  destruct (@dynamic_k_within_candidates toy_kernels example_iou example_cls_loss
              H0 H1 Hiou) as [ks [m [_ [_ [_ [_ Ha]]]]]].
  eexists. exact Ha.
Defined.

Lemma incompatible_ground_truth_yields_no_candidate_witness :
  let t := example_target 36 44 320 32 in
  ComputeLoss.build_targets example_self [example_pred 10 10] [t] = Ok [[]] /\
  (0 < Detect.nl (ComputeLoss.det example_self))%nat /\
  ~ Static.ratio (2, 2) (Static.scale 16 t) < 4 /\
  exists cands, nth_error [[]] 0 = Some cands /\
                filter (fun c : candidate => (c_gt c =? 0)%nat) cands = [].
Proof.
  cbv zeta.
  assert (Hb : ComputeLoss.build_targets example_self [example_pred 10 10]
                 [example_target 36 44 320 32] = Ok [[]]) by (vm_compute; reflexivity).
  assert (Hi : (0 < Detect.nl (ComputeLoss.det example_self))%nat) by (simpl; lia).
  assert (Hr : ~ Static.ratio (2, 2) (Static.scale 16 (example_target 36 44 320 32)) < 4)
    by (vm_compute; discriminate).
  split; [exact Hb|]. split; [exact Hi|]. split; [exact Hr|].
  apply (incompatible_ground_truth_yields_no_candidate example_self
           [example_pred 10 10] [example_target 36 44 320 32] [[]] 0 0
           (example_target 36 44 320 32) (or_introl Hb) Hi eq_refl).
  intros a Ha. right. exact Hr.
Defined.

Lemma zero_targets_objectness_only_witness :
  ComputeLoss.built_by_init example_self /\
  ComputeLoss.autobalance example_self = true /\
  exists loss lbox lobj lcls ltheta self',
    @ComputeLoss.call toy_kernels example_self [example_pred 4 4] []
    = Ok (loss, [lbox; lobj; lcls; ltheta], self') /\
    lbox == 0 /\ lcls == 0 /\ ltheta == 0 /\
    lobj == 0.7 * (1 * 4) /\
    loss == lobj * inject_Z (Z.of_nat (p_bs (example_pred 4 4))).
Proof.
  assert (Hinit : ComputeLoss.built_by_init example_self).
  { exists example_hyp, example_det, true, example_self. split; reflexivity. }
  split; [exact Hinit|]. split; [reflexivity|].
  pose proof (@zero_targets_objectness_only toy_kernels example_self
                [example_pred 4 4] Hinit) as Hzero.
  cbv zeta in Hzero. destruct Hzero as [Hval Hret].
  destruct Hret as [loss [items [self' Hcall]]].
  - discriminate.
  - reflexivity.
  - simpl. lia.
  - simpl. lia.
  - right. split; [|split].
    + repeat constructor.
    + simpl. lia.
    + intros pi [<-|[]]. vm_compute. reflexivity.
  - destruct (Hval loss items self' Hcall)
      as [lbox [lobj [lcls [ltheta [pi_last
            [Hitems [Hlast [Hbox [Hcls [Hth [Hobj Hloss]]]]]]]]]]].
    exists loss, lbox, lobj, lcls, ltheta, self'.
    rewrite <- Hitems. split; [exact Hcall|].
    split; [exact Hbox|]. split; [exact Hcls|]. split; [exact Hth|].
    split.
    + rewrite Hobj. vm_compute. reflexivity.
    + simpl in Hlast. injection Hlast as <-. exact Hloss.
Defined.

(** C5, as the specification words it, fails: a call without ground truth
    can raise.  On a batch that is confidently background the objectness
    loss is 0, and the auto-balancing divides by it; with one ground
    truth the same call returns. *)
Lemma zero_targets_call_raises :
  ComputeLoss.built_by_init example_self /\
  @ComputeLoss.call saturating_kernels example_self [example_background 4 4] []
  = Raise ZeroDivisionError /\
  exists r,
    @ComputeLoss.call saturating_kernels example_self [example_background 4 4]
                      [example_target 40 40 32 32] = Ok r.
Proof.
  split.
  { exists example_hyp, example_det, true, example_self. split; reflexivity. }
  split; [vm_compute; reflexivity|].
  eexists. vm_compute. reflexivity.
Qed.

Lemma call_returns_weighted_sum_witness :
  @ComputeLoss.call toy_kernels example_self [example_pred 4 4]
                    [example_target 40 40 32 32]
  = Ok (fst (fst example_result), snd (fst example_result), snd example_result) /\
  fst (fst example_result)
  == Qsum (snd (fst example_result))
     * inject_Z (Z.of_nat (p_bs (example_pred 4 4))).
Proof.
  assert (Hcall : @ComputeLoss.call toy_kernels example_self [example_pred 4 4]
                    [example_target 40 40 32 32]
                  = Ok (fst (fst example_result), snd (fst example_result),
                        snd example_result))
    by (vm_compute; reflexivity).
  split; [exact Hcall|].
  destruct (proj2 (@call_returns_weighted_sum toy_kernels example_self
                     [example_pred 4 4] [example_target 40 40 32 32]) _ _ _ Hcall)
    as [a [built [lts [pi [_ [_ [_ [_ [_ [_ [_ [_ [Hpi [_ [_ Hloss]]]]]]]]]]]]]]].
  cbn [length nth_error Nat.sub] in Hpi. injection Hpi as <-. exact Hloss.
Defined.

Lemma autobalance_renormalizes_reference_witness :
  ComputeLoss.init example_hyp example_det true = Ok example_self /\
  ComputeLoss.autobalance example_self = true /\
  @ComputeLoss.call toy_kernels example_self [example_pred 4 4]
                    [example_target 40 40 32 32]
  = Ok (fst (fst example_result), snd (fst example_result), snd example_result) /\
  Detect.stride example_det (ComputeLoss.ssi example_self) == 16 /\
  nth (ComputeLoss.ssi (snd example_result))
      (ComputeLoss.balance (snd example_result)) 0 == 1.
Proof.
  assert (Hinit : ComputeLoss.init example_hyp example_det true = Ok example_self)
    by (vm_compute; reflexivity).
  assert (Hab : ComputeLoss.autobalance example_self = true)
    by (vm_compute; reflexivity).
  assert (Hcall : @ComputeLoss.call toy_kernels example_self [example_pred 4 4]
                    [example_target 40 40 32 32]
                  = Ok (fst (fst example_result), snd (fst example_result),
                        snd example_result))
    by (vm_compute; reflexivity).
  split; [exact Hinit|]. split; [exact Hab|]. split; [exact Hcall|].
  destruct (@autobalance_renormalizes_reference toy_kernels) as [Href Hstep].
  split.
  - exact (proj2 (proj2 (Href _ _ _ Hinit))).
  - destruct (Hstep _ _ _ _ _ _ Hab Hcall)
      as [a [built [lts [d [_ [_ [_ [_ [_ [_ [_ [_ [_ Hone]]]]]]]]]]]]].
    exact Hone.
Defined.

Lemma nonpositive_gamma_disables_focal_witness :
  ComputeLoss.init example_hyp example_det true = Ok example_self /\
  Hyp.fl_gamma example_hyp <= 0 /\
  ComputeLoss.BCEobj example_self = BCE (BCEWithLogitsLoss.init (Hyp.obj_pw example_hyp)).
Proof.
  assert (Hinit : ComputeLoss.init example_hyp example_det true = Ok example_self)
    by (vm_compute; reflexivity).
  assert (Hg : Hyp.fl_gamma example_hyp <= 0) by (vm_compute; discriminate).
  split; [exact Hinit|]. split; [exact Hg|].
  destruct (@nonpositive_gamma_disables_focal toy_kernels _ _ _ _ Hinit) as [Hplain _].
  exact (proj1 (proj2 (Hplain Hg))).
Defined.

Lemma sigmoid_bin_shape_contract_witness :
  SigmoidBin.init 4 0 1 2 true true 1 0 = Ok example_bin /\
  SigmoidBin.get_length example_bin = 5%nat /\
  SigmoidBin.forward example_bin (of_rows [[0.5; 0.1; 0.9; 0.2]])
  = Raise (AssertionError "pred.shape[-1]=4 is not equal to self.length=5").
Proof.
  assert (Hinit : SigmoidBin.init 4 0 1 2 true true 1 0 = Ok example_bin)
    by (vm_compute; reflexivity).
  split; [exact Hinit|].
  destruct (@sigmoid_bin_shape_contract toy_kernels _ _ _ _ _ _ _ _ _ Hinit)
    as [Hlen [Hfw _]].
  split; [exact Hlen|].
  assert (Hne : dim1 (of_rows [[0.5; 0.1; 0.9; 0.2]]) <> SigmoidBin.get_length example_bin)
    by (vm_compute; discriminate).
  exact (Hfw _ Hne).
Defined.

(** ** The further properties at concrete inputs *)

Lemma sigmoid_bin_init_outcome_witness :
  (0 < 4)%nat /\ 0 < 1 /\
  exists self, SigmoidBin.init 4 0 1 2 true true 1 0 = Ok self.
Proof.
  assert (H4 : (0 < 4)%nat) by lia.
  assert (H1 : 0 < 1) by reflexivity.
  split; [exact H4|]. split; [exact H1|].
  destruct (sigmoid_bin_init_outcome 4 0 1 2 true true 1 0) as [_ [_ Hok]].
  apply Hok. split; [exact H4|]. left. exact H1.
Defined.

Lemma sigmoid_bin_bins_are_centres_witness :
  (0 < 4)%nat /\ 0 < 1 /\
  exists self,
    SigmoidBin.init 4 0 1 2 true true 1 0 = Ok self /\
    length (SigmoidBin.bins self) = 4%nat.
Proof.
  assert (H4 : (0 < 4)%nat) by lia.
  assert (H1 : 0 < 1) by reflexivity.
  split; [exact H4|]. split; [exact H1|].
  destruct (sigmoid_bin_bins_are_centres 4 0 1 2 true true 1 0 H4 H1)
    as [self [Hinit [Hlen _]]].
  - vm_compute. reflexivity.
  - exists self. split; [exact Hinit|exact Hlen].
Defined.

Lemma sigmoid_bin_forward_in_range_witness :
  SigmoidBin.init 4 0 1 2 true true 1 0 = Ok example_bin /\
  exists result,
    SigmoidBin.forward example_bin (of_rows [[0.5; 0.1; 0.9; 0.2; 0.3]]) = Ok result /\
    length result = 1%nat /\ 0 <= nth 0 result 0 /\ nth 0 result 0 <= 1.
Proof.
  assert (Hinit : SigmoidBin.init 4 0 1 2 true true 1 0 = Ok example_bin)
    by (vm_compute; reflexivity).
  split; [exact Hinit|].
  destruct (sigmoid_bin_forward_in_range 4 0 1 2 true true 1 0 example_bin
              (of_rows [[0.5; 0.1; 0.9; 0.2; 0.3]]) Hinit)
    as [result [Hf [Hlen [Hrange _]]]].
  - reflexivity.
  - vm_compute. reflexivity.
  - reflexivity.
  - exists result. split; [exact Hf|]. split; [exact Hlen|].
    apply Hrange. simpl. lia.
Defined.

Lemma sigmoid_bin_training_output_near_target_witness :
  SigmoidBin.init 4 0 1 2 true true 1 0 = Ok example_bin /\
  exists loss out_result,
    @SigmoidBin.training_loss toy_kernels example_bin
       (of_rows [[0.5; 0.1; 0.9; 0.2; 0.3]]) [0.7] = Ok (loss, out_result) /\
    Qabs (nth 0 out_result 0 - nth 0 [0.7] 0) <= 0.5 * (1 + 2) * ((1 - 0) / 4).
Proof.
  assert (Hinit : SigmoidBin.init 4 0 1 2 true true 1 0 = Ok example_bin)
    by (vm_compute; reflexivity).
  split; [exact Hinit|].
  destruct (@sigmoid_bin_training_output_near_target toy_kernels
              4 0 1 2 true true 1 0 example_bin
              (of_rows [[0.5; 0.1; 0.9; 0.2; 0.3]]) [0.7] Hinit)
    as [loss [outs [Hl [_ Hnear]]]].
  - reflexivity.
  - vm_compute. reflexivity.
  - discriminate.
  - intros x. simpl. split; discriminate.
  - reflexivity.
  - reflexivity.
  - intros y [<-|[]]. split; discriminate.
  - exists loss, outs. split; [exact Hl|].
    apply (Hnear 0%nat). simpl. lia.
Defined.

Lemma focal_loss_keeps_reduction_witness :
  length [0; 1] = length [1; 0] /\
  exists loss,
    @FocalLoss.forward toy_kernels (FocalLoss.init (BCEWithLogitsLoss.init 1) 1.5 0.25)
      [0; 1] [1; 0]
    = Ok (reduce Mean loss) /\ length loss = 2%nat.
Proof.
  assert (Hlen : length [0; 1] = length [1; 0]) by reflexivity.
  split; [exact Hlen|].
  exact (proj2 (@focal_loss_keeps_reduction toy_kernels (BCEWithLogitsLoss.init 1)
                  1.5 0.25 [0; 1] [1; 0]) Hlen).
Defined.

Lemma quality_focal_is_focal_on_hard_labels_witness :
  match @QFocalLoss.forward toy_kernels
          (QFocalLoss.init (BCEWithLogitsLoss.init 1) 1.5 0.25) [0; 1] [1; 0],
        @FocalLoss.forward toy_kernels
          (FocalLoss.init (BCEWithLogitsLoss.init 1) 1.5 0.25) [0; 1] [1; 0] with
  | Ok a, Ok b => out_eq a b /\ length [0; 1] = length [1; 0]
  | Raise e1, Raise e2 => e1 = e2 /\ length [0; 1] <> length [1; 0]
  | _, _ => False
  end.
Proof.
  apply (@quality_focal_is_focal_on_hard_labels toy_kernels (BCEWithLogitsLoss.init 1)
           1.5 0.25 [0; 1] [1; 0]).
  - intros x. simpl. split; discriminate.
  - intros x y g _. reflexivity.
  - intros y [<-|[<-|[]]]; [right|left]; reflexivity.
Defined.

Lemma init_looks_up_stride_16_witness :
  ComputeLoss.init example_hyp example_det true = Ok example_self /\
  Detect.stride example_det (ComputeLoss.ssi example_self) == 16.
Proof.
  assert (Hinit : ComputeLoss.init example_hyp example_det true = Ok example_self)
    by (vm_compute; reflexivity).
  split; [exact Hinit|].
  destruct (init_looks_up_stride_16 example_hyp example_det) as [_ [_ [_ [Hok _]]]].
  exact (proj1 (proj2 (Hok example_self Hinit))).
Defined.

Lemma call_needs_one_prediction_per_layer_witness :
  (length (@nil pred_layer) < Detect.nl (ComputeLoss.det example_self))%nat /\
  @ComputeLoss.call toy_kernels example_self [] [example_target 40 40 32 32]
  = Raise IndexError.
Proof.
  assert (Hlt : (length (@nil pred_layer)
                 < Detect.nl (ComputeLoss.det example_self))%nat) by (simpl; lia).
  split; [exact Hlt|].
  exact (proj1 (@call_needs_one_prediction_per_layer toy_kernels example_self []
                  [example_target 40 40 32 32]) Hlt).
Defined.

Lemma call_without_autobalance_keeps_balance_witness :
  ComputeLoss.autobalance example_plain = false /\
  @ComputeLoss.call toy_kernels example_plain [example_pred 4 4]
                    [example_target 40 40 32 32]
  = Ok (fst (fst example_result_plain), snd (fst example_result_plain),
        snd example_result_plain) /\
  snd example_result_plain = example_plain.
Proof.
  assert (Hab : ComputeLoss.autobalance example_plain = false)
    by (vm_compute; reflexivity).
  assert (Hcall : @ComputeLoss.call toy_kernels example_plain [example_pred 4 4]
                    [example_target 40 40 32 32]
                  = Ok (fst (fst example_result_plain), snd (fst example_result_plain),
                        snd example_result_plain))
    by (vm_compute; reflexivity).
  split; [exact Hab|]. split; [exact Hcall|].
  exact (@call_without_autobalance_keeps_balance toy_kernels _ _ _ _ _ _ Hab Hcall).
Defined.

Lemma single_class_has_no_classification_loss_witness :
  (Detect.nc (ComputeLoss.det example_plain1) <= 1)%nat /\
  exists loss lbox lobj lcls ltheta self',
    @ComputeLoss.call toy_kernels example_plain1 [example_pred 4 4]
                      [example_target 40 40 32 32]
    = Ok (loss, [lbox; lobj; lcls; ltheta], self') /\
    lcls == 0 /\
    loss == (lbox + lobj + ltheta)
            * inject_Z (Z.of_nat (p_bs (example_pred 4 4))).
Proof.
  assert (Hnc : (Detect.nc (ComputeLoss.det example_plain1) <= 1)%nat)
    by (vm_compute; lia).
  assert (Hcall : @ComputeLoss.call toy_kernels example_plain1 [example_pred 4 4]
                    [example_target 40 40 32 32]
                  = Ok (fst (fst example_result1),
                        [nth 0 (snd (fst example_result1)) 0;
                         nth 1 (snd (fst example_result1)) 0;
                         nth 2 (snd (fst example_result1)) 0;
                         nth 3 (snd (fst example_result1)) 0],
                        snd example_result1))
    by (vm_compute; reflexivity).
  split; [exact Hnc|].
  do 6 eexists. split; [exact Hcall|].
  destruct (@single_class_has_no_classification_loss toy_kernels
              _ _ _ _ _ _ _ _ _ Hnc Hcall) as [Hz [pi_last [Hlast Hloss]]].
  split; [exact Hz|].
  injection Hlast as <-. exact Hloss.
Defined.

Lemma objectness_target_is_clamped_iou_witness :
  ComputeLoss.built_by_init example_self /\
  exists lbox lcls ltheta tobj,
    @ComputeLoss.matched_terms toy_kernels example_self (example_pred 10 10)
       (nth 0 example_built [])
    = Ok (lbox, lcls, ltheta, tobj) /\
    forall pos, 0 <= tobj pos /\ tobj pos <= 1.
Proof.
  assert (Hinit : ComputeLoss.built_by_init example_self).
  { exists example_hyp, example_det, true, example_self. split; reflexivity. }
  split; [exact Hinit|].
  destruct (@ComputeLoss.matched_terms toy_kernels example_self (example_pred 10 10)
              (nth 0 example_built []))
    as [[[[lbox lcls] ltheta] tobj]|e] eqn:E.
  - exists lbox, lcls, ltheta, tobj. split; [reflexivity|].
    destruct (@objectness_target_is_clamped_iou toy_kernels _ _ _ _ _ _ _ Hinit E)
      as [ps [_ [_ Hpos]]].
    intros pos. destruct (Hpos pos) as [H0 [_ H1]].
    split; [exact H0|]. apply H1. intros b1 b2. discriminate.
  - vm_compute in E. discriminate E.
Defined.

Lemma built_candidates_index_the_prediction_witness :
  Static.build 0.5 true example_hyp example_det [example_pred 10 10]
               [example_target 36 44 32 32] = Ok example_built /\
  exists ps,
    ComputeLoss.gather (example_pred 10 10) (nth 0 example_built []) = Ok ps /\
    length ps = length (nth 0 example_built []).
Proof.
  assert (Hb : Static.build 0.5 true example_hyp example_det [example_pred 10 10]
                 [example_target 36 44 32 32] = Ok example_built)
    by (vm_compute; reflexivity).
  split; [exact Hb|].
  refine (proj2 (built_candidates_index_the_prediction 0.5 true example_hyp example_det
                   [example_pred 10 10] [example_target 36 44 32 32] example_built
                   0 (example_pred 10 10) (nth 0 example_built [])
                   Hb _ _ _ _ _ _)).
  - reflexivity.
  - vm_compute. reflexivity.
  - simpl. lia.
  - simpl. lia.
  - reflexivity.
  - intros t [<-|[]]. vm_compute. split; [discriminate|reflexivity].
Defined.

Lemma builders_agree_inside_the_grid_witness :
  ComputeLoss.build_targets example_self [example_pred 10 10]
                            [example_target 36 44 32 32]
  = ComputeLossOTA.find_3_positive example_hyp example_det [example_pred 10 10]
                                   [example_target 36 44 32 32].
Proof.
  apply (builders_agree_inside_the_grid example_self [example_pred 10 10]
           [example_target 36 44 32 32]).
  intros i pi t _ Hp [<-|[]].
  destruct i as [|i]; [|destruct i; discriminate Hp].
  injection Hp as <-. vm_compute.
  split; [discriminate|]. split; [reflexivity|]. split; [discriminate|reflexivity].
Defined.

Lemma candidate_offsets_inside_the_grid_witness :
  In (nth 1 (nth 0 example_built []) example_candidate) (nth 0 example_built []) /\
  let '(bx, by_, bw, bh) :=
    c_tbox (nth 1 (nth 0 example_built []) example_candidate) in
  - 0.5 < bx /\ bx < 1.5 /\ - 0.5 < by_ /\ by_ < 1.5.
Proof.
  assert (Hb : Static.build 0.5 true example_hyp example_det [example_pred 10 10]
                 [example_target 36 44 32 32] = Ok example_built)
    by (vm_compute; reflexivity).
  assert (Hc : nth_error example_built 0 = Some (nth 0 example_built []))
    by (vm_compute; reflexivity).
  assert (Hin : In (nth 1 (nth 0 example_built []) example_candidate)
                   (nth 0 example_built [])).
  { apply nth_In. vm_compute. repeat constructor. }
  assert (Ht : nth_error [example_target 36 44 32 32]
                 (c_gt (nth 1 (nth 0 example_built []) example_candidate))
               = Some (example_target 36 44 32 32))
    by (vm_compute; reflexivity).
  split; [exact Hin|].
  pose proof (candidate_offsets_inside_the_grid true example_hyp example_det
                [example_pred 10 10] [example_target 36 44 32 32] example_built
                0 (example_pred 10 10) (nth 0 example_built [])
                (nth 1 (nth 0 example_built []) example_candidate)
                (example_target 36 44 32 32) Hb eq_refl Hc Hin Ht) as Hoff.
  cbv zeta in Hoff.
  assert (H1 : 0 <= t_x (Static.scale (Detect.stride example_det 0)
                           (example_target 36 44 32 32)))
    by (vm_compute; discriminate).
  assert (H2 : t_x (Static.scale (Detect.stride example_det 0)
                      (example_target 36 44 32 32))
               < inject_Z (Z.of_nat (p_w (example_pred 10 10))))
    by (vm_compute; reflexivity).
  assert (H3 : 0 <= t_y (Static.scale (Detect.stride example_det 0)
                           (example_target 36 44 32 32)))
    by (vm_compute; discriminate).
  assert (H4 : t_y (Static.scale (Detect.stride example_det 0)
                      (example_target 36 44 32 32))
               < inject_Z (Z.of_nat (p_h (example_pred 10 10))))
    by (vm_compute; reflexivity).
  specialize (Hoff H1 H2 H3 H4).
  destruct (c_tbox (nth 1 (nth 0 example_built []) example_candidate))
    as [[[bx by_] bw] bh].
  destruct Hoff as [A [B [C [D _]]]].
  split; [exact A|]. split; [exact B|]. split; [exact C|exact D].
Defined.

Lemma off_grid_pair_yields_up_to_three_distinct_cells_witness :
  Static.build 0.5 true example_hyp example_det [example_pred 10 10]
               [example_target 36 44 32 32] = Ok example_built /\
  exists cands,
    nth_error example_built 0 = Some cands /\
    (1 <= length (filter (Static.from_pair 0 0) cands) <= 3)%nat /\
    NoDup (map (fun c => (c_gi c, c_gj c)) (filter (Static.from_pair 0 0) cands)).
Proof.
  assert (Hb : Static.build 0.5 true example_hyp example_det [example_pred 10 10]
                 [example_target 36 44 32 32] = Ok example_built)
    by (vm_compute; reflexivity).
  split; [exact Hb|].
  destruct (off_grid_pair_yields_up_to_three_distinct_cells true example_hyp
              example_det [example_pred 10 10] [example_target 36 44 32 32]
              example_built 0 0 0 (example_target 36 44 32 32) Hb)
    as [pi [cands [Hp [Hc Hcells]]]].
  - simpl. lia.
  - reflexivity.
  - simpl. lia.
  - vm_compute. reflexivity.
  - exists cands. split; [exact Hc|].
    injection Hp as <-. cbv zeta in Hcells.
    destruct Hcells as [Hcount Hdistinct].
    + vm_compute. discriminate.
    + vm_compute. discriminate.
    + split; [exact Hcount|]. apply Hdistinct.
      * vm_compute. discriminate.
      * vm_compute. reflexivity.
      * vm_compute. discriminate.
      * vm_compute. reflexivity.
Defined.

Lemma find_5_positive_takes_the_anchor_from_the_angle_witness :
  ComputeLossAuxOTA.find_5_positive example_hyp example_det [example_pred 10 10]
                                    [example_target 40 40 32 32] = Ok example_built5 /\
  c5_a (nth 0 (nth 0 example_built5 []) example_candidate5) = 0%Z /\
  c5_anch (nth 0 (nth 0 example_built5 []) example_candidate5)
  = Detect.anchors example_det 0 0.
Proof.
  assert (Hb : ComputeLossAuxOTA.find_5_positive example_hyp example_det
                 [example_pred 10 10] [example_target 40 40 32 32]
               = Ok example_built5)
    by (vm_compute; reflexivity).
  assert (Hc : nth_error example_built5 0 = Some (nth 0 example_built5 []))
    by (vm_compute; reflexivity).
  assert (Hin : In (nth 0 (nth 0 example_built5 []) example_candidate5)
                   (nth 0 example_built5 [])).
  { apply nth_In. vm_compute. repeat constructor. }
  split; [exact Hb|].
  destruct (find_5_positive_takes_the_anchor_from_the_angle _ _ _ _ _ _ _ _ Hb Hc Hin)
    as [t [Ht [_ [_ [_ [_ [_ Hzero]]]]]]].
  assert (E : Some t = Some (example_target 40 40 32 32)).
  { rewrite <- Ht. vm_compute. reflexivity. }
  injection E as ->. apply Hzero; reflexivity.
Defined.

Lemma find_5_positive_rejects_angles_beyond_the_anchors_witness :
  (Z.of_nat (Detect.na example_det) <= Qtrunc (t_theta example_turned))%Z /\
  ComputeLossAuxOTA.find_5_positive example_hyp example_det [example_pred 10 10]
                                    [example_turned] = Raise IndexError.
Proof.
  assert (Ha : (Z.of_nat (Detect.na example_det) <= Qtrunc (t_theta example_turned))%Z)
    by (vm_compute; discriminate).
  split; [exact Ha|].
  apply (find_5_positive_rejects_angles_beyond_the_anchors example_hyp example_det
           [example_pred 10 10] [example_turned] 0 0 0 example_turned).
  - simpl. lia.
  - reflexivity.
  - simpl. lia.
  - vm_compute. reflexivity.
  - right. exact Ha.
Defined.

Lemma find_5_positive_interior_yields_cell_and_four_neighbours_witness :
  ComputeLossAuxOTA.find_5_positive example_hyp example_det [example_pred 10 10]
                                    [example_target 40 40 32 32] = Ok example_built5 /\
  exists cands,
    nth_error example_built5 0 = Some cands /\
    map (fun c => (c5_off c, c5_gi c, c5_gj c))
        (filter (ComputeLossAuxOTA.from_pair 0 0) cands)
    = [(0%nat, 2%Z, 2%Z); (1%nat, 1%Z, 2%Z); (2%nat, 2%Z, 1%Z);
       (3%nat, 3%Z, 2%Z); (4%nat, 2%Z, 3%Z)].
Proof.
  assert (Hb : ComputeLossAuxOTA.find_5_positive example_hyp example_det
                 [example_pred 10 10] [example_target 40 40 32 32]
               = Ok example_built5)
    by (vm_compute; reflexivity).
  split; [exact Hb|].
  destruct (find_5_positive_interior_yields_cell_and_four_neighbours example_hyp
              example_det [example_pred 10 10] [example_target 40 40 32 32]
              example_built5 0 0 0 (example_target 40 40 32 32) Hb)
    as [pi [cands [Hp [Hc Hcells]]]].
  - simpl. lia.
  - reflexivity.
  - simpl. lia.
  - vm_compute. reflexivity.
  - exists cands. split; [exact Hc|].
    injection Hp as <-. cbv zeta in Hcells.
    rewrite Hcells.
    + vm_compute. reflexivity.
    + vm_compute. reflexivity.
    + vm_compute. reflexivity.
    + vm_compute. reflexivity.
    + vm_compute. reflexivity.
Defined.

Lemma matching_loop_claims_the_k_cheapest_witness :
  @ComputeLossOTA.build_targets_assign toy_kernels example_iou example_cls_loss
  = Ok (Some example_assignment) /\
  exists ks m,
    OTA.dynamic_ks ComputeLossOTA.top example_iou = Ok ks /\
    OTA.matching_matrix example_assignment
    = OTA.matching_matrix
        (OTA.finish (OTA.cost_matrix example_cls_loss
                       (@OTA.pair_wise_iou_loss toy_kernels example_iou)) m) /\
    forall gt_idx, (gt_idx < dim0 example_iou)%nat ->
                   Qsum (row m gt_idx) == inject_Z (nth gt_idx ks 0%Z).
Proof.
  assert (Hrun : @ComputeLossOTA.build_targets_assign toy_kernels example_iou
                   example_cls_loss = Ok (Some example_assignment))
    by (vm_compute; reflexivity).
  split; [exact Hrun|].
  destruct (@matching_loop_claims_the_k_cheapest toy_kernels _ _ _ _ Hrun)
    as [ks [m [Hks [_ [Ha [_ Hrows]]]]]].
  exists ks, m. split; [exact Hks|]. split; [now rewrite Ha|].
  intros gt_idx Hgt. exact (proj1 (proj2 (Hrows gt_idx Hgt))).
Defined.

Lemma foreground_is_what_was_claimed_witness :
  @ComputeLossOTA.build_targets_assign toy_kernels example_iou example_cls_loss
  = Ok (Some example_assignment) /\
  NoDup (OTA.fg_candidates example_assignment) /\
  OTA.fg_candidates example_assignment <> [].
Proof.
  assert (Hrun : @ComputeLossOTA.build_targets_assign toy_kernels example_iou
                   example_cls_loss = Ok (Some example_assignment))
    by (vm_compute; reflexivity).
  split; [exact Hrun|].
  destruct (@foreground_is_what_was_claimed toy_kernels _ _ _ _ Hrun)
    as [ks [m [_ [_ [_ [_ Hfg]]]]]].
  exact Hfg.
Defined.

Lemma dynamic_builder_matches_within_one_image_witness :
  @ComputeLossOTA.build_targets toy_kernels toy_assign_kernels example_hyp example_det
     [example_pred 10 10] [example_target 36 44 32 32] = Ok example_matched /\
  exists matched c t,
    nth_error example_matched 0 = Some matched /\ In (c, t) matched /\
    In t [example_target 36 44 32 32] /\ (0 <= c_b c < 1)%Z.
Proof.
  assert (Hb : @ComputeLossOTA.build_targets toy_kernels toy_assign_kernels
                 example_hyp example_det [example_pred 10 10]
                 [example_target 36 44 32 32] = Ok example_matched)
    by (vm_compute; reflexivity).
  assert (Hm : nth_error example_matched 0 = Some (nth 0 example_matched []))
    by (vm_compute; reflexivity).
  assert (Hin : In (nth 0 (nth 0 example_matched [])
                      (example_candidate, example_turned))
                   (nth 0 example_matched [])).
  { apply nth_In. vm_compute. repeat constructor. }
  split; [exact Hb|].
  destruct (nth 0 (nth 0 example_matched []) (example_candidate, example_turned))
    as [c t].
  exists (nth 0 example_matched []), c, t.
  split; [exact Hm|]. split; [exact Hin|].
  destruct (@dynamic_builder_matches_within_one_image toy_kernels toy_assign_kernels
              _ _ _ _ _ _ _ _ _ (or_introl Hb) Hm Hin)
    as [_ [indices [cands [p0 [batch_idx [_ [_ [_ [Ht [Hp0 [Hlt [Hcb _]]]]]]]]]]]].
  split; [exact Ht|].
  injection Hp0 as <-. simpl in Hlt. rewrite Hcb. lia.
Defined.

Lemma dynamic_builder_without_ground_truth_witness :
  @ComputeLossAuxOTA.build_targets toy_kernels toy_assign_kernels example_hyp
     example_det [] [example_target 36 44 32 32] = Raise IndexError /\
  @ComputeLossAuxOTA.build_targets toy_kernels toy_assign_kernels example_hyp
     example_det [example_pred 10 10] [] = Ok [[]] /\
  @ComputeLossAuxOTA.build_targets toy_kernels toy_assign_kernels_cpu example_hyp
     example_det [example_pred 10 10] []
  = Raise (AssertionError "Torch not compiled with CUDA enabled").
Proof.
  destruct (@dynamic_builder_without_ground_truth toy_kernels toy_assign_kernels
              (@ComputeLossAuxOTA.build_targets toy_kernels toy_assign_kernels)
              example_hyp example_det [] [example_target 36 44 32 32]
              (or_intror eq_refl)) as [Hempty _].
  destruct (@dynamic_builder_without_ground_truth toy_kernels toy_assign_kernels
              (@ComputeLossAuxOTA.build_targets toy_kernels toy_assign_kernels)
              example_hyp example_det [example_pred 10 10] []
              (or_intror eq_refl)) as [_ [_ Hnone]].
  destruct (@dynamic_builder_without_ground_truth toy_kernels toy_assign_kernels_cpu
              (@ComputeLossAuxOTA.build_targets toy_kernels toy_assign_kernels_cpu)
              example_hyp example_det [example_pred 10 10] []
              (or_intror eq_refl)) as [_ [_ Hcpu]].
  split; [exact (Hempty eq_refl)|]. split.
  - apply Hnone; [simpl; lia|simpl; lia|discriminate].
  - apply Hcpu; [simpl; lia|simpl; lia|discriminate].
Defined.
